(** * CineCatalogo page script (CSS2/script.js): a shallow embedding

    The script is presentation-layer glue over the DOM.  The embedding keeps
    the DOM as a store of element records addressed by their position in
    document order, the listeners of the script as a finite type of closures,
    and the host calls of the click handler in a small state-and-exception
    monad.

    Text is kept as the UTF-8 bytes of the page's characters ([string]):
    attribute values coming from a parsed document are sequences of Unicode
    scalar values, and on those [encodeURIComponent] is the bytewise
    percent-encoding of the UTF-8 form.  (A lone surrogate, which only a
    script can write into an attribute, has no UTF-8 form;
    [encodeURIComponent] throws on it, and such text is outside this
    model.) *)

From Stdlib Require Import ZArith NArith Ascii String DecimalString.
From stdpp Require Import gmap strings list fin_maps.

(** ** Text helpers *)

Module Text.

(** The double quote character, used in the markup of the placeholder. *)
Definition dquote_char : ascii := "034"%char.
Definition dquote : string := String dquote_char EmptyString.

(** The line feed of the multi-line template literal. *)
Definition LF : string := String "010"%char EmptyString.

(** [String(n)] for a non-negative integer below 2^53: its decimal digits. *)
Definition number_to_string (n : N) : string :=
  NilEmpty.string_of_uint (N.to_uint n).

(** [s.startsWith(p)] *)
Fixpoint startsWith (p s : string) : bool :=
  match p, s with
  | EmptyString, _ => true
  | String a p', String b s' => if Ascii.eqb a b then startsWith p' s' else false
  | String _ _, EmptyString => false
  end.

(** [s.substring(1)] *)
Definition substring1 (s : string) : string :=
  match s with
  | EmptyString => EmptyString
  | String _ s' => s'
  end.

(** *** encodeURIComponent *)

Definition in_range (lo hi c : N) : bool := (lo <=? c)%N && (c <=? hi)%N.

(** The characters [encodeURIComponent] leaves alone:
    A-Z a-z 0-9 - _ . ! ~ * ' ( ) *)
Definition uri_unreserved (a : ascii) : bool :=
  let c := N_of_ascii a in
  in_range 65 90 c || in_range 97 122 c || in_range 48 57 c
  || (c =? 45)%N || (c =? 95)%N || (c =? 46)%N || (c =? 33)%N
  || (c =? 126)%N || (c =? 42)%N || (c =? 39)%N || (c =? 40)%N
  || (c =? 41)%N.

Definition hex_digit (d : N) : ascii :=
  if (d <? 10)%N then ascii_of_N (48 + d) else ascii_of_N (55 + d).

Definition percent_escape (a : ascii) : string :=
  let c := N_of_ascii a in
  String "%"%char (String (hex_digit (c / 16)) (String (hex_digit (c mod 16)) EmptyString)).

Fixpoint encodeURIComponent (s : string) : string :=
  match s with
  | EmptyString => EmptyString
  | String a s' =>
      if uri_unreserved a then String a (encodeURIComponent s')
      else percent_escape a +:+ encodeURIComponent s'
  end.

(** *** decodeURIComponent, the reader's side of a data URI *)

Definition hex_value (a : ascii) : option N :=
  let c := N_of_ascii a in
  if in_range 48 57 c then Some (c - 48)%N
  else if in_range 65 70 c then Some (c - 55)%N
  else if in_range 97 102 c then Some (c - 87)%N
  else None.

Fixpoint decodeURIComponent (s : string) : option string :=
  match s with
  | EmptyString => Some EmptyString
  | String a s' =>
      if Ascii.eqb a "%"%char then
        match s' with
        | String h (String l s'') =>
            match hex_value h, hex_value l, decodeURIComponent s'' with
            | Some x, Some y, Some r => Some (String (ascii_of_N (16 * x + y)) r)
            | _, _, _ => None
            end
        | _ => None
        end
      else
        match decodeURIComponent s' with
        | Some r => Some (String a r)
        | None => None
        end
  end.

End Text.

Import Text.

(** ** The DOM as the script sees it *)

(** The closures the script registers with [addEventListener]; each is
    registered for one event type only. *)
Inductive listener :=
  | ImgLoad | ImgError | AnchorClick | CardKeydown | ButtonFocus | ButtonBlur.

Definition listener_type (l : listener) : string :=
  match l with
  | ImgLoad => "load"
  | ImgError => "error"
  | AnchorClick => "click"
  | CardKeydown => "keydown"
  | ButtonFocus => "focus"
  | ButtonBlur => "blur"
  end.

(** An element node.  [attributes] holds the content attributes other than
    [class] and [style], which the script reaches through [classList] and
    [style]; [style] holds the declarations of the inline style, by CSS
    property name.  [parentNode] is the position of the parent in document
    order.  The rest is computed by the host: [complete] and the natural
    sizes; [layout], the width and height at which the host lays the element
    out, which for an image depend on its class list and on its alternative
    text (a broken image is rendered as that text); [focusable], whether the
    host lets the element take the focus once it has a valid tabindex (it is
    being rendered, visible, not inert, not disabled); and the offsets. *)
Record element := mkElement {
  tagName : string;
  parentNode : option nat;
  attributes : gmap string string;
  classList : list string;
  style : gmap string string;
  complete : bool;
  naturalWidth : N;
  naturalHeight : N;
  layout : list string → string → N * N;
  focusable : bool;
  offsetTop : Z;
  offsetHeight : Z;
  listeners : list listener
}.

Definition set_attributes (f : gmap string string → gmap string string) (e : element) : element :=
  mkElement (tagName e) (parentNode e) (f (attributes e)) (classList e) (style e)
    (complete e) (naturalWidth e) (naturalHeight e) (layout e) (focusable e)
    (offsetTop e) (offsetHeight e) (listeners e).

Definition set_classList (f : list string → list string) (e : element) : element :=
  mkElement (tagName e) (parentNode e) (attributes e) (f (classList e)) (style e)
    (complete e) (naturalWidth e) (naturalHeight e) (layout e) (focusable e)
    (offsetTop e) (offsetHeight e) (listeners e).

Definition set_style (f : gmap string string → gmap string string) (e : element) : element :=
  mkElement (tagName e) (parentNode e) (attributes e) (classList e) (f (style e))
    (complete e) (naturalWidth e) (naturalHeight e) (layout e) (focusable e)
    (offsetTop e) (offsetHeight e) (listeners e).

Definition set_listeners (f : list listener → list listener) (e : element) : element :=
  mkElement (tagName e) (parentNode e) (attributes e) (classList e) (style e)
    (complete e) (naturalWidth e) (naturalHeight e) (layout e) (focusable e)
    (offsetTop e) (offsetHeight e) (f (listeners e)).

(** *** DOMTokenList *)

Module ClassList.

Fixpoint contains (c : string) (l : list string) : bool :=
  match l with
  | [] => false
  | x :: l' => if String.eqb x c then true else contains c l'
  end.

Definition add (c : string) (l : list string) : list string :=
  if contains c l then l else l ++ [c].

Fixpoint remove (c : string) (l : list string) : list string :=
  match l with
  | [] => []
  | x :: l' => if String.eqb x c then remove c l' else x :: remove c l'
  end.

End ClassList.

(** *** Attribute and style access *)

(** [el.getAttribute(name)] *)
Definition getAttribute (name : string) (e : element) : option string :=
  attributes e !! name.

(** [el.setAttribute(name, value)] *)
Definition setAttribute (name value : string) (e : element) : element :=
  set_attributes (<[name := value]>) e.

(** A reflecting string property such as [img.alt]: the attribute's value, or
    the empty string when the attribute is absent. *)
Definition reflected (name : string) (e : element) : string :=
  default "" (attributes e !! name).

Definition alt (e : element) : string := reflected "alt" e.
Definition src (e : element) : string := reflected "src" e.

(** [img.width] and [img.height]: what the host lays the image out at, with
    the class list and the alternative text it has when they are read. *)
Definition width (e : element) : N := (layout e (classList e) (alt e)).1.
Definition height (e : element) : N := (layout e (classList e) (alt e)).2.

(** The layout of an image that takes no room, whatever its classes and its
    text: one that is not displayed.  (Only images have [width] and [height];
    the [layout] of another element is never read.) *)
Definition no_size : list string → string → N * N := λ _ _, (0, 0)%N.

(** The value of the declaration of CSS property [prop] in the inline style:
    the empty string when there is none. *)
Definition style_get (prop : string) (e : element) : string :=
  default "" (style e !! prop).

(** Assignment to a longhand property of [el.style], such as
    [el.style.outlineOffset = v] for [outline-offset]: the empty string
    removes the declaration. *)
Definition style_set (prop v : string) (e : element) : element :=
  set_style (if String.eqb v "" then delete prop else <[prop := v]>) e.

(** [el.style.outline = v]: [outline] is a shorthand, its assignment writes
    the three longhands it stands for. *)
Definition style_set_outline (color style width : string) (e : element) : element :=
  style_set "outline-width" width
    (style_set "outline-style" style (style_set "outline-color" color e)).

(** [el.style.outline = '']: removes the three longhands. *)
Definition style_clear_outline (e : element) : element :=
  style_set_outline "" "" "" e.

(** Whether a [tabindex] value parses as an integer: optional white space,
    an optional sign, at least one digit. *)
Fixpoint skip_spaces (s : string) : string :=
  match s with
  | String a s' =>
      if in_range 9 10 (N_of_ascii a) || in_range 12 13 (N_of_ascii a)
         || (N_of_ascii a =? 32)%N
      then skip_spaces s' else s
  | EmptyString => s
  end.

Definition starts_with_digit (s : string) : bool :=
  match s with
  | String a _ => in_range 48 57 (N_of_ascii a)
  | EmptyString => false
  end.

Definition parses_as_integer (s : string) : bool :=
  match skip_spaces s with
  | String a s' =>
      if Ascii.eqb a "-" || Ascii.eqb a "+" then starts_with_digit s'
      else starts_with_digit (String a s')
  | EmptyString => false
  end.

(** An element with a valid [tabindex] that the host lets take the focus.
    (The script calls [focus()] only on an element it has just given a
    [tabindex], so what is focusable without one plays no part.) *)
Definition can_take_focus (e : element) : bool :=
  focusable e &&
  match attributes e !! "tabindex" with
  | Some v => parses_as_integer v
  | None => false
  end.

(** *** Events and the page *)

Record event := mkEvent {
  ev_type : string;
  key : string;
  bubbles : bool;
  cancelable : bool;
  defaultPrevented : bool
}.

(** [new Event(type)]: neither bubbling nor cancelable. *)
Definition new_Event (ty : string) : event := mkEvent ty "" false false false.

(** What a listener or the network can throw. *)
Inductive exn :=
  | TypeError (msg : string)
  | DOMException (name : string).

(** The page: the element store in document order, the calls made to
    [window.scrollTo] (latest first), the focused element, the pending
    [setTimeout] callbacks of the broken-image scan (the image each one
    captured), the synthetic events the script dispatched (latest first) and
    the exceptions that escaped a listener and were reported by the host. *)
Record page := mkPage {
  document : list element;
  scrollCalls : list (Z * string);
  activeElement : option nat;
  timers : list nat;
  dispatched : list (nat * string);
  reported : list exn
}.

Definition set_document (f : list element → list element) (p : page) : page :=
  mkPage (f (document p)) (scrollCalls p) (activeElement p) (timers p)
    (dispatched p) (reported p).

(** Mutation of the element at node [i]; a node that is not in the store is
    never handed to the script. *)
Definition update (i : nat) (f : element → element) (p : page) : page :=
  set_document (alter f i) p.

(** ** Listener bodies run in a state-and-exception monad

    A listener sees the page and the event object it was called with; it may
    mutate both and may throw. *)

Record hstate := mkHstate { hs_page : page; hs_event : event }.

Inductive result (A : Type) :=
  | Ok (a : A)
  | Throw (x : exn).
Arguments Ok {A} a.
Arguments Throw {A} x.

Definition M (A : Type) : Type := hstate → result A * hstate.

Definition ret {A} (a : A) : M A := λ s, (Ok a, s).

Definition bind {A B} (m : M A) (k : A → M B) : M B :=
  λ s, match m s with
       | (Ok a, s') => k a s'
       | (Throw x, s') => (Throw x, s')
       end.

Definition throw {A} (x : exn) : M A := λ s, (Throw x, s).

Definition gets {A} (f : page → A) : M A := λ s, (Ok (f (hs_page s)), s).

Definition modify_page (f : page → page) : M unit :=
  λ s, (Ok tt, mkHstate (f (hs_page s)) (hs_event s)).

Definition modify_event (f : event → event) : M unit :=
  λ s, (Ok tt, mkHstate (hs_page s) (f (hs_event s))).

Definition get_event : M event := λ s, (Ok (hs_event s), s).

#[global] Instance M_ret : MRet M := @ret.
#[global] Instance M_bind : MBind M := λ A B k m, bind m k.

(** *** Host operations used by the listeners *)

(** [e.preventDefault()]: sets the canceled flag of a cancelable event. *)
Definition prevented (ev : event) : event :=
  mkEvent (ev_type ev) (key ev) (bubbles ev) (cancelable ev)
    (if cancelable ev then true else defaultPrevented ev).

Definition preventDefault : M unit := modify_event prevented.

(** Reading a property of [this]. *)
Definition this_get {A} (this : nat) (f : element → A) : M (option A) :=
  gets (λ p, f <$> document p !! this).

(** The first node at or after position [k] satisfying [m]. *)
Fixpoint find_from (m : element → bool) (k : nat) (l : list element) : option nat :=
  match l with
  | [] => None
  | e :: l' => if m e then Some k else find_from m (S k) l'
  end.

Definition has_id (id : string) (e : element) : bool :=
  match attributes e !! "id" with
  | Some v => negb (String.eqb id "") && String.eqb v id
  | None => false
  end.

(** [document.getElementById(id)]: the first element in document order whose
    id is [id], or null. *)
Definition getElementById (id : string) (p : page) : option nat :=
  find_from (has_id id) 0 (document p).

Definition has_class (c : string) (e : element) : bool :=
  ClassList.contains c (classList e).

(** [document.querySelector('.menu')] *)
Definition querySelector_menu (p : page) : option nat :=
  find_from (has_class "menu") 0 (document p).

(** Reading a property of the result of a query: a null result throws. *)
Definition deref {A} (o : option nat) (prop : string) (f : element → A) : M A :=
  match o with
  | None => throw (TypeError prop)
  | Some i =>
      v ← this_get i f;
      match v with
      | Some a => ret a
      | None => throw (TypeError prop)
      end
  end.

(** [window.scrollTo({ top, behavior })] *)
Definition scrollTo (top : Z) (behavior : string) : M unit :=
  modify_page (λ p,
    mkPage (document p) ((top, behavior) :: scrollCalls p) (activeElement p)
      (timers p) (dispatched p) (reported p)).


(** ** The placeholder graphic *)

Module Placeholder.

Definition q (s : string) : string := dquote +:+ s +:+ dquote.

(** [n || d] on numbers *)
Definition or_default (n d : N) : N := if (n =? 0)%N then d else n.

(** The template literal of the error listener, up to the interpolated
    alternative text. *)
Definition svg_head (w h : N) : string :=
  "<svg xmlns=" +:+ q "http://www.w3.org/2000/svg"
  +:+ " width=" +:+ q (number_to_string w)
  +:+ " height=" +:+ q (number_to_string h)
  +:+ " viewBox=" +:+ q "0 0 400 300" +:+ ">" +:+ LF
  +:+ "          <rect width=" +:+ q "100%" +:+ " height=" +:+ q "100%"
  +:+ " fill=" +:+ q "#222" +:+ "/>" +:+ LF
  +:+ "          <text x=" +:+ q "50%" +:+ " y=" +:+ q "50%"
  +:+ " fill=" +:+ q "#ff6b6b" +:+ " font-family=" +:+ q "Arial"
  +:+ " font-size=" +:+ q "16" +:+ " text-anchor=" +:+ q "middle"
  +:+ " dy=" +:+ q ".3em" +:+ ">Imagem não encontrada</text>" +:+ LF
  +:+ "          <text x=" +:+ q "50%" +:+ " y=" +:+ q "60%"
  +:+ " fill=" +:+ q "#ffb3b3" +:+ " font-family=" +:+ q "Arial"
  +:+ " font-size=" +:+ q "12" +:+ " text-anchor=" +:+ q "middle" +:+ ">".

(** The rest of the template literal. *)
Definition svg_tail : string :=
  "</text>" +:+ LF +:+ "        </svg>".

Definition svg (w h : N) (alt : string) : string :=
  svg_head w h +:+ alt +:+ svg_tail.

Definition data_uri_prefix : string := "data:image/svg+xml;charset=utf-8,".

Definition data_uri (w h : N) (alt : string) : string :=
  data_uri_prefix +:+ encodeURIComponent (svg w h alt).

End Placeholder.

(** ** The listeners of the script *)

Definition not_available : string := "Imagem não disponível: ".

(** The load listener of [initializeImageHandling]. *)
Definition imgLoad (this : element) : element :=
  set_classList (ClassList.remove "img-loading") this.

(** The error listener of [initializeImageHandling]. *)
Definition imgError (this : element) : element :=
  let this := set_classList (ClassList.remove "img-loading") this in
  let this := set_classList (ClassList.add "img-missing") this in
  let this := setAttribute "alt" (not_available +:+ alt this) this in
  setAttribute "src"
    (Placeholder.data_uri (Placeholder.or_default (width this) 400)
       (Placeholder.or_default (height this) 300) (alt this))
    this.

(** The focus and blur listeners of [initializeFocusManagement].  The host
    keeps the colour [#e50914] of the shorthand as [rgb(229, 9, 20)]. *)
Definition buttonFocus (this : element) : element :=
  let this := style_set_outline "rgb(229, 9, 20)" "solid" "2px" this in
  style_set "outline-offset" "2px" this.

Definition buttonBlur (this : element) : element :=
  style_clear_outline this.

(** *** [el.focus()]

    The focus and blur events that the host fires while the focus moves reach
    the node they are fired on only (they do not bubble), and the only
    listeners the script has for them are the two above. *)
Definition focus_event_listener (ty : string) : option (element → element) :=
  if String.eqb ty "focus" then Some buttonFocus
  else if String.eqb ty "blur" then Some buttonBlur
  else None.

(** The host fires a focus or blur event on node [i]: the listeners registered
    on it for that type run in turn. *)
Definition fire (ty : string) (i : nat) (p : page) : page :=
  match document p !! i, focus_event_listener ty with
  | Some e, Some f =>
      foldl (λ p l, if String.eqb (listener_type l) ty then update i f p else p)
        p (listeners e)
  | _, _ => p
  end.

Definition set_activeElement (a : option nat) (p : page) : page :=
  mkPage (document p) (scrollCalls p) a (timers p) (dispatched p) (reported p).

(** The focusing steps of the host for node [i].  Nothing happens when the
    node cannot take the focus or has it already; otherwise a blur event is
    fired on the element that had the focus, the node becomes the active
    element, and a focus event is fired on it. *)
Definition focus_steps (i : nat) (p : page) : page :=
  match document p !! i with
  | Some e =>
      if can_take_focus e && negb (bool_decide (activeElement p = Some i)) then
        let p :=
          match activeElement p with
          | Some old => fire "blur" old p
          | None => p
          end in
        fire "focus" i (set_activeElement (Some i) p)
      else p
  | None => p
  end.

Definition focus (i : nat) : M unit := modify_page (focus_steps i).

(** The click listener of [initializeSmoothScroll]. *)
Definition anchorClick (this : nat) : M unit :=
  href ← this_get this (getAttribute "href");
  match href with
  | None => ret tt
  | Some None => throw (TypeError "startsWith")
  | Some (Some href) =>
      if negb (String.eqb href "#") && startsWith "#" href then
        preventDefault;;
        let targetId := substring1 href in
        targetElement ← gets (getElementById targetId);
        match targetElement with
        | Some target =>
            menu ← gets querySelector_menu;
            headerHeight ← deref menu "offsetHeight" offsetHeight;
            top ← deref (Some target) "offsetTop" offsetTop;
            let targetPosition := (top - headerHeight - 20)%Z in
            scrollTo targetPosition "smooth";;
            modify_page (update target (setAttribute "tabindex" "-1"));;
            focus target
        | None => ret tt
        end
      else ret tt
  end.

(** The keydown listener of [initializeFocusManagement]; [click] is the
    element's [click()] method. *)
Definition cardKeydown (click : nat → page → page) (this : nat) : M unit :=
  e ← get_event;
  if String.eqb (key e) "Enter" || String.eqb (key e) " " then
    preventDefault;;
    modify_page (click this)
  else ret tt.

Definition listener_body (click : nat → page → page) (l : listener) (this : nat) : M unit :=
  match l with
  | ImgLoad => modify_page (update this imgLoad)
  | ImgError => modify_page (update this imgError)
  | AnchorClick => anchorClick this
  | CardKeydown => cardKeydown click this
  | ButtonFocus => modify_page (update this buttonFocus)
  | ButtonBlur => modify_page (update this buttonBlur)
  end.

(** ** Event dispatch *)

(** The ancestors of a node, nearest first. *)
Fixpoint ancestors (d : list element) (fuel : nat) (i : nat) : list nat :=
  match fuel with
  | 0 => []
  | S fuel' =>
      match d !! i with
      | Some e =>
          match parentNode e with
          | Some j => j :: ancestors d fuel' j
          | None => []
          end
      | None => []
      end
  end.

(** An exception escaping a listener is reported and the dispatch goes on. *)
Definition report (x : exn) (s : hstate) : hstate :=
  let p := hs_page s in
  mkHstate
    (mkPage (document p) (scrollCalls p) (activeElement p) (timers p)
       (dispatched p) (x :: reported p))
    (hs_event s).

Definition run_listener (m : M unit) (s : hstate) : hstate :=
  match m s with
  | (Ok _, s') => s'
  | (Throw x, s') => report x s'
  end.

(** The listeners registered on node [i] for events of type [ty], in order of
    registration. *)
Definition invoke (body : listener → nat → M unit) (ty : string) (s : hstate) (i : nat) : hstate :=
  match document (hs_page s) !! i with
  | None => s
  | Some e =>
      foldl (λ s l, if String.eqb (listener_type l) ty then run_listener (body l i) s else s)
        s (listeners e)
  end.

Definition event_path (p : page) (ev : event) (i : nat) : list nat :=
  i :: (if bubbles ev then ancestors (document p) (length (document p)) i else []).

Definition dispatch_with (body : listener → nat → M unit) (i : nat) (ev : event) (p : page) : hstate :=
  foldl (invoke body (ev_type ev)) (mkHstate p ev) (event_path p ev i).

(** [el.click()] *)
Definition click_event : event := mkEvent "click" "" true true false.

Definition click (i : nat) (p : page) : page :=
  hs_page (dispatch_with (listener_body (λ _ p, p)) i click_event p).

(** Dispatch of an event by the host. *)
Definition dispatch (i : nat) (ev : event) (p : page) : hstate :=
  dispatch_with (listener_body click) i ev p.

(** [el.dispatchEvent(ev)] called by the script. *)
Definition dispatchEvent (i : nat) (ev : event) (p : page) : page :=
  let p := mkPage (document p) (scrollCalls p) (activeElement p) (timers p)
             ((i, ev_type ev) :: dispatched p) (reported p) in
  hs_page (dispatch i ev p).

(** ** The functions of the script *)

(** [document.querySelectorAll(sel)]: the nodes matching [sel], in document
    order, as a static list. *)
Fixpoint select_from (m : nat → element → bool) (k : nat) (l : list element) : list nat :=
  match l with
  | [] => []
  | e :: l' => if m k e then k :: select_from m (S k) l' else select_from m (S k) l'
  end.

Definition querySelectorAll (m : list element → nat → element → bool) (p : page) : list nat :=
  select_from (m (document p)) 0 (document p).

Definition attr_is (name value : string) (e : element) : bool :=
  match attributes e !! name with
  | Some v => String.eqb v value
  | None => false
  end.

(** [img[loading="lazy"]] *)
Definition sel_lazy_img (d : list element) (i : nat) (e : element) : bool :=
  String.eqb (tagName e) "img" && attr_is "loading" "lazy" e.

(** [img] *)
Definition sel_img (d : list element) (i : nat) (e : element) : bool :=
  String.eqb (tagName e) "img".

(** [a[href^="#"]] *)
Definition sel_fragment_link (d : list element) (i : nat) (e : element) : bool :=
  String.eqb (tagName e) "a" &&
  match attributes e !! "href" with
  | Some v => startsWith "#" v
  | None => false
  end.

(** [.card-mini] *)
Definition sel_card (d : list element) (i : nat) (e : element) : bool :=
  has_class "card-mini" e.

Definition node_has_class (d : list element) (c : string) (j : nat) : bool :=
  match d !! j with
  | Some e => has_class c e
  | None => false
  end.

(** [.botao, .menu a] *)
Definition sel_button (d : list element) (i : nat) (e : element) : bool :=
  has_class "botao" e ||
  (String.eqb (tagName e) "a" &&
   existsb (node_has_class d "menu") (ancestors d (length d) i)).

(** [el.addEventListener(type, function () { ... })] with a fresh closure. *)
Definition addEventListener (l : listener) (e : element) : element :=
  set_listeners (λ ls, ls ++ [l]) e.

Definition setTimeout (i : nat) (p : page) : page :=
  mkPage (document p) (scrollCalls p) (activeElement p) (timers p ++ [i])
    (dispatched p) (reported p).

Definition zero_sized (img : element) : bool :=
  (naturalWidth img =? 0)%N || (naturalHeight img =? 0)%N.

(** One turn of the loop of [checkForBrokenImages]. *)
Definition check_image (p : page) (img : nat) : page :=
  match document p !! img with
  | None => p
  | Some e =>
      if has_class "img-missing" e then p
      else if complete e && zero_sized e then dispatchEvent img (new_Event "error") p
      else if negb (complete e) then setTimeout img p
      else p
  end.

Definition checkForBrokenImages (p : page) : page :=
  foldl check_image p (querySelectorAll sel_img p).

(** The callback handed to [setTimeout] by [checkForBrokenImages]. *)
Definition recheck_image (img : nat) (p : page) : page :=
  match document p !! img with
  | None => p
  | Some e => if zero_sized e then dispatchEvent img (new_Event "error") p else p
  end.

(** The host runs the [k]-th pending timer. *)
Definition fire_timer (k : nat) (p : page) : page :=
  match timers p !! k with
  | None => p
  | Some img =>
      recheck_image img
        (mkPage (document p) (scrollCalls p) (activeElement p)
           (take k (timers p) ++ drop (S k) (timers p)) (dispatched p) (reported p))
  end.

(** The body of the [forEach] of [initializeImageHandling]. *)
Definition init_element (img : element) : element :=
  let img :=
    if negb (complete img) then set_classList (ClassList.add "img-loading") img
    else img in
  let img := addEventListener ImgLoad img in
  addEventListener ImgError img.

Definition init_image (p : page) (img : nat) : page :=
  update img init_element p.

Definition initializeImageHandling (p : page) : page :=
  let p := foldl init_image p (querySelectorAll sel_lazy_img p) in
  checkForBrokenImages p.

Definition initializeSmoothScroll (p : page) : page :=
  foldl (λ p link, update link (addEventListener AnchorClick) p) p
    (querySelectorAll sel_fragment_link p).

(** The bodies of the two [forEach] of [initializeFocusManagement]. *)
Definition init_card_element (card : element) : element :=
  addEventListener CardKeydown (setAttribute "tabindex" "0" card).

Definition init_card (p : page) (card : nat) : page :=
  update card init_card_element p.

Definition init_button_element (button : element) : element :=
  addEventListener ButtonBlur (addEventListener ButtonFocus button).

Definition init_button (p : page) (button : nat) : page :=
  update button init_button_element p.

Definition initializeFocusManagement (p : page) : page :=
  let p := foldl init_card p (querySelectorAll sel_card p) in
  foldl init_button p (querySelectorAll sel_button p).

(** The [DOMContentLoaded] listener. *)
Definition onDOMContentLoaded (p : page) : page :=
  initializeFocusManagement (initializeSmoothScroll (initializeImageHandling p)).

(** ** checkImageExists *)

Record response := mkResponse { status : N }.

(** [response.ok]: the status is in the range 200-299. *)
Definition ok (r : response) : bool := in_range 200 299 (status r).

(** How an awaited promise settles, if it does. *)
Inductive settled (A : Type) :=
  | Fulfilled (a : A)
  | Rejected (x : exn)
  | Pending.
Arguments Fulfilled {A} a.
Arguments Rejected {A} x.
Arguments Pending {A}.

Section CheckImageExists.

(** The network: what [fetch(url, { method })] settles to. *)
Variable fetch : string → string → settled response.

Definition checkImageExists (url : string) : settled bool :=
  match fetch url "HEAD" with
  | Fulfilled response => Fulfilled (ok response)
  | Rejected error => Fulfilled false
  | Pending => Pending
  end.

End CheckImageExists.

(** ** Auxiliary notions for the statements *)

(** How many times listener [l0] is registered in [ls]. *)
Fixpoint registered (l0 : listener) (ls : list listener) : nat :=
  match ls with
  | [] => 0
  | l :: ls' =>
      (if String.eqb (listener_type l) (listener_type l0) then 1 else 0)
      + registered l0 ls'
  end.


(** The listeners that touch nothing but their own element, as functions on
    that element. *)
Definition element_listener (l : listener) : option (element → element) :=
  match l with
  | ImgLoad => Some imgLoad
  | ImgError => Some imgError
  | ButtonFocus => Some buttonFocus
  | ButtonBlur => Some buttonBlur
  | AnchorClick | CardKeydown => None
  end.

(** ** Sample pages *)

Module Samples.

Definition page_of (d : list element) : page := mkPage d [] None [] [] [].

(** [<img src="poster.jpg" alt="Poster">] whose load has failed. *)
Definition poster_plain : element :=
  mkElement "img" None (<["alt" := "Poster"]> (<["src" := "poster.jpg"]> ∅))
    [] ∅ true 0 0 no_size true 0 0 [].

(** [<img loading="lazy" src="poster.jpg" alt="Poster">] whose load has
    failed, before the script has run. *)
Definition poster_lazy : element :=
  mkElement "img" None
    (<["loading" := "lazy"]> (<["alt" := "Poster"]> (<["src" := "poster.jpg"]> ∅)))
    [] ∅ true 0 0 no_size true 0 0 [].

(** The same image with the listeners of [initializeImageHandling]. *)
Definition poster_lazy_listening : element :=
  addEventListener ImgError (addEventListener ImgLoad poster_lazy).

(** The same image after its error listener has run. *)
Definition poster_missing : element := imgError poster_lazy_listening.

End Samples.

(** ** The page over time *)

(** What the host alone may change on an element: the loading state, the
    sizes, the layout, whether it can take the focus, and the offsets.  Tag,
    parent, attributes, classes, inline style and listeners change only
    through the script. *)
Definition same_authored (e e' : element) : Prop :=
  tagName e' = tagName e ∧ parentNode e' = parentNode e ∧
  attributes e' = attributes e ∧ classList e' = classList e ∧
  style e' = style e ∧ listeners e' = listeners e.

Definition host_change (p p' : page) : Prop :=
  Forall2 same_authored (document p) (document p') ∧
  scrollCalls p' = scrollCalls p ∧ timers p' = timers p ∧
  dispatched p' = dispatched p ∧ reported p' = reported p.

(** One thing happening to the page: the host dispatches an event (a load, an
    error, a click, a key press, a focus change) on a node, runs a pending
    timer or updates what it computes, or a function of the script is
    called. *)
Inductive step : page → page → Prop :=
  | step_dispatch i ev p : step p (hs_page (dispatch i ev p))
  | step_timer k p : step p (fire_timer k p)
  | step_host p p' : host_change p p' → step p p'
  | step_initializeImageHandling p : step p (initializeImageHandling p)
  | step_checkForBrokenImages p : step p (checkForBrokenImages p)
  | step_initializeSmoothScroll p : step p (initializeSmoothScroll p)
  | step_initializeFocusManagement p : step p (initializeFocusManagement p).

(** [img-missing] is not lost between two pages: every node carrying the
    class in the first is still there and still carries it in the second. *)
Definition keeps_missing (p p' : page) : Prop :=
  ∀ i e, document p !! i = Some e → has_class "img-missing" e = true →
    ∃ e', document p' !! i = Some e' ∧ has_class "img-missing" e' = true.

(** A mutation of an element that does not take [img-missing] away. *)
Definition keeps_class (f : element → element) : Prop :=
  ∀ e, has_class "img-missing" e = true → has_class "img-missing" (f e) = true.

(** A listener body, however it ends, does not take [img-missing] away. *)
Definition body_keeps_missing {A} (m : M A) : Prop :=
  ∀ s, keeps_missing (hs_page s) (hs_page (m s).2).

(** A page for the click listener: a menu, a link to [#top10], its target and
    a link to a fragment that is not in the page. *)
Module ScrollSamples.

Definition menu : element :=
  mkElement "nav" None ∅ ["menu"] ∅ true 0 0 no_size true 0 64 [].

Definition link (parent : option nat) (href : string) : element :=
  mkElement "a" parent (<["href" := href]> ∅) [] ∅ true 0 0 no_size
    true 0 0 [AnchorClick].

Definition section : element :=
  mkElement "section" None (<["id" := "top10"]> ∅) [] ∅ true 0 0 no_size
    true 900 400 [].

Definition with_menu : page :=
  Samples.page_of [menu; link (Some 0) "#top10"; link (Some 0) "#nowhere"; section].

(** The same page without the menu. *)
Definition without_menu : page :=
  Samples.page_of [link None "#top10"; section].

(** [<section id="top10" hidden>]: the section is not rendered, so it has no
    offsets and the host does not let it take the focus. *)
Definition hidden_section : element :=
  mkElement "section" None (<["hidden" := ""]> (<["id" := "top10"]> ∅)) [] ∅
    true 0 0 no_size false 0 0 [].

(** The page with the hidden section as the target of the link; the link has
    the focus. *)
Definition with_hidden_target : page :=
  mkPage [menu; link (Some 0) "#top10"; hidden_section] [] (Some 1) [] [] [].

(** A link of the menu with the listeners of [initializeSmoothScroll] and
    [initializeFocusManagement], showing the focus ring. *)
Definition focused_link : element :=
  buttonFocus
    (mkElement "a" (Some 0) (<["href" := "#top10"]> ∅) [] ∅ true 0 0
       no_size true 0 0 [AnchorClick; ButtonFocus; ButtonBlur]).

(** The page with that link, which has the focus. *)
Definition with_focused_link : page :=
  mkPage [menu; focused_link; section] [] (Some 1) [] [] [].

End ScrollSamples.

(** A page for the focus ring: a button that carries an inline outline
    colour of its own, and a link in the menu. *)
Module FocusSamples.

Definition botao : element :=
  mkElement "a" None (<["href" := "#top10"]> ∅) ["botao"]
    (<["outline-color" := "blue"]> ∅) true 0 0 no_size true 0 0 [].

Definition menu_link : element :=
  mkElement "a" (Some 1) (<["href" := "#top10"]> ∅) [] ∅ true 0 0 no_size
    true 0 0 [].

Definition buttons : page :=
  Samples.page_of [botao; ScrollSamples.menu; menu_link].

End FocusSamples.

(** ** Sample network *)

Definition sample_fetch (url method : string) : settled response :=
  if String.eqb url "poster.jpg" then Fulfilled (mkResponse 200)
  else if String.eqb url "gone.jpg" then Fulfilled (mkResponse 404)
  else if String.eqb url "slow.jpg" then Pending
  else Rejected (TypeError "Failed to fetch").

(** ** Well-formed markup

    A recogniser for the part of XML the placeholder is written in: elements
    with attributes, character data and references.  The text must be UTF-8
    for characters that XML allows; the structure is then read one byte at a
    time, keeping the names of the open elements.  Comments, processing
    instructions, CDATA sections, document type declarations and names
    outside ASCII are not part of that fragment and are refused. *)

Module Utf8.

(** The decoder between two bytes: at a character boundary, or inside a
    sequence with [more] continuation bytes to come, the bits read so far and
    the least code point a sequence of that length may encode. *)
Inductive state :=
  | Boundary
  | Inside (more : nat) (bits : N) (least : N).

(** A code point is complete: it must need that many bytes, be at most
    U+10FFFF, be no surrogate, and satisfy [P]. *)
Definition complete (P : N → bool) (least c : N) : bool :=
  (least <=? c)%N && (c <=? 1114111)%N && negb (in_range 55296 57343 c) && P c.

Definition step (P : N → bool) (st : state) (a : ascii) : option state :=
  let b := N_of_ascii a in
  match st with
  | Boundary =>
      if (b <? 128)%N then (if P b then Some Boundary else None)
      else if in_range 194 223 b then Some (Inside 0 (b - 192) 128)
      else if in_range 224 239 b then Some (Inside 1 (b - 224) 2048)
      else if in_range 240 244 b then Some (Inside 2 (b - 240) 65536)
      else None
  | Inside more bits least =>
      if in_range 128 191 b then
        let bits := (bits * 64 + (b - 128))%N in
        match more with
        | 0 => if complete P least bits then Some Boundary else None
        | S more' => Some (Inside more' bits least)
        end
      else None
  end.

Fixpoint run (P : N → bool) (st : state) (s : string) : option state :=
  match s with
  | EmptyString => Some st
  | String a s' =>
      match step P st a with
      | Some st' => run P st' s'
      | None => None
      end
  end.

(** [s] is UTF-8 and every code point of it satisfies [P]. *)
Definition all_code_points (P : N → bool) (s : string) : bool :=
  match run P Boundary s with
  | Some Boundary => true
  | _ => false
  end.

End Utf8.

Module Xml.

Definition code (a : ascii) : N := N_of_ascii a.

(** The characters of XML 1.0, by code point: tab, line feed, carriage
    return, and everything from U+0020 on but the surrogates, U+FFFE and
    U+FFFF. *)
Definition is_xml_char (c : N) : bool :=
  (c =? 9)%N || (c =? 10)%N || (c =? 13)%N
  || in_range 32 55295 c || in_range 57344 65533 c || in_range 65536 1114111 c.

Definition is_space (a : ascii) : bool :=
  (code a =? 32)%N || (code a =? 9)%N || (code a =? 10)%N || (code a =? 13)%N.

(** Bytes allowed in character data and attribute values: no control
    character but tab, line feed and carriage return.  (Which characters the
    bytes stand for is checked apart, by code point.) *)
Definition is_char (a : ascii) : bool :=
  (32 <=? code a)%N || (code a =? 9)%N || (code a =? 10)%N || (code a =? 13)%N.

Definition is_digit (a : ascii) : bool := in_range 48 57 (code a).

Definition is_name_start (a : ascii) : bool :=
  in_range 65 90 (code a) || in_range 97 122 (code a)
  || (code a =? 95)%N || (code a =? 58)%N.

Definition is_name_char (a : ascii) : bool :=
  is_name_start a || is_digit a || (code a =? 45)%N || (code a =? 46)%N.

Fixpoint all_chars (f : ascii → bool) (s : string) : bool :=
  match s with
  | EmptyString => true
  | String a s' => f a && all_chars f s'
  end.

(** The number written by the digits [s] in base [base], after [acc]. *)
Fixpoint number (base acc : N) (s : string) : option N :=
  match s with
  | EmptyString => Some acc
  | String a s' =>
      match hex_value a with
      | Some d => if (d <? base)%N then number base (acc * base + d) s' else None
      | None => None
      end
  end.

Definition refers_to_char (base : N) (digits : string) : bool :=
  match number base 0 digits with
  | Some c => is_xml_char c
  | None => false
  end.

(** The body of a reference, between [&] and [;]: one of the five predefined
    names, or the number of a character of XML. *)
Definition valid_reference (r : string) : bool :=
  match r with
  | String "#" (String "x" (String a h)) => refers_to_char 16 (String a h)
  | String "#" (String a d) => refers_to_char 10 (String a d)
  | _ =>
      String.eqb r "amp" || String.eqb r "lt" || String.eqb r "gt"
      || String.eqb r "apos" || String.eqb r "quot"
  end.

Definition snoc (s : string) (a : ascii) : string := s +:+ String a EmptyString.

Inductive mode :=
  | Content (brackets : nat)
  | TagOpen
  | StartName (name : string)
  | InTag (name : string)
  | AfterValue (name : string)
  | AttrName (name : string)
  | AttrEq (name : string)
  | AttrValue (name : string) (quote : ascii)
  | AttrRef (name : string) (quote : ascii) (ref : string)
  | EmptyTag (name : string)
  | EndName (name : string)
  | EndSpace (name : string)
  | Ref (ref : string).

(** [open]: the elements that are open, innermost first; [rooted]: the root
    element has been closed. *)
Record state := mkState { open : list string; rooted : bool; at_ : mode }.

Definition initial : state := mkState [] false (Content 0).

(** A start tag is complete. *)
Definition push (name : string) (st : state) : option state :=
  Some (mkState (name :: open st) (rooted st) (Content 0)).

(** An end tag is complete: it must close the innermost open element. *)
Definition pop (name : string) (st : state) : option state :=
  match open st with
  | top :: rest =>
      if String.eqb top name
      then Some (mkState rest (match rest with [] => true | _ => false end) (Content 0))
      else None
  | [] => None
  end.

(** An empty-element tag is complete. *)
Definition empty_element (st : state) : option state :=
  Some (mkState (open st) (match open st with [] => true | _ => rooted st end) (Content 0)).

Definition goto (m : mode) (st : state) : option state :=
  Some (mkState (open st) (rooted st) m).

Definition step (st : state) (a : ascii) : option state :=
  match at_ st with
  | Content brackets =>
      if Ascii.eqb a "<" then
        match open st, rooted st with
        | [], true => None
        | _, _ => goto TagOpen st
        end
      else match open st with
      | [] => if is_space a then goto (Content 0) st else None
      | _ :: _ =>
          if Ascii.eqb a "&" then goto (Ref "") st
          else if negb (is_char a) then None
          else if Ascii.eqb a "]" then goto (Content (S brackets)) st
          else if Ascii.eqb a ">" then
            (if (2 <=? brackets)%nat then None else goto (Content 0) st)
          else goto (Content 0) st
      end
  | TagOpen =>
      if Ascii.eqb a "/" then
        match open st with
        | [] => None
        | _ :: _ => goto (EndName "") st
        end
      else if is_name_start a then goto (StartName (String a EmptyString)) st
      else None
  | StartName name =>
      if is_name_char a then goto (StartName (snoc name a)) st
      else if is_space a then goto (InTag name) st
      else if Ascii.eqb a ">" then push name st
      else if Ascii.eqb a "/" then goto (EmptyTag name) st
      else None
  | InTag name =>
      if is_space a then goto (InTag name) st
      else if Ascii.eqb a ">" then push name st
      else if Ascii.eqb a "/" then goto (EmptyTag name) st
      else if is_name_start a then goto (AttrName name) st
      else None
  | AfterValue name =>
      if is_space a then goto (InTag name) st
      else if Ascii.eqb a ">" then push name st
      else if Ascii.eqb a "/" then goto (EmptyTag name) st
      else None
  | AttrName name =>
      if is_name_char a then goto (AttrName name) st
      else if Ascii.eqb a "=" then goto (AttrEq name) st
      else None
  | AttrEq name =>
      if Ascii.eqb a dquote_char || Ascii.eqb a "'" then goto (AttrValue name a) st
      else None
  | AttrValue name quote =>
      if Ascii.eqb a quote then goto (AfterValue name) st
      else if Ascii.eqb a "<" then None
      else if Ascii.eqb a "&" then goto (AttrRef name quote "") st
      else if is_char a then goto (AttrValue name quote) st
      else None
  | AttrRef name quote ref =>
      if Ascii.eqb a ";" then
        (if valid_reference ref then goto (AttrValue name quote) st else None)
      else if is_name_char a || Ascii.eqb a "#" then goto (AttrRef name quote (snoc ref a)) st
      else None
  | EmptyTag name =>
      if Ascii.eqb a ">" then empty_element st else None
  | EndName name =>
      if is_name_char a then
        match name with
        | EmptyString =>
            if is_name_start a then goto (EndName (String a EmptyString)) st else None
        | _ => goto (EndName (snoc name a)) st
        end
      else if is_space a then goto (EndSpace name) st
      else if Ascii.eqb a ">" then pop name st
      else None
  | EndSpace name =>
      if is_space a then goto (EndSpace name) st
      else if Ascii.eqb a ">" then pop name st
      else None
  | Ref ref =>
      if Ascii.eqb a ";" then
        (if valid_reference ref then goto (Content 0) st else None)
      else if is_name_char a || Ascii.eqb a "#" then goto (Ref (snoc ref a)) st
      else None
  end.

Fixpoint run (st : state) (s : string) : option state :=
  match s with
  | EmptyString => Some st
  | String a s' =>
      match step st a with
      | Some st' => run st' s'
      | None => None
      end
  end.

(** The document is one element, all of whose elements are closed. *)
Definition accepting (st : state) : bool :=
  match at_ st, open st with
  | Content _, [] => rooted st
  | _, _ => false
  end.

Definition well_structured (s : string) : bool :=
  match run initial s with
  | Some st => accepting st
  | None => false
  end.

Definition well_formed (s : string) : bool :=
  Utf8.all_code_points is_xml_char s && well_structured s.

End Xml.

(** The payload of a [data:image/svg+xml;charset=utf-8,] URI as the image
    loader reads it. *)
Fixpoint strip_prefix (p s : string) : option string :=
  match p, s with
  | EmptyString, _ => Some s
  | String a p', String b s' => if Ascii.eqb a b then strip_prefix p' s' else None
  | String _ _, EmptyString => None
  end.

Definition data_uri_markup (uri : string) : option string :=
  match strip_prefix Placeholder.data_uri_prefix uri with
  | Some payload => decodeURIComponent payload
  | None => None
  end.

(** [<img loading="lazy" src="f9.jpg" alt="Fast & Furious 9">] whose load has
    failed, with the listeners of [initializeImageHandling]. *)
Definition poster_ampersand : element :=
  addEventListener ImgError (addEventListener ImgLoad
    (mkElement "img" None
       (<["loading" := "lazy"]> (<["alt" := "Fast & Furious 9"]> (<["src" := "f9.jpg"]> ∅)))
       [] ∅ true 0 0 no_size true 0 0 [])).

(** Character data that needs no escaping, byte by byte: no markup delimiter
    and no control character. *)
Definition plain_text_char (a : ascii) : bool :=
  Xml.is_char a && negb (Ascii.eqb a "<") && negb (Ascii.eqb a "&")
  && negb (Ascii.eqb a ">").

(** A character of XML that is no markup delimiter. *)
Definition plain_code_point (c : N) : bool :=
  Xml.is_xml_char c && negb (c =? 60)%N && negb (c =? 38)%N && negb (c =? 62)%N.

(** Text that needs no escaping: UTF-8 for characters of XML other than
    [<], [&] and [>]. *)
Definition plain_text (s : string) : bool :=
  Utf8.all_code_points plain_code_point s.

(** ** What the script leaves alone

    Relations between an element before and after, used to say what no
    function or listener of the script ever changes. *)

(** The place of the element in the tree and every attribute but the five
    the script writes are the same: [alt], [src] and [tabindex], which it sets
    by name, and [class] and [style], which it rewrites through [classList]
    and [style]. *)
Definition same_markup (e e' : element) : Prop :=
  tagName e' = tagName e ∧ parentNode e' = parentNode e ∧
  ∀ name, name ≠ "alt" → name ≠ "src" → name ≠ "tabindex" →
    name ≠ "class" → name ≠ "style" →
    attributes e' !! name = attributes e !! name.

(** Listeners are only ever added, at the end. *)
Definition listeners_grow (e e' : element) : Prop :=
  listeners e `prefix_of` listeners e'.

(** Every class but the two state classes, and every inline style property
    but the four of the focus ring (the three that [style.outline] stands
    for, and [outline-offset]), are the same. *)
Definition same_presentation (e e' : element) : Prop :=
  (∀ c, c ≠ "img-loading" → c ≠ "img-missing" →
     has_class c e' = has_class c e) ∧
  (∀ prop,
     prop ≠ "outline-color" → prop ≠ "outline-style" → prop ≠ "outline-width" →
     prop ≠ "outline-offset" →
     style_get prop e' = style_get prop e).

(** The three together. *)
Definition script_frame (e e' : element) : Prop :=
  same_markup e e' ∧ listeners_grow e e' ∧ same_presentation e e'.

(** [n] copies of the not-available marker. *)
Fixpoint markers (n : nat) : string :=
  match n with
  | 0 => ""
  | S n' => not_available +:+ markers n'
  end.

(** Two pages whose documents are related element by element by [R]. *)
Definition framed (R : element → element → Prop) (p p' : page) : Prop :=
  Forall2 R (document p) (document p').

(** A listener body that, however it ends, relates the page before to the
    page after. *)
Definition body_framed (R : element → element → Prop) {A} (m : M A) : Prop :=
  ∀ s, framed R (hs_page s) (hs_page (m s).2).

(** ** The cases of the broken-image scan *)

(** The image gets the synthetic error event: not marked, complete, without
    natural size. *)
Definition is_broken (img : element) : bool :=
  negb (has_class "img-missing" img) && (complete img && zero_sized img).

(** The image gets a re-check timer: not marked, not complete. *)
Definition is_pending (img : element) : bool :=
  negb (has_class "img-missing" img) && negb (complete img).

(** [P] holds of node [j] of document [d]. *)
Definition node_is (P : element → bool) (d : list element) (j : nat) : bool :=
  match d !! j with
  | Some e => P e
  | None => false
  end.

(** What the scan does to an element it visits. *)
Definition scanned (e : element) : element :=
  if is_broken e then Nat.iter (registered ImgError (listeners e)) imgError e else e.

(** Pages with a pending re-check timer for their only image. *)
Module TimerSamples.

(** The poster has loaded by the time the timer fires. *)
Definition loaded_poster : element :=
  mkElement "img" None
    (<["loading" := "lazy"]> (<["alt" := "Poster"]> (<["src" := "poster.jpg"]> ∅)))
    [] ∅ true 300 450 (λ _ _, (300, 450)%N) true 0 0 [ImgLoad; ImgError].

Definition loaded : page := mkPage [loaded_poster] [] None [0] [] [].

(** The poster has failed and is already marked when the timer fires. *)
Definition failed : page := mkPage [Samples.poster_missing] [] None [0] [] [].

(** The poster is still loading when the script starts. *)
Definition loading_poster : element :=
  mkElement "img" None
    (<["loading" := "lazy"]> (<["alt" := "Poster"]> (<["src" := "poster.jpg"]> ∅)))
    ["capa"] ∅ false 0 0 no_size true 0 0 [].

End TimerSamples.

(** What [initializeImageHandling] does to an element before its scan. *)
Definition registered_image (d : list element) (i : nat) (e : element) : element :=
  if sel_lazy_img d i e then init_element e else e.

(** The characters a data URI written by the error listener is made of: the
    ones [encodeURIComponent] leaves alone, the percent sign of its escapes
    and the punctuation of the fixed prefix. *)
Definition data_uri_char (a : ascii) : bool :=
  uri_unreserved a
  || existsb (Ascii.eqb a) ["%"; ":"; "/"; "+"; ";"; "="; ","]%char.

(** Characters that would end or break a URL inside markup or a style sheet:
    white space, quotes, angle brackets, the fragment sign, the ampersand, and
    bytes that are not ASCII. *)
Definition url_breaking_char (a : ascii) : bool :=
  (N_of_ascii a <=? 32)%N || (127 <=? N_of_ascii a)%N
  || existsb (Ascii.eqb a) [dquote_char; "<"; ">"; "#"; "&"; "`"]%char.

(** A thumbnail whose load has failed: the host shows its alternative text
    instead, in a box 22 high that is as wide as the text needs. *)
Module LayoutSamples.

Definition text_box (classes : list string) (text : string) : N * N :=
  (8 * N.of_nat (String.length text) + 16, 22)%N.

(** [<img loading="lazy" src="thumb.jpg" alt="Poster">] *)
Definition thumb : element :=
  mkElement "img" None
    (<["loading" := "lazy"]> (<["alt" := "Poster"]> (<["src" := "thumb.jpg"]> ∅)))
    [] ∅ true 0 0 text_box true 0 0 [ImgLoad; ImgError].

End LayoutSamples.

(** What [initializeFocusManagement] does to an element. *)
Definition managed (d : list element) (i : nat) (e : element) : element :=
  let e1 := if sel_card d i e then init_card_element e else e in
  if sel_button d i e then init_button_element e1 else e1.

(** A card that is also the target of a fragment link. *)
Module CardSamples.

Definition card : element :=
  mkElement "article" None (<["id" := "filme1"]> ∅) ["card-mini"] ∅
    true 0 0 no_size true 700 200 [].

Definition start : page :=
  Samples.page_of [ScrollSamples.menu; ScrollSamples.link (Some 0) "#filme1"; card;
                   ScrollSamples.link (Some 0) "#"].

End CardSamples.
(** * Properties *)

(** ** Class lists *)

Section ClassListFacts.

Import ClassList.

Lemma contains_app c l1 l2 :
  contains c (l1 ++ l2) = contains c l1 || contains c l2.
Proof.
  induction l1 as [|x l1 IH]; simpl; [done|].
  destruct (String.eqb x c); [done|apply IH].
Qed.

Lemma contains_add_same c l : contains c (add c l) = true.
Proof.
  unfold add. destruct (contains c l) eqn:E; [done|].
  rewrite contains_app, E. simpl. by rewrite String.eqb_refl.
Qed.

Lemma contains_add_ne c d l : c ≠ d → contains c (add d l) = contains c l.
Proof.
  intros Hne. unfold add. destruct (contains d l); [done|].
  rewrite contains_app. simpl.
  destruct (String.eqb_spec d c) as [->|_]; [done|].
  by rewrite orb_false_r.
Qed.

Lemma contains_add_mono c d l : contains c l = true → contains c (add d l) = true.
Proof.
  intros H. unfold add. destruct (contains d l); [done|].
  by rewrite contains_app, H.
Qed.

Lemma contains_remove_same c l : contains c (remove c l) = false.
Proof.
  induction l as [|x l IH]; simpl; [done|].
  destruct (String.eqb x c) eqn:E; [done|]. simpl. by rewrite E.
Qed.

Lemma contains_remove_ne c d l : c ≠ d → contains c (remove d l) = contains c l.
Proof.
  intros Hne. induction l as [|x l IH]; simpl; [done|].
  destruct (String.eqb_spec x d) as [->|Hxd].
  - destruct (String.eqb_spec d c) as [->|_]; done.
  - simpl. by rewrite IH.
Qed.

End ClassListFacts.

(** ** Text *)

Lemma append_cons a s1 s2 : String a s1 +:+ s2 = String a (s1 +:+ s2).
Proof. reflexivity. Qed.

Lemma append_empty s : "" +:+ s = s.
Proof. reflexivity. Qed.

Lemma append_assoc s1 s2 s3 : (s1 +:+ s2) +:+ s3 = s1 +:+ (s2 +:+ s3).
Proof.
  induction s1 as [|a s1 IH]; [done|]. by rewrite !append_cons, IH.
Qed.

Lemma encodeURIComponent_app s t :
  encodeURIComponent (s +:+ t) = encodeURIComponent s +:+ encodeURIComponent t.
Proof.
  induction s as [|a s IH]; [reflexivity|].
  rewrite append_cons. cbn [encodeURIComponent]. rewrite IH.
  destruct (uri_unreserved a); [reflexivity|]. by rewrite append_assoc.
Qed.

(** The template literal of the error listener, written out. *)
Lemma svg_template (w h : N) (alt : string) :
  Placeholder.svg w h alt =
    "<svg xmlns=" +:+ dquote +:+ "http://www.w3.org/2000/svg" +:+ dquote
    +:+ " width=" +:+ dquote +:+ number_to_string w +:+ dquote
    +:+ " height=" +:+ dquote +:+ number_to_string h +:+ dquote
    +:+ " viewBox=" +:+ dquote +:+ "0 0 400 300" +:+ dquote +:+ ">" +:+ LF
    +:+ "          <rect width=" +:+ dquote +:+ "100%" +:+ dquote
    +:+ " height=" +:+ dquote +:+ "100%" +:+ dquote
    +:+ " fill=" +:+ dquote +:+ "#222" +:+ dquote +:+ "/>" +:+ LF
    +:+ "          <text x=" +:+ dquote +:+ "50%" +:+ dquote
    +:+ " y=" +:+ dquote +:+ "50%" +:+ dquote
    +:+ " fill=" +:+ dquote +:+ "#ff6b6b" +:+ dquote
    +:+ " font-family=" +:+ dquote +:+ "Arial" +:+ dquote
    +:+ " font-size=" +:+ dquote +:+ "16" +:+ dquote
    +:+ " text-anchor=" +:+ dquote +:+ "middle" +:+ dquote
    +:+ " dy=" +:+ dquote +:+ ".3em" +:+ dquote
    +:+ ">Imagem não encontrada</text>" +:+ LF
    +:+ "          <text x=" +:+ dquote +:+ "50%" +:+ dquote
    +:+ " y=" +:+ dquote +:+ "60%" +:+ dquote
    +:+ " fill=" +:+ dquote +:+ "#ffb3b3" +:+ dquote
    +:+ " font-family=" +:+ dquote +:+ "Arial" +:+ dquote
    +:+ " font-size=" +:+ dquote +:+ "12" +:+ dquote
    +:+ " text-anchor=" +:+ dquote +:+ "middle" +:+ dquote +:+ ">"
    +:+ alt +:+ "</text>" +:+ LF +:+ "        </svg>".
Proof.
  unfold Placeholder.svg, Placeholder.svg_head, Placeholder.svg_tail, Placeholder.q.
  generalize (number_to_string w) (number_to_string h). intros sw sh.
  rewrite !append_assoc. reflexivity.
Qed.

(** The start of the placeholder as it is written into [src]. *)
Lemma data_uri_start (w h : N) (alt : string) :
  startsWith
    "data:image/svg+xml;charset=utf-8,%3Csvg%20xmlns%3D%22http%3A%2F%2Fwww.w3.org%2F2000%2Fsvg%22%20width%3D%22"
    (Placeholder.data_uri w h alt) = true.
Proof.
  unfold Placeholder.data_uri, Placeholder.data_uri_prefix.
  rewrite svg_template.
  repeat (rewrite (encodeURIComponent_app dquote)
          || rewrite (encodeURIComponent_app "<svg xmlns=")
          || rewrite (encodeURIComponent_app "http://www.w3.org/2000/svg")
          || rewrite (encodeURIComponent_app " width=")).
  match goal with
  | |- context [encodeURIComponent (number_to_string w +:+ ?r)] =>
      generalize (encodeURIComponent (number_to_string w +:+ r))
  end.
  intros r. reflexivity.
Qed.

(** ** Element accessors under the setters *)

Lemma alt_setAttribute_alt v e : alt (setAttribute "alt" v e) = v.
Proof. unfold alt, reflected, setAttribute. simpl. by rewrite lookup_insert_eq. Qed.

Lemma alt_setAttribute_src v e : alt (setAttribute "src" v e) = alt e.
Proof. unfold alt, reflected, setAttribute. simpl. by rewrite lookup_insert_ne. Qed.

Lemma src_setAttribute_src v e : src (setAttribute "src" v e) = v.
Proof. unfold src, reflected, setAttribute. simpl. by rewrite lookup_insert_eq. Qed.

(** Writing [src] does not change what the host lays the image out at. *)
Lemma width_setAttribute_src v e : width (setAttribute "src" v e) = width e.
Proof. unfold width. by rewrite alt_setAttribute_src. Qed.

Lemma height_setAttribute_src v e : height (setAttribute "src" v e) = height e.
Proof. unfold height. by rewrite alt_setAttribute_src. Qed.

(** What the error listener leaves on its element: the sizes in the
    placeholder are those of the element with its new class list and text. *)
Lemma imgError_spec (e : element) :
  has_class "img-missing" (imgError e) = true ∧
  has_class "img-loading" (imgError e) = false ∧
  alt (imgError e) = not_available +:+ alt e ∧
  src (imgError e) =
    Placeholder.data_uri (Placeholder.or_default (width (imgError e)) 400)
      (Placeholder.or_default (height (imgError e)) 300) (alt (imgError e)).
Proof.
  unfold imgError, has_class. cbn zeta.
  rewrite !width_setAttribute_src, !height_setAttribute_src.
  rewrite alt_setAttribute_src, src_setAttribute_src, !alt_setAttribute_alt.
  simpl. split_and!; try done.
  - apply contains_add_same.
  - rewrite contains_add_ne by done. apply contains_remove_same.
Qed.

(** ** Pages *)

Lemma hstate_eta s : mkHstate (hs_page s) (hs_event s) = s.
Proof. by destruct s. Qed.

Lemma update_id i p : update i (λ e, e) p = p.
Proof.
  unfold update, set_document. rewrite list_alter_id by done. by destruct p.
Qed.

Lemma update_update i f g p :
  update i f (update i g p) = update i (f ∘ g) p.
Proof.
  unfold update, set_document. simpl. by rewrite list_alter_alter_eq.
Qed.

Lemma update_ext i f g p :
  (∀ e, f e = g e) → update i f p = update i g p.
Proof.
  intros H. unfold update, set_document. f_equal.
  apply list_alter_ext; auto.
Qed.

Lemma lookup_update_eq i f p :
  document (update i f p) !! i = f <$> document p !! i.
Proof. apply list_lookup_alter_eq. Qed.

Lemma lookup_update_ne i j f p :
  i ≠ j → document (update i f p) !! j = document p !! j.
Proof. apply list_lookup_alter_ne. Qed.

(** ** Dispatch to the listeners of one element *)

Lemma registered_pos l0 ls : l0 ∈ ls → 0 < registered l0 ls.
Proof.
  induction 1 as [l ls|l l' ls _ IH]; simpl.
  - rewrite String.eqb_refl. lia.
  - lia.
Qed.

Lemma iter_succ_r {A} n (f : A → A) x : Nat.iter n f (f x) = Nat.iter (S n) f x.
Proof. induction n as [|n IH]; simpl; [done|]. by rewrite IH. Qed.

Section ElementListeners.

Variable click : nat → page → page.

(** The listeners of one event type registered on a node, run in turn, when
    they are listeners that touch only their own element. *)
Lemma invoke_element_listeners l0 f i ls s :
  element_listener l0 = Some f →
  foldl (λ s l, if String.eqb (listener_type l) (listener_type l0)
                then run_listener (listener_body click l i) s else s) s ls
  = mkHstate (update i (Nat.iter (registered l0 ls) f) (hs_page s)) (hs_event s).
Proof.
  intros Hf. revert s. induction ls as [|l ls IH]; intros s; simpl.
  - by rewrite update_id, hstate_eta.
  - rewrite IH.
    destruct l0; try discriminate Hf; injection Hf as <-;
      destruct l; simpl; try done;
      rewrite update_update; f_equal; apply update_ext; intros e; simpl;
      by rewrite iter_succ_r.
Qed.

End ElementListeners.

(** The page after an event that does not bubble is dispatched on a node, for
    the event types whose listeners touch only their own element: each
    registered listener has run once on that node, in turn. *)
Lemma dispatch_element_listeners l0 f i ev p e :
  element_listener l0 = Some f →
  ev_type ev = listener_type l0 →
  bubbles ev = false →
  document p !! i = Some e →
  dispatch i ev p
  = mkHstate (update i (Nat.iter (registered l0 (listeners e)) f) p) ev.
Proof.
  intros Hf Hty Hb He. unfold dispatch, dispatch_with, event_path.
  rewrite Hb, Hty. simpl. unfold invoke. simpl. rewrite He.
  by rewrite (invoke_element_listeners _ _ _ _ _ _ Hf).
Qed.

(** The page after the script dispatches a synthetic error event on a node. *)
Lemma dispatchEvent_error i p e :
  document p !! i = Some e →
  dispatchEvent i (new_Event "error") p
  = mkPage (alter (Nat.iter (registered ImgError (listeners e)) imgError) i (document p))
      (scrollCalls p) (activeElement p) (timers p)
      ((i, "error") :: dispatched p) (reported p).
Proof.
  intros He. unfold dispatchEvent.
  by rewrite (dispatch_element_listeners ImgError imgError _ _ _ e).
Qed.

(** How the host lays the image out is not up to the error listener. *)
Lemma iter_imgError_layout n e : layout (Nat.iter n imgError e) = layout e.
Proof. induction n as [|n IH]; simpl; [done|]. apply IH. Qed.

Lemma startsWith_app p s : startsWith p (p +:+ s) = true.
Proof.
  induction p as [|a p IH]; simpl; [done|]. by rewrite Ascii.eqb_refl.
Qed.

(** After one or more runs of the error listener. *)
Lemma iter_imgError_spec n e :
  0 < n →
  has_class "img-missing" (Nat.iter n imgError e) = true ∧
  has_class "img-loading" (Nat.iter n imgError e) = false ∧
  startsWith not_available (alt (Nat.iter n imgError e)) = true ∧
  src (Nat.iter n imgError e) =
    Placeholder.data_uri (Placeholder.or_default (width (Nat.iter n imgError e)) 400)
      (Placeholder.or_default (height (Nat.iter n imgError e)) 300)
      (alt (Nat.iter n imgError e)).
Proof.
  intros Hn. destruct n as [|n]; [lia|].
  change (Nat.iter (S n) imgError e) with (imgError (Nat.iter n imgError e)).
  destruct (imgError_spec (Nat.iter n imgError e)) as (Hm & Hl & Ha & Hs).
  split_and!.
  - exact Hm.
  - exact Hl.
  - rewrite Ha. apply startsWith_app.
  - exact Hs.
Qed.

(** ** The broken-image scan *)

Lemma elem_of_select_from m k l i :
  i ∈ select_from m k l ↔ ∃ e, k ≤ i ∧ l !! (i - k) = Some e ∧ m i e = true.
Proof.
  revert k. induction l as [|x l IH]; intros k; simpl.
  - split; [by intros ?%elem_of_nil|]. by intros (e & _ & ? & _).
  - assert (Hrest : i ∈ select_from m (S k) l ↔
                    ∃ e, k ≤ i ∧ i ≠ k ∧ (x :: l) !! (i - k) = Some e ∧ m i e = true).
    { rewrite IH. split.
      - intros (e & Hle & Hl & Hm). exists e. split_and!; try done; try lia.
        replace (i - k) with (S (i - S k)) by lia. done.
      - intros (e & Hle & Hne & Hl & Hm). exists e. split_and!; try done; try lia.
        replace (i - k) with (S (i - S k)) in Hl by lia. done. }
    destruct (m k x) eqn:Hk.
    + rewrite elem_of_cons, Hrest. split.
      * intros [->|(e & ? & ? & ? & ?)]; [|by eauto].
        exists x. rewrite Nat.sub_diag. done.
      * intros (e & Hle & Hl & Hm).
        destruct (decide (i = k)) as [->|Hne]; [by left|].
        right. by eauto 10.
    + rewrite Hrest. split.
      * intros (e & ? & ? & ? & ?). by eauto.
      * intros (e & Hle & Hl & Hm).
        destruct (decide (i = k)) as [->|Hne]; [|by eauto 10].
        rewrite Nat.sub_diag in Hl. simpl in Hl. congruence.
Qed.

Lemma elem_of_querySelectorAll m p i :
  i ∈ querySelectorAll m p ↔
  ∃ e, document p !! i = Some e ∧ m (document p) i e = true.
Proof.
  unfold querySelectorAll. rewrite elem_of_select_from.
  rewrite Nat.sub_0_r. split.
  - intros (e & _ & ? & ?). by eauto.
  - intros (e & ? & ?). exists e. split_and!; [lia|done..].
Qed.

(** A turn of the loop on another image leaves this one alone. *)
Lemma check_image_other p j i :
  i ≠ j → document (check_image p j) !! i = document p !! i.
Proof.
  intros Hne. unfold check_image.
  destruct (document p !! j) as [e|] eqn:He; [|done].
  destruct (has_class "img-missing" e); [done|].
  destruct (complete e && zero_sized e).
  - rewrite (dispatchEvent_error _ _ _ He). simpl.
    by rewrite list_lookup_alter_ne.
  - by destruct (negb (complete e)).
Qed.

(** An image already marked is skipped. *)
Lemma check_image_missing p i e :
  document p !! i = Some e →
  has_class "img-missing" e = true →
  check_image p i = p.
Proof. intros He Hm. unfold check_image. by rewrite He, Hm. Qed.

(** A complete image without natural size gets the synthetic error event. *)
Lemma check_image_broken p i e :
  document p !! i = Some e →
  has_class "img-missing" e = false →
  complete e = true →
  zero_sized e = true →
  check_image p i = dispatchEvent i (new_Event "error") p.
Proof.
  intros He Hm Hc Hz. unfold check_image. by rewrite He, Hm, Hc, Hz.
Qed.

(** What a turn of the loop on image [j] adds to the logs of the page. *)
Lemma check_image_logs p j :
  ∃ evs ts,
    dispatched (check_image p j) = evs ++ dispatched p ∧
    timers (check_image p j) = timers p ++ ts ∧
    Forall (λ x, x.1 = j) evs ∧ Forall (λ x, x = j) ts.
Proof.
  unfold check_image.
  destruct (document p !! j) as [e|] eqn:He.
  2: { exists [], []. by rewrite app_nil_r. }
  destruct (has_class "img-missing" e).
  { exists [], []. by rewrite app_nil_r. }
  destruct (complete e && zero_sized e).
  { rewrite (dispatchEvent_error _ _ _ He). simpl.
    exists [(j, "error")], []. rewrite app_nil_r. split_and!; try done.
    by constructor. }
  destruct (negb (complete e)).
  - exists [], [j]. simpl. split_and!; try done. by constructor.
  - exists [], []. by rewrite app_nil_r.
Qed.

(** The loop of the scan, seen from an image that is already marked. *)
Lemma scan_skips_missing imgs p i e :
  document p !! i = Some e →
  has_class "img-missing" e = true →
  document (foldl check_image p imgs) !! i = Some e ∧
  ∃ evs ts,
    dispatched (foldl check_image p imgs) = evs ++ dispatched p ∧
    timers (foldl check_image p imgs) = timers p ++ ts ∧
    Forall (λ x, x.1 ≠ i) evs ∧ Forall (λ x, x ≠ i) ts.
Proof.
  revert p. induction imgs as [|j imgs IH]; intros p He Hm; simpl.
  - split; [done|]. exists [], []. by rewrite app_nil_r.
  - destruct (decide (j = i)) as [->|Hne].
    + rewrite (check_image_missing _ _ _ He Hm). by apply IH.
    + destruct (IH (check_image p j)) as (Hd & evs & ts & Hevs & Hts & Fe & Ft).
      { by rewrite check_image_other. }
      { done. }
      split; [done|].
      destruct (check_image_logs p j) as (evs0 & ts0 & Hevs0 & Hts0 & Fe0 & Ft0).
      exists (evs ++ evs0), (ts0 ++ ts).
      rewrite Hevs, Hts, Hevs0, Hts0, <- !app_assoc. split_and!; try done.
      * apply Forall_app. split; [done|].
        eapply Forall_impl; [exact Fe0|]. simpl. intros x ->. done.
      * apply Forall_app. split; [|done].
        eapply Forall_impl; [exact Ft0|]. simpl. intros x ->. done.
Qed.

(** The loop of the scan, seen from a broken image that is in its list. *)
Lemma scan_marks_broken imgs p i e :
  i ∈ imgs →
  document p !! i = Some e →
  has_class "img-missing" e = false →
  complete e = true →
  zero_sized e = true →
  ImgError ∈ listeners e →
  document (foldl check_image p imgs) !! i
  = Some (Nat.iter (registered ImgError (listeners e)) imgError e).
Proof.
  intros Hin. revert p.
  induction imgs as [|j imgs IH]; intros p He Hm Hc Hz Hl.
  { by apply elem_of_nil in Hin. }
  simpl. destruct (decide (j = i)) as [->|Hne].
  - apply scan_skips_missing.
    + rewrite (check_image_broken _ _ _ He Hm Hc Hz).
      rewrite (dispatchEvent_error _ _ _ He). simpl.
      by rewrite list_lookup_alter_eq, He.
    + by apply iter_imgError_spec, registered_pos.
  - apply elem_of_cons in Hin as [->|Hin]; [done|].
    apply IH; try done. by rewrite check_image_other.
Qed.

(** ** The error listener (C2) *)

(** C2: when the error listener of [initializeImageHandling] runs on an
    image, the image ends with the class [img-missing] and without the class
    [img-loading], its alternative text is the old one behind the marker
    [Imagem não disponível: ], and its [src] is a data URI of type
    [image/svg+xml] that carries, percent-encoded, the SVG markup of the
    template literal: the width and height the image has once its classes and
    text are rewritten (400 and 300 where those are zero), the two fixed
    elements, and the new alternative text as the content of the second
    [text] element. *)
Theorem error_listener_marks_missing
    (click : nat → page → page) (p : page) (ev : event) (i : nat) (e : element) :
  document p !! i = Some e →
  let s' := run_listener (listener_body click ImgError i) (mkHstate p ev) in
  ∃ e',
    document (hs_page s') !! i = Some e' ∧
    has_class "img-missing" e' = true ∧
    has_class "img-loading" e' = false ∧
    alt e' = "Imagem não disponível: " +:+ alt e ∧
    src e' =
      "data:image/svg+xml;charset=utf-8," +:+
      encodeURIComponent
        ("<svg xmlns=" +:+ dquote +:+ "http://www.w3.org/2000/svg" +:+ dquote
         +:+ " width=" +:+ dquote
         +:+ number_to_string (if (width e' =? 0)%N then 400%N else width e')
         +:+ dquote +:+ " height=" +:+ dquote
         +:+ number_to_string (if (height e' =? 0)%N then 300%N else height e')
         +:+ dquote +:+ " viewBox=" +:+ dquote +:+ "0 0 400 300" +:+ dquote
         +:+ ">" +:+ LF
         +:+ "          <rect width=" +:+ dquote +:+ "100%" +:+ dquote
         +:+ " height=" +:+ dquote +:+ "100%" +:+ dquote
         +:+ " fill=" +:+ dquote +:+ "#222" +:+ dquote +:+ "/>" +:+ LF
         +:+ "          <text x=" +:+ dquote +:+ "50%" +:+ dquote
         +:+ " y=" +:+ dquote +:+ "50%" +:+ dquote
         +:+ " fill=" +:+ dquote +:+ "#ff6b6b" +:+ dquote
         +:+ " font-family=" +:+ dquote +:+ "Arial" +:+ dquote
         +:+ " font-size=" +:+ dquote +:+ "16" +:+ dquote
         +:+ " text-anchor=" +:+ dquote +:+ "middle" +:+ dquote
         +:+ " dy=" +:+ dquote +:+ ".3em" +:+ dquote
         +:+ ">Imagem não encontrada</text>" +:+ LF
         +:+ "          <text x=" +:+ dquote +:+ "50%" +:+ dquote
         +:+ " y=" +:+ dquote +:+ "60%" +:+ dquote
         +:+ " fill=" +:+ dquote +:+ "#ffb3b3" +:+ dquote
         +:+ " font-family=" +:+ dquote +:+ "Arial" +:+ dquote
         +:+ " font-size=" +:+ dquote +:+ "12" +:+ dquote
         +:+ " text-anchor=" +:+ dquote +:+ "middle" +:+ dquote +:+ ">"
         +:+ alt e' +:+ "</text>" +:+ LF +:+ "        </svg>") ∧
    startsWith
      "data:image/svg+xml;charset=utf-8,%3Csvg%20xmlns%3D%22http%3A%2F%2Fwww.w3.org%2F2000%2Fsvg%22%20width%3D%22"
      (src e') = true.
Proof.
  intros He s'. exists (imgError e).
  destruct (imgError_spec e) as (Hm & Hl & Ha & Hs).
  split.
  { subst s'. unfold run_listener. simpl. by rewrite list_lookup_alter_eq, He. }
  split; [exact Hm|]. split; [exact Hl|]. split; [exact Ha|].
  rewrite Hs. split.
  - unfold Placeholder.data_uri, Placeholder.data_uri_prefix, Placeholder.or_default.
    rewrite svg_template. reflexivity.
  - apply data_uri_start.
Qed.

Lemma error_listener_marks_missing_witness :
  ∃ e',
    document (hs_page (run_listener (listener_body click ImgError 0)
      (mkHstate (Samples.page_of [Samples.poster_lazy_listening]) (new_Event "error"))))
      !! 0 = Some e' ∧
    has_class "img-missing" e' = true ∧
    has_class "img-loading" e' = false ∧
    alt e' = "Imagem não disponível: " +:+ alt Samples.poster_lazy_listening ∧
    src e' =
      "data:image/svg+xml;charset=utf-8," +:+
      encodeURIComponent
        ("<svg xmlns=" +:+ dquote +:+ "http://www.w3.org/2000/svg" +:+ dquote
         +:+ " width=" +:+ dquote
         +:+ number_to_string (if (width e' =? 0)%N then 400%N else width e')
         +:+ dquote +:+ " height=" +:+ dquote
         +:+ number_to_string (if (height e' =? 0)%N then 300%N else height e')
         +:+ dquote +:+ " viewBox=" +:+ dquote +:+ "0 0 400 300" +:+ dquote
         +:+ ">" +:+ LF
         +:+ "          <rect width=" +:+ dquote +:+ "100%" +:+ dquote
         +:+ " height=" +:+ dquote +:+ "100%" +:+ dquote
         +:+ " fill=" +:+ dquote +:+ "#222" +:+ dquote +:+ "/>" +:+ LF
         +:+ "          <text x=" +:+ dquote +:+ "50%" +:+ dquote
         +:+ " y=" +:+ dquote +:+ "50%" +:+ dquote
         +:+ " fill=" +:+ dquote +:+ "#ff6b6b" +:+ dquote
         +:+ " font-family=" +:+ dquote +:+ "Arial" +:+ dquote
         +:+ " font-size=" +:+ dquote +:+ "16" +:+ dquote
         +:+ " text-anchor=" +:+ dquote +:+ "middle" +:+ dquote
         +:+ " dy=" +:+ dquote +:+ ".3em" +:+ dquote
         +:+ ">Imagem não encontrada</text>" +:+ LF
         +:+ "          <text x=" +:+ dquote +:+ "50%" +:+ dquote
         +:+ " y=" +:+ dquote +:+ "60%" +:+ dquote
         +:+ " fill=" +:+ dquote +:+ "#ffb3b3" +:+ dquote
         +:+ " font-family=" +:+ dquote +:+ "Arial" +:+ dquote
         +:+ " font-size=" +:+ dquote +:+ "12" +:+ dquote
         +:+ " text-anchor=" +:+ dquote +:+ "middle" +:+ dquote +:+ ">"
         +:+ alt e' +:+ "</text>" +:+ LF +:+ "        </svg>") ∧
    startsWith
      "data:image/svg+xml;charset=utf-8,%3Csvg%20xmlns%3D%22http%3A%2F%2Fwww.w3.org%2F2000%2Fsvg%22%20width%3D%22"
      (src e') = true.
Proof.
  apply (error_listener_marks_missing click
           (Samples.page_of [Samples.poster_lazy_listening]) (new_Event "error") 0
           Samples.poster_lazy_listening).
  reflexivity.
Defined.

(** ** The broken-image scan (C1, C4) *)

(** A broken image that carries the error listener is marked by the scan. *)
Lemma scan_runs_error_listener (p : page) (i : nat) (e : element) :
  document p !! i = Some e →
  sel_img (document p) i e = true →
  ImgError ∈ listeners e →
  complete e = true →
  zero_sized e = true →
  has_class "img-missing" e = false →
  ∃ e',
    document (checkForBrokenImages p) !! i = Some e' ∧
    has_class "img-missing" e' = true ∧
    startsWith not_available (alt e') = true ∧
    src e' =
      Placeholder.data_uri (Placeholder.or_default (width e') 400)
        (Placeholder.or_default (height e') 300) (alt e').
Proof.
  intros He Himg Hl Hc Hz Hm.
  exists (Nat.iter (registered ImgError (listeners e)) imgError e).
  destruct (iter_imgError_spec (registered ImgError (listeners e)) e)
    as (Hm' & _ & Ha' & Hs'); [by apply registered_pos|].
  split_and!; [|exact Hm'|exact Ha'|exact Hs'].
  unfold checkForBrokenImages. apply scan_marks_broken; try done.
  apply elem_of_querySelectorAll. by exists e.
Qed.

(** C1, as the code has it.  For every image element on which the error
    listener of [initializeImageHandling] is registered, that is complete with
    zero natural width or zero natural height and not yet marked
    [img-missing], [checkForBrokenImages] runs the error listener on it:
    afterwards it has the class [img-missing], its alternative text starts
    with the not-available marker and its [src] is the generated
    placeholder. *)
Theorem scan_marks_listening_broken_image (p : page) (i : nat) (e : element) :
  document p !! i = Some e →
  sel_img (document p) i e = true →
  ImgError ∈ listeners e →
  complete e = true →
  zero_sized e = true →
  has_class "img-missing" e = false →
  ∃ e',
    document (checkForBrokenImages p) !! i = Some e' ∧
    has_class "img-missing" e' = true ∧
    startsWith "Imagem não disponível: " (alt e') = true ∧
    src e' =
      Placeholder.data_uri (Placeholder.or_default (width e') 400)
        (Placeholder.or_default (height e') 300) (alt e').
Proof.
  apply scan_runs_error_listener.
Qed.

Lemma scan_marks_listening_broken_image_witness :
  ∃ e',
    document (checkForBrokenImages (Samples.page_of [Samples.poster_lazy_listening]))
      !! 0 = Some e' ∧
    has_class "img-missing" e' = true ∧
    startsWith "Imagem não disponível: " (alt e') = true ∧
    src e' =
      Placeholder.data_uri
        (Placeholder.or_default (width e') 400)
        (Placeholder.or_default (height e') 300) (alt e').
Proof.
  apply (scan_marks_listening_broken_image
           (Samples.page_of [Samples.poster_lazy_listening]) 0
           Samples.poster_lazy_listening).
  - reflexivity.
  - reflexivity.
  - right. left.
  - reflexivity.
  - reflexivity.
  - reflexivity.
Defined.

(** C1 fails on this page: a broken image without deferred loading has
    no error listener, so the synthetic event of the scan reaches nothing and
    the element stays as it was, both under [checkForBrokenImages] alone and
    under [initializeImageHandling]. *)
Lemma scan_leaves_plain_broken_image :
  let p := Samples.page_of [Samples.poster_plain] in
  document p !! 0 = Some Samples.poster_plain ∧
  sel_img (document p) 0 Samples.poster_plain = true ∧
  complete Samples.poster_plain = true ∧
  zero_sized Samples.poster_plain = true ∧
  has_class "img-missing" Samples.poster_plain = false ∧
  src Samples.poster_plain = "poster.jpg" ∧
  dispatched (checkForBrokenImages p) = [(0, "error")] ∧
  document (checkForBrokenImages p) !! 0 = Some Samples.poster_plain ∧
  document (initializeImageHandling p) !! 0 = Some Samples.poster_plain.
Proof. vm_compute. repeat split. Qed.

(** *** Registration by [initializeImageHandling] *)

Lemma foldl_update_lookup (f : element → element) imgs p i :
  document (foldl (λ p j, update j f p) p imgs) !! i
  = Nat.iter (count_occ Nat.eq_dec imgs i) f <$> document p !! i.
Proof.
  revert p. induction imgs as [|j imgs IH]; intros p; simpl.
  - by destruct (document p !! i).
  - rewrite IH. destruct (Nat.eq_dec j i) as [->|Hne].
    + rewrite lookup_update_eq. destruct (document p !! i) as [e|]; [|done].
      simpl. by rewrite iter_succ_r.
    + by rewrite lookup_update_ne.
Qed.

Lemma count_occ_pos imgs (i : nat) : i ∈ imgs → 0 < count_occ Nat.eq_dec imgs i.
Proof. intros Hin. apply count_occ_In. by apply list_elem_of_In. Qed.

Lemma init_element_keeps e :
  tagName (init_element e) = tagName e ∧
  complete (init_element e) = complete e ∧
  zero_sized (init_element e) = zero_sized e ∧
  has_class "img-missing" (init_element e) = has_class "img-missing" e ∧
  ImgError ∈ listeners (init_element e).
Proof.
  unfold init_element, has_class. destruct (complete e) eqn:Hc; simpl.
  - rewrite Hc. split_and!; try done. set_solver.
  - rewrite Hc, contains_add_ne by done. split_and!; try done. set_solver.
Qed.

Lemma iter_init_element_keeps n e :
  0 < n →
  tagName (Nat.iter n init_element e) = tagName e ∧
  complete (Nat.iter n init_element e) = complete e ∧
  zero_sized (Nat.iter n init_element e) = zero_sized e ∧
  has_class "img-missing" (Nat.iter n init_element e) = has_class "img-missing" e ∧
  ImgError ∈ listeners (Nat.iter n init_element e).
Proof.
  intros Hn. destruct n as [|n]; [lia|]. clear Hn.
  induction n as [|n IH].
  - apply init_element_keeps.
  - change (Nat.iter (S (S n)) init_element e)
      with (init_element (Nat.iter (S n) init_element e)).
    destruct (init_element_keeps (Nat.iter (S n) init_element e))
      as (-> & -> & -> & -> & Hl).
    destruct IH as (? & ? & ? & ? & ?). done.
Qed.

(** On a deferred-loading image that is complete with zero natural width or
    height and not yet marked, [initializeImageHandling] registers the error
    listener and its scan runs it. *)
Lemma initializeImageHandling_marks_broken_lazy_image (p : page) (i : nat) (e : element) :
  document p !! i = Some e →
  sel_lazy_img (document p) i e = true →
  complete e = true →
  zero_sized e = true →
  has_class "img-missing" e = false →
  ∃ e',
    document (initializeImageHandling p) !! i = Some e' ∧
    has_class "img-missing" e' = true ∧
    startsWith "Imagem não disponível: " (alt e') = true ∧
    src e' =
      Placeholder.data_uri (Placeholder.or_default (width e') 400)
        (Placeholder.or_default (height e') 300) (alt e').
Proof.
  intros He Hsel Hc Hz Hm. unfold initializeImageHandling.
  set (imgs := querySelectorAll sel_lazy_img p).
  assert (Hin : i ∈ imgs) by (apply elem_of_querySelectorAll; eauto).
  set (p1 := foldl init_image p imgs).
  set (e1 := Nat.iter (count_occ Nat.eq_dec imgs i) init_element e).
  assert (He1 : document p1 !! i = Some e1).
  { subst p1 e1. unfold init_image. by rewrite foldl_update_lookup, He. }
  destruct (iter_init_element_keeps (count_occ Nat.eq_dec imgs i) e)
    as (Ht & Hc1 & Hz1 & Hm1 & Hl1); [by apply count_occ_pos|].
  fold e1 in Ht, Hc1, Hz1, Hm1, Hl1.
  destruct (scan_runs_error_listener p1 i e1) as (e' & ? & ? & ? & Hs);
    try congruence.
  { unfold sel_img. rewrite Ht. unfold sel_lazy_img in Hsel.
    by apply andb_prop in Hsel as [? _]. }
  exists e'. split; [assumption|]. split; [assumption|]. split; [assumption|].
  exact Hs.
Qed.

Lemma scan_skips_marked p i e :
  document p !! i = Some e →
  has_class "img-missing" e = true →
  document (checkForBrokenImages p) !! i = Some e ∧
  ∃ evs ts,
    dispatched (checkForBrokenImages p) = evs ++ dispatched p ∧
    timers (checkForBrokenImages p) = timers p ++ ts ∧
    Forall (λ x, x.1 ≠ i) evs ∧ Forall (λ x, x ≠ i) ts.
Proof. apply scan_skips_missing. Qed.

(** C4. An image element that already carries [img-missing] is skipped by
    [checkForBrokenImages], however often the scan is run: the element,
    with its [src] and every other attribute, is unchanged, and the scans
    neither dispatch an event on it nor set a timer for it. *)
Theorem repeated_scan_skips_marked_image (n : nat) (p : page) (i : nat) (e : element) :
  document p !! i = Some e →
  has_class "img-missing" e = true →
  document (Nat.iter n checkForBrokenImages p) !! i = Some e ∧
  ∃ evs ts,
    dispatched (Nat.iter n checkForBrokenImages p) = evs ++ dispatched p ∧
    timers (Nat.iter n checkForBrokenImages p) = timers p ++ ts ∧
    Forall (λ x, x.1 ≠ i) evs ∧ Forall (λ x, x ≠ i) ts.
Proof.
  intros He Hm. induction n as [|n IH].
  - simpl. split; [done|]. exists [], []. by rewrite app_nil_r.
  - change (Nat.iter (S n) checkForBrokenImages p)
      with (checkForBrokenImages (Nat.iter n checkForBrokenImages p)).
    destruct IH as (Hd & evs & ts & Hevs & Hts & Fe & Ft).
    destruct (scan_skips_marked _ _ _ Hd Hm)
      as (Hd' & evs' & ts' & Hevs' & Hts' & Fe' & Ft').
    split; [exact Hd'|].
    exists (evs' ++ evs), (ts ++ ts').
    rewrite Hevs', Hts', Hevs, Hts, <- !app_assoc.
    split_and!; try done; by apply Forall_app.
Qed.

Lemma repeated_scan_skips_marked_image_witness :
  document (Nat.iter 2 checkForBrokenImages (Samples.page_of [Samples.poster_missing]))
    !! 0 = Some Samples.poster_missing ∧
  ∃ evs ts,
    dispatched (Nat.iter 2 checkForBrokenImages (Samples.page_of [Samples.poster_missing]))
      = evs ++ dispatched (Samples.page_of [Samples.poster_missing]) ∧
    timers (Nat.iter 2 checkForBrokenImages (Samples.page_of [Samples.poster_missing]))
      = timers (Samples.page_of [Samples.poster_missing]) ++ ts ∧
    Forall (λ x, x.1 ≠ 0) evs ∧ Forall (λ x, x ≠ 0) ts.
Proof.
  apply (repeated_scan_skips_marked_image 2
           (Samples.page_of [Samples.poster_missing]) 0 Samples.poster_missing).
  - reflexivity.
  - reflexivity.
Defined.

(** ** The missing state is one-way (C3) *)

Section OneWay.

#[local] Instance keeps_missing_refl : Reflexive keeps_missing.
Proof. intros p i e He Hm. by exists e. Qed.

#[local] Instance keeps_missing_trans : Transitive keeps_missing.
Proof.
  intros p1 p2 p3 H12 H23 i e He Hm.
  destruct (H12 i e He Hm) as (e2 & He2 & Hm2). by apply (H23 i e2).
Qed.

Lemma keeps_missing_same_document p p' :
  document p' = document p → keeps_missing p p'.
Proof. intros Hd i e He Hm. exists e. by rewrite Hd. Qed.

Lemma keeps_missing_update i f p : keeps_class f → keeps_missing p (update i f p).
Proof.
  intros Hf j e He Hm. destruct (decide (i = j)) as [->|Hne].
  - exists (f e). rewrite lookup_update_eq, He. split; [done|]. by apply Hf.
  - exists e. by rewrite lookup_update_ne.
Qed.

Lemma keeps_missing_foldl {A} (f : page → A → page) l p :
  (∀ p a, keeps_missing p (f p a)) → keeps_missing p (foldl f p l).
Proof.
  intros Hf. revert p. induction l as [|a l IH]; intros p; simpl; [done|].
  etrans; [apply Hf|apply IH].
Qed.

(** *** The mutations of the script *)

Lemma keeps_class_imgLoad : keeps_class imgLoad.
Proof. intros e Hm. unfold imgLoad, has_class. simpl. by rewrite contains_remove_ne. Qed.

Lemma keeps_class_imgError : keeps_class imgError.
Proof. intros e _. apply imgError_spec. Qed.

Lemma keeps_class_buttonFocus : keeps_class buttonFocus.
Proof. intros e Hm. exact Hm. Qed.

Lemma keeps_class_buttonBlur : keeps_class buttonBlur.
Proof. intros e Hm. exact Hm. Qed.

Lemma keeps_class_setAttribute k v : keeps_class (setAttribute k v).
Proof. intros e Hm. exact Hm. Qed.

Lemma keeps_class_addEventListener l : keeps_class (addEventListener l).
Proof. intros e Hm. exact Hm. Qed.

Lemma keeps_class_init_element : keeps_class init_element.
Proof.
  intros e Hm. unfold init_element, has_class.
  destruct (negb (complete e)); simpl; [|done].
  by apply contains_add_mono.
Qed.

(** *** The monad *)

Lemma body_ret {A} (a : A) : body_keeps_missing (mret a).
Proof. intros s. reflexivity. Qed.

Lemma body_throw {A} x : body_keeps_missing (@throw A x).
Proof. intros s. reflexivity. Qed.

Lemma body_gets {A} (f : page → A) : body_keeps_missing (gets f).
Proof. intros s. reflexivity. Qed.

Lemma body_get_event : body_keeps_missing get_event.
Proof. intros s. reflexivity. Qed.

Lemma body_modify_event f : body_keeps_missing (modify_event f).
Proof. intros s. reflexivity. Qed.

Lemma body_modify_page f :
  (∀ p, keeps_missing p (f p)) → body_keeps_missing (modify_page f).
Proof. intros Hf s. apply Hf. Qed.

Lemma body_bind {A B} (m : M A) (k : A → M B) :
  body_keeps_missing m → (∀ a, body_keeps_missing (k a)) →
  body_keeps_missing (m ≫= k).
Proof.
  intros Hm Hk s. unfold mbind, M_bind, bind.
  specialize (Hm s). destruct (m s) as [[a|x] s1]; simpl in *; [|done].
  etrans; [exact Hm|apply Hk].
Qed.

Lemma body_deref {A} o prop (f : element → A) : body_keeps_missing (deref o prop f).
Proof.
  unfold deref. destruct o as [i|]; [|apply body_throw].
  apply body_bind; [apply body_gets|].
  intros [a|]; [apply body_ret|apply body_throw].
Qed.

Lemma keeps_missing_fire ty i p : keeps_missing p (fire ty i p).
Proof.
  unfold fire, focus_event_listener.
  destruct (document p !! i) as [e|]; [|reflexivity].
  destruct (String.eqb ty "focus").
  - apply keeps_missing_foldl. intros q l.
    destruct (String.eqb (listener_type l) ty); [|reflexivity].
    apply keeps_missing_update, keeps_class_buttonFocus.
  - destruct (String.eqb ty "blur"); [|reflexivity].
    apply keeps_missing_foldl. intros q l.
    destruct (String.eqb (listener_type l) ty); [|reflexivity].
    apply keeps_missing_update, keeps_class_buttonBlur.
Qed.

Lemma keeps_missing_focus_steps i p : keeps_missing p (focus_steps i p).
Proof.
  unfold focus_steps. destruct (document p !! i) as [e|]; [|reflexivity].
  destruct (can_take_focus e && negb (bool_decide (activeElement p = Some i)));
    [|reflexivity].
  cbv zeta. etrans; [|apply keeps_missing_fire].
  set (q := match activeElement p with Some old => fire "blur" old p | None => p end).
  trans q; [|by apply keeps_missing_same_document].
  subst q. destruct (activeElement p) as [old|]; [apply keeps_missing_fire|reflexivity].
Qed.

Lemma body_anchorClick this : body_keeps_missing (anchorClick this).
Proof.
  unfold anchorClick. apply body_bind; [apply body_gets|].
  intros [[href|]|]; [|apply body_throw|apply body_ret].
  destruct (negb (href =? "#")%string && startsWith "#" href); [|apply body_ret].
  apply body_bind; [apply body_modify_event|]. intros _.
  apply body_bind; [apply body_gets|].
  intros [target|]; [|apply body_ret].
  apply body_bind; [apply body_gets|]. intros menu.
  apply body_bind; [apply body_deref|]. intros headerHeight.
  apply body_bind; [apply body_deref|]. intros top.
  apply body_bind.
  { apply body_modify_page. intros p. by apply keeps_missing_same_document. }
  intros _. apply body_bind.
  { apply body_modify_page. intros p.
    apply keeps_missing_update, keeps_class_setAttribute. }
  intros _. apply body_modify_page. intros p. apply keeps_missing_focus_steps.
Qed.

Lemma body_cardKeydown click this :
  (∀ i p, keeps_missing p (click i p)) → body_keeps_missing (cardKeydown click this).
Proof.
  intros Hclick. unfold cardKeydown.
  apply body_bind; [apply body_get_event|]. intros e.
  destruct ((key e =? "Enter")%string || (key e =? " ")%string); [|apply body_ret].
  apply body_bind; [apply body_modify_event|]. intros _.
  apply body_modify_page. intros p. apply Hclick.
Qed.

Lemma body_listener click l this :
  (∀ i p, keeps_missing p (click i p)) →
  body_keeps_missing (listener_body click l this).
Proof.
  intros Hclick. destruct l; simpl.
  - apply body_modify_page. intros p. apply keeps_missing_update, keeps_class_imgLoad.
  - apply body_modify_page. intros p. apply keeps_missing_update, keeps_class_imgError.
  - apply body_anchorClick.
  - by apply body_cardKeydown.
  - apply body_modify_page. intros p. apply keeps_missing_update, keeps_class_buttonFocus.
  - apply body_modify_page. intros p. apply keeps_missing_update, keeps_class_buttonBlur.
Qed.

(** *** Dispatch *)

Lemma keeps_missing_run_listener (m : M unit) s :
  body_keeps_missing m → keeps_missing (hs_page s) (hs_page (run_listener m s)).
Proof.
  intros Hm. unfold run_listener. specialize (Hm s).
  destruct (m s) as [[[]|x] s1]; simpl in *; done.
Qed.

Lemma keeps_missing_foldl_hstate {A} (f : hstate → A → hstate) l s :
  (∀ s a, keeps_missing (hs_page s) (hs_page (f s a))) →
  keeps_missing (hs_page s) (hs_page (foldl f s l)).
Proof.
  intros Hf. revert s. induction l as [|a l IH]; intros s; simpl; [done|].
  etrans; [apply Hf|apply IH].
Qed.

Lemma keeps_missing_dispatch_with body i ev p :
  (∀ l j, body_keeps_missing (body l j)) →
  keeps_missing p (hs_page (dispatch_with body i ev p)).
Proof.
  intros Hbody. unfold dispatch_with.
  apply (keeps_missing_foldl_hstate _ _ (mkHstate p ev)).
  intros s j. unfold invoke. destruct (document (hs_page s) !! j); [|done].
  apply keeps_missing_foldl_hstate. intros s1 l.
  destruct (listener_type l =? ev_type ev)%string; [|done].
  by apply keeps_missing_run_listener.
Qed.

Lemma keeps_missing_click i p : keeps_missing p (click i p).
Proof.
  apply keeps_missing_dispatch_with. intros l j. by apply body_listener.
Qed.

Lemma keeps_missing_dispatch i ev p : keeps_missing p (hs_page (dispatch i ev p)).
Proof.
  apply keeps_missing_dispatch_with. intros l j.
  apply body_listener, keeps_missing_click.
Qed.

Lemma keeps_missing_dispatchEvent i ev p : keeps_missing p (dispatchEvent i ev p).
Proof.
  unfold dispatchEvent.
  etrans; [|apply keeps_missing_dispatch]. by apply keeps_missing_same_document.
Qed.

(** *** The functions of the script and the host *)

Lemma keeps_missing_check_image p img : keeps_missing p (check_image p img).
Proof.
  unfold check_image. destruct (document p !! img) as [e|]; [|done].
  destruct (has_class "img-missing" e); [done|].
  destruct (complete e && zero_sized e); [apply keeps_missing_dispatchEvent|].
  destruct (negb (complete e)); [|done]. by apply keeps_missing_same_document.
Qed.

Lemma keeps_missing_checkForBrokenImages p : keeps_missing p (checkForBrokenImages p).
Proof.
  unfold checkForBrokenImages. apply keeps_missing_foldl, keeps_missing_check_image.
Qed.

Lemma keeps_missing_fire_timer k p : keeps_missing p (fire_timer k p).
Proof.
  unfold fire_timer. destruct (timers p !! k) as [img|]; [|done].
  unfold recheck_image. simpl. destruct (document p !! img) as [e|].
  - destruct (zero_sized e).
    + etrans; [|apply keeps_missing_dispatchEvent]. by apply keeps_missing_same_document.
    + by apply keeps_missing_same_document.
  - by apply keeps_missing_same_document.
Qed.

Lemma keeps_missing_initializeImageHandling p :
  keeps_missing p (initializeImageHandling p).
Proof.
  unfold initializeImageHandling.
  etrans; [|apply keeps_missing_checkForBrokenImages].
  apply keeps_missing_foldl. intros p1 img.
  apply keeps_missing_update, keeps_class_init_element.
Qed.

Lemma keeps_missing_initializeSmoothScroll p :
  keeps_missing p (initializeSmoothScroll p).
Proof.
  unfold initializeSmoothScroll.
  apply (keeps_missing_foldl (λ p link, update link (addEventListener AnchorClick) p)).
  intros p1 link.
  apply keeps_missing_update, keeps_class_addEventListener.
Qed.

Lemma keeps_missing_initializeFocusManagement p :
  keeps_missing p (initializeFocusManagement p).
Proof.
  unfold initializeFocusManagement.
  trans (foldl init_card p (querySelectorAll sel_card p)).
  - apply keeps_missing_foldl. intros p1 card.
    apply keeps_missing_update. intros e Hm. exact Hm.
  - apply keeps_missing_foldl. intros p1 button.
    apply keeps_missing_update. intros e Hm. exact Hm.
Qed.

Lemma keeps_missing_host_change p p' : host_change p p' → keeps_missing p p'.
Proof.
  intros [Hd _] i e He Hm.
  destruct (Forall2_lookup_l _ _ _ _ _ Hd He) as (e' & He' & Hsame).
  exists e'. split; [done|].
  destruct Hsame as (_ & _ & _ & Hc & _). unfold has_class. by rewrite Hc.
Qed.

Lemma keeps_missing_step p p' : step p p' → keeps_missing p p'.
Proof.
  destruct 1.
  - apply keeps_missing_dispatch.
  - apply keeps_missing_fire_timer.
  - by apply keeps_missing_host_change.
  - apply keeps_missing_initializeImageHandling.
  - apply keeps_missing_checkForBrokenImages.
  - apply keeps_missing_initializeSmoothScroll.
  - apply keeps_missing_initializeFocusManagement.
Qed.

Lemma keeps_missing_steps p p' : rtc step p p' → keeps_missing p p'.
Proof.
  induction 1 as [|p1 p2 p3 Hstep _ IH]; [done|].
  etrans; [by apply keeps_missing_step|exact IH].
Qed.

End OneWay.

(** C3. The class [img-missing] is one-way: whatever happens to the page
    (events reaching the load, error and other listeners of the script,
    pending timers of the scan, calls of [initializeImageHandling],
    [checkForBrokenImages] and the other initializers, in any number and
    order), an element that carries [img-missing] keeps it. *)
Theorem img_missing_is_one_way (p p' : page) (i : nat) (e : element) :
  rtc step p p' →
  document p !! i = Some e →
  has_class "img-missing" e = true →
  ∃ e', document p' !! i = Some e' ∧ has_class "img-missing" e' = true.
Proof. intros Hsteps. by apply keeps_missing_steps. Qed.

Lemma img_missing_is_one_way_witness :
  ∃ e',
    document (checkForBrokenImages
      (hs_page (dispatch 0 (new_Event "load") (Samples.page_of [Samples.poster_missing]))))
      !! 0 = Some e' ∧
    has_class "img-missing" e' = true.
Proof.
  apply (img_missing_is_one_way (Samples.page_of [Samples.poster_missing]) _ 0
           Samples.poster_missing).
  - eapply rtc_l; [apply (step_dispatch 0 (new_Event "load"))|].
    eapply rtc_l; [apply step_checkForBrokenImages|]. apply rtc_refl.
  - reflexivity.
  - reflexivity.
Defined.

(** ** Smooth scrolling (C5, C6, C10) *)

Lemma find_from_Some m k l j :
  find_from m k l = Some j →
  k ≤ j ∧ ∃ e, l !! (j - k) = Some e ∧ m e = true.
Proof.
  revert k. induction l as [|x l IH]; intros k; simpl; [done|].
  destruct (m x) eqn:Hx.
  - intros [= <-]. split; [lia|]. exists x. by rewrite Nat.sub_diag.
  - intros H. apply IH in H as (Hle & e & He & Hm). split; [lia|].
    exists e. replace (j - k) with (S (j - S k)) by lia. done.
Qed.

Lemma getElementById_Some id p target :
  getElementById id p = Some target →
  ∃ e, document p !! target = Some e ∧ has_id id e = true.
Proof.
  intros H. apply find_from_Some in H as (_ & e & He & Hm).
  rewrite Nat.sub_0_r in He. by exists e.
Qed.

Lemma querySelector_menu_Some p menu :
  querySelector_menu p = Some menu →
  ∃ e, document p !! menu = Some e ∧ has_class "menu" e = true.
Proof.
  intros H. apply find_from_Some in H as (_ & e & He & Hm).
  rewrite Nat.sub_0_r in He. by exists e.
Qed.

(** The guard of the click listener on a fragment other than the bare [#]. *)
Lemma fragment_guard id :
  id ≠ "" →
  negb (String.eqb ("#" +:+ id) "#") && startsWith "#" ("#" +:+ id) = true.
Proof. intros Hid. destruct id; [done|]. reflexivity. Qed.

(** The click listener up to the lookup of the target. *)
Lemma anchorClick_fragment p ev this link id :
  document p !! this = Some link →
  getAttribute "href" link = Some ("#" +:+ id) →
  id ≠ "" →
  anchorClick this (mkHstate p ev)
  = match getElementById id p with
    | Some target =>
        (menu ← gets querySelector_menu;
         headerHeight ← deref menu "offsetHeight" offsetHeight;
         top ← deref (Some target) "offsetTop" offsetTop;
         scrollTo (top - headerHeight - 20)%Z "smooth";;
         modify_page (update target (setAttribute "tabindex" "-1"));;
         focus target) (mkHstate p (prevented ev))
    | None => (Ok tt, mkHstate p (prevented ev))
    end.
Proof.
  intros Hthis Hhref Hid. unfold anchorClick.
  unfold mbind at 1. unfold M_bind, bind at 1. unfold this_get, gets at 1.
  cbn [hs_page]. rewrite Hthis. cbn [fmap option_fmap option_map].
  rewrite Hhref, (fragment_guard _ Hid).
  change (substring1 ("#" +:+ id)) with id.
  unfold mbind at 1. unfold bind at 1. unfold preventDefault, modify_event.
  unfold mbind at 1. unfold bind at 1. unfold gets at 1. cbn [hs_page hs_event].
  by destruct (getElementById id p).
Qed.

(** *** What [focus()] does to the page *)

Lemma focus_event_listener_cases ty f :
  focus_event_listener ty = Some f → f = buttonFocus ∨ f = buttonBlur.
Proof.
  unfold focus_event_listener.
  destruct (String.eqb ty "focus"); [intros [= <-]; by left|].
  destruct (String.eqb ty "blur"); [intros [= <-]; by right|discriminate].
Qed.

(** A focus or blur event only runs the focus and blur listeners on the
    node it is fired on. *)
Lemma fire_ind (P : page → Prop) ty i p :
  P p →
  (∀ q f, f = buttonFocus ∨ f = buttonBlur → P q → P (update i f q)) →
  P (fire ty i p).
Proof.
  intros Hp Hstep. unfold fire.
  destruct (document p !! i) as [e|]; [|exact Hp].
  destruct (focus_event_listener ty) as [f|] eqn:Hf; [|exact Hp].
  apply focus_event_listener_cases in Hf.
  generalize (listeners e). intros ls. revert p Hp.
  induction ls as [|l ls IH]; intros p Hp; simpl; [exact Hp|].
  apply IH. destruct (String.eqb (listener_type l) ty); [|exact Hp].
  by apply Hstep.
Qed.

Lemma fire_runs_listeners l0 f i ls p :
  foldl (λ p l, if String.eqb (listener_type l) (listener_type l0)
                then update i f p else p) p ls
  = update i (Nat.iter (registered l0 ls) f) p.
Proof.
  revert p. induction ls as [|l ls IH]; intros p; simpl.
  - by rewrite update_id.
  - rewrite IH. destruct (String.eqb (listener_type l) (listener_type l0)); [|reflexivity].
    rewrite update_update. apply update_ext. intros e. simpl. by rewrite iter_succ_r.
Qed.

(** Firing a focus or a blur event on a node is what the dispatch of that
    event by the host does to the page. *)
Lemma fire_is_dispatch i p :
  fire "focus" i p = hs_page (dispatch i (new_Event "focus") p) ∧
  fire "blur" i p = hs_page (dispatch i (new_Event "blur") p).
Proof.
  destruct (document p !! i) as [e|] eqn:He.
  - rewrite (dispatch_element_listeners ButtonFocus buttonFocus i _ p e) by done.
    rewrite (dispatch_element_listeners ButtonBlur buttonBlur i _ p e) by done.
    unfold fire. rewrite He. cbn [focus_event_listener String.eqb Ascii.eqb Bool.eqb].
    split.
    + apply (fire_runs_listeners ButtonFocus).
    + apply (fire_runs_listeners ButtonBlur).
  - unfold fire, dispatch, dispatch_with, event_path, invoke. simpl. by rewrite He.
Qed.

Lemma fire_scrollCalls ty i p : scrollCalls (fire ty i p) = scrollCalls p.
Proof. apply (fire_ind (λ q, scrollCalls q = scrollCalls p)); [reflexivity|]. by intros. Qed.

Lemma fire_activeElement ty i p : activeElement (fire ty i p) = activeElement p.
Proof.
  apply (fire_ind (λ q, activeElement q = activeElement p)); [reflexivity|]. by intros.
Qed.

(** The element [e'] is [e] with another inline style. *)
Lemma fire_lookup ty i p j e :
  document p !! j = Some e →
  ∃ e', document (fire ty i p) !! j = Some e' ∧ set_style (λ _, style e) e' = e.
Proof.
  intros He.
  apply (fire_ind (λ q, ∃ e', document q !! j = Some e' ∧ set_style (λ _, style e) e' = e)).
  - exists e. split; [exact He|]. by destruct e.
  - intros q f Hf (e' & He' & Heq). destruct (decide (i = j)) as [->|Hne].
    + exists (f e'). rewrite lookup_update_eq, He'. split; [reflexivity|].
      etrans; [|exact Heq]. by destruct Hf as [-> | ->].
    + exists e'. by rewrite lookup_update_ne.
Qed.

Lemma focus_steps_scrollCalls i p : scrollCalls (focus_steps i p) = scrollCalls p.
Proof.
  unfold focus_steps. destruct (document p !! i) as [e|]; [|reflexivity].
  destruct (can_take_focus e && negb (bool_decide (activeElement p = Some i)));
    [|reflexivity].
  cbv zeta. rewrite fire_scrollCalls. unfold set_activeElement. simpl.
  destruct (activeElement p); [apply fire_scrollCalls|reflexivity].
Qed.

(** Where the focus is after [focus()]. *)
Lemma focus_steps_activeElement i p e :
  document p !! i = Some e →
  activeElement (focus_steps i p)
  = if can_take_focus e then Some i else activeElement p.
Proof.
  intros He. unfold focus_steps. rewrite He.
  destruct (can_take_focus e); [|reflexivity]. simpl.
  destruct (bool_decide_reflect (activeElement p = Some i)) as [Ha|Ha]; simpl.
  - exact Ha.
  - by rewrite fire_activeElement.
Qed.

Lemma focus_steps_lookup i p j e :
  document p !! j = Some e →
  ∃ e', document (focus_steps i p) !! j = Some e' ∧ set_style (λ _, style e) e' = e.
Proof.
  intros He. unfold focus_steps.
  assert (Hsame : ∃ e', document p !! j = Some e' ∧ set_style (λ _, style e) e' = e).
  { exists e. split; [exact He|]. by destruct e. }
  destruct (document p !! i) as [ei|]; [|exact Hsame].
  destruct (can_take_focus ei && negb (bool_decide (activeElement p = Some i)));
    [|exact Hsame].
  cbv zeta.
  set (q := match activeElement p with Some old => fire "blur" old p | None => p end).
  assert (Hq : ∃ e1, document q !! j = Some e1 ∧ set_style (λ _, style e) e1 = e).
  { subst q. destruct (activeElement p) as [old|]; [by apply fire_lookup|exact Hsame]. }
  destruct Hq as (e1 & He1 & Heq1).
  destruct (fire_lookup "focus" i (set_activeElement (Some i) q) j e1 He1)
    as (e2 & He2 & Heq2).
  exists e2. split; [exact He2|]. rewrite <- Heq1, <- Heq2. reflexivity.
Qed.

Lemma can_take_focus_tabindex e :
  can_take_focus (setAttribute "tabindex" "-1" e) = focusable e.
Proof.
  unfold can_take_focus, setAttribute. simpl. rewrite lookup_insert_eq.
  change (parses_as_integer "-1") with true. apply andb_true_r.
Qed.

(** The click listener when the target and the menu are there. *)
Lemma anchorClick_target p ev this link id target menu :
  document p !! this = Some link →
  getAttribute "href" link = Some ("#" +:+ id) →
  id ≠ "" →
  getElementById id p = Some target →
  querySelector_menu p = Some menu →
  ∃ targetElement header,
    document p !! target = Some targetElement ∧
    document p !! menu = Some header ∧
    anchorClick this (mkHstate p ev)
    = (Ok tt,
       mkHstate
         (focus_steps target
            (update target (setAttribute "tabindex" "-1")
               (mkPage (document p)
                  ((offsetTop targetElement - offsetHeight header - 20, "smooth")%Z
                   :: scrollCalls p)
                  (activeElement p) (timers p) (dispatched p) (reported p))))
         (prevented ev)).
Proof.
  intros Hthis Hhref Hid Htarget Hmenu.
  destruct (getElementById_Some _ _ _ Htarget) as (et & Het & _).
  destruct (querySelector_menu_Some _ _ Hmenu) as (em & Hem & _).
  exists et, em. split; [exact Het|]. split; [exact Hem|].
  rewrite (anchorClick_fragment _ _ _ _ _ Hthis Hhref Hid), Htarget.
  unfold mbind, M_bind, bind, gets, deref, this_get, mbind, M_bind, bind, gets.
  cbn [hs_page hs_event]. rewrite Hmenu. cbn [hs_page]. rewrite Hem.
  cbn [fmap option_fmap option_map mret M_ret ret hs_page]. rewrite Het.
  cbn [fmap option_fmap option_map mret M_ret ret hs_page scrollTo modify_page focus
       hs_event].
  reflexivity.
Qed.

(** C5 fails on this page: the link to [#top10] has the focus and its
    target is a section that is not rendered.  The click is prevented and the
    window is scrolled, but [focus()] does nothing on such an element: the
    focus stays on the link. *)
Lemma fragment_click_leaves_focus_off_hidden_target :
  let p := ScrollSamples.with_hidden_target in
  document p !! 1 = Some (ScrollSamples.link (Some 0) "#top10") ∧
  getAttribute "href" (ScrollSamples.link (Some 0) "#top10") = Some "#top10" ∧
  getElementById "top10" p = Some 2 ∧
  querySelector_menu p = Some 0 ∧
  document p !! 2 = Some ScrollSamples.hidden_section ∧
  focusable ScrollSamples.hidden_section = false ∧
  activeElement p = Some 1 ∧
  ∃ s',
    anchorClick 1 (mkHstate p click_event) = (Ok tt, s') ∧
    defaultPrevented (hs_event s') = true ∧
    scrollCalls (hs_page s') = [((-84)%Z, "smooth")] ∧
    activeElement (hs_page s') = Some 1 ∧
    activeElement (hs_page s') ≠ Some 2.
Proof.
  cbv zeta. split; [reflexivity|]. split; [reflexivity|]. split; [reflexivity|].
  split; [reflexivity|]. split; [reflexivity|]. split; [reflexivity|].
  split; [reflexivity|]. eexists. split; [vm_compute; reflexivity|].
  split; [reflexivity|]. split; [reflexivity|]. split; [reflexivity|]. discriminate.
Qed.

(** The click listener when the target and the menu are there: what it
    leaves behind. *)
Lemma anchorClick_with_target
    (p : page) (ev : event) (this : nat) (link : element) (id : string)
    (target menu : nat) :
  document p !! this = Some link →
  getAttribute "href" link = Some ("#" +:+ id) →
  id ≠ "" →
  getElementById id p = Some target →
  querySelector_menu p = Some menu →
  ∃ targetElement header s',
    document p !! target = Some targetElement ∧
    document p !! menu = Some header ∧
    anchorClick this (mkHstate p ev) = (Ok tt, s') ∧
    hs_event s' = prevented ev ∧
    scrollCalls (hs_page s')
      = (offsetTop targetElement - offsetHeight header - 20, "smooth")%Z :: scrollCalls p ∧
    activeElement (hs_page s')
      = (if focusable targetElement then Some target else activeElement p) ∧
    (∃ e', document (hs_page s') !! target = Some e' ∧
           getAttribute "tabindex" e' = Some "-1") ∧
    (∀ j e, document p !! j = Some e →
       ∃ e', document (hs_page s') !! j = Some e' ∧
             set_style (λ _, style e) e'
             = if decide (j = target) then setAttribute "tabindex" "-1" e else e).
Proof.
  intros Hthis Hhref Hid Htarget Hmenu.
  destruct (anchorClick_target p ev this link id target menu Hthis Hhref Hid Htarget Hmenu)
    as (et & em & Het & Hem & Hrun).
  exists et, em. eexists. split; [exact Het|]. split; [exact Hem|].
  split; [exact Hrun|]. cbn [hs_page hs_event].
  set (p1 := mkPage (document p)
               ((offsetTop et - offsetHeight em - 20, "smooth")%Z :: scrollCalls p)
               (activeElement p) (timers p) (dispatched p) (reported p)).
  set (p2 := update target (setAttribute "tabindex" "-1") p1).
  assert (Hlookup : ∀ j e, document p !! j = Some e →
            document p2 !! j
            = Some (if decide (j = target) then setAttribute "tabindex" "-1" e else e)).
  { intros j e He. subst p2. destruct (decide (j = target)) as [->|Hne].
    - rewrite lookup_update_eq. subst p1. cbn [document]. by rewrite He.
    - rewrite lookup_update_ne by done. subst p1. exact He. }
  split; [reflexivity|].
  split; [rewrite focus_steps_scrollCalls; reflexivity|].
  split.
  { specialize (Hlookup target et Het). rewrite decide_True in Hlookup by done.
    rewrite (focus_steps_activeElement target p2 _ Hlookup), can_take_focus_tabindex.
    reflexivity. }
  split.
  { specialize (Hlookup target et Het). rewrite decide_True in Hlookup by done.
    destruct (focus_steps_lookup target p2 target _ Hlookup) as (e' & He' & Heq).
    exists e'. split; [exact He'|].
    apply (f_equal (getAttribute "tabindex")) in Heq.
    unfold getAttribute in *. cbn [attributes set_style] in Heq. rewrite Heq.
    unfold setAttribute. cbn [attributes]. apply lookup_insert_eq. }
  intros j e He. specialize (Hlookup j e He).
  destruct (focus_steps_lookup target p2 j _ Hlookup) as (e' & He' & Heq).
  exists e'. split; [exact He'|].
  destruct (decide (j = target)); exact Heq.
Qed.

(** C5, as the code has it.  A click on an anchor whose [href] is a fragment
    [#id] other than the bare [#], when an element with that id and a [.menu]
    element exist: the listener prevents the default navigation, scrolls the
    window smoothly to the target's [offsetTop] minus the menu's
    [offsetHeight] minus 20, gives the target the attribute [tabindex="-1"]
    and calls its [focus()].  The target then has the focus if the host lets
    it take it; otherwise the focus stays where it was.  The focus and blur
    listeners that run meanwhile change inline styles only: but for those and
    for the [tabindex] of the target, every element is as it was. *)
Theorem fragment_click_scrolls_and_focuses
    (p : page) (ev : event) (this : nat) (link : element) (id : string)
    (target menu : nat) :
  document p !! this = Some link →
  getAttribute "href" link = Some ("#" +:+ id) →
  id ≠ "" →
  getElementById id p = Some target →
  querySelector_menu p = Some menu →
  cancelable ev = true →
  ∃ targetElement header s',
    document p !! target = Some targetElement ∧
    document p !! menu = Some header ∧
    anchorClick this (mkHstate p ev) = (Ok tt, s') ∧
    defaultPrevented (hs_event s') = true ∧
    scrollCalls (hs_page s')
      = (offsetTop targetElement - offsetHeight header - 20, "smooth")%Z :: scrollCalls p ∧
    activeElement (hs_page s')
      = (if focusable targetElement then Some target else activeElement p) ∧
    (∃ e', document (hs_page s') !! target = Some e' ∧
           getAttribute "tabindex" e' = Some "-1") ∧
    (∀ j e, document p !! j = Some e →
       ∃ e', document (hs_page s') !! j = Some e' ∧
             set_style (λ _, style e) e'
             = if decide (j = target) then setAttribute "tabindex" "-1" e else e).
Proof.
  intros Hthis Hhref Hid Htarget Hmenu Hcanc.
  destruct (anchorClick_with_target p ev this link id target menu
              Hthis Hhref Hid Htarget Hmenu)
    as (et & em & s' & Het & Hem & Hrun & Hev & Hrest).
  exists et, em, s'. split; [exact Het|]. split; [exact Hem|]. split; [exact Hrun|].
  split; [|exact Hrest].
  rewrite Hev. unfold prevented. cbn [defaultPrevented]. rewrite Hcanc. reflexivity.
Qed.

Lemma fragment_click_scrolls_and_focuses_witness :
  ∃ targetElement header s',
    document ScrollSamples.with_menu !! 3 = Some targetElement ∧
    document ScrollSamples.with_menu !! 0 = Some header ∧
    anchorClick 1 (mkHstate ScrollSamples.with_menu click_event) = (Ok tt, s') ∧
    defaultPrevented (hs_event s') = true ∧
    scrollCalls (hs_page s')
      = (offsetTop targetElement - offsetHeight header - 20, "smooth")%Z
        :: scrollCalls ScrollSamples.with_menu ∧
    activeElement (hs_page s')
      = (if focusable targetElement then Some 3
         else activeElement ScrollSamples.with_menu) ∧
    (∃ e', document (hs_page s') !! 3 = Some e' ∧
           getAttribute "tabindex" e' = Some "-1") ∧
    (∀ j e, document ScrollSamples.with_menu !! j = Some e →
       ∃ e', document (hs_page s') !! j = Some e' ∧
             set_style (λ _, style e) e'
             = if decide (j = 3) then setAttribute "tabindex" "-1" e else e).
Proof.
  apply (fragment_click_scrolls_and_focuses ScrollSamples.with_menu click_event 1
           (ScrollSamples.link (Some 0) "#top10") "top10" 3 0).
  - reflexivity.
  - reflexivity.
  - discriminate.
  - reflexivity.
  - reflexivity.
  - reflexivity.
Defined.

(** C6. A click on an anchor whose [href] is a fragment [#id] other than the
    bare [#], when no element has that id: the listener prevents the default
    navigation and returns normally, and the page is as it was (no scroll, no
    focus change, no attribute written). *)
Theorem dangling_fragment_click_is_noop
    (p : page) (ev : event) (this : nat) (link : element) (id : string) :
  document p !! this = Some link →
  getAttribute "href" link = Some ("#" +:+ id) →
  id ≠ "" →
  getElementById id p = None →
  anchorClick this (mkHstate p ev) = (Ok tt, mkHstate p (prevented ev)) ∧
  (cancelable ev = true → defaultPrevented (prevented ev) = true).
Proof.
  intros Hthis Hhref Hid Htarget.
  rewrite (anchorClick_fragment _ _ _ _ _ Hthis Hhref Hid), Htarget.
  split; [done|]. intros Hc. unfold prevented. simpl. by rewrite Hc.
Qed.

Lemma dangling_fragment_click_is_noop_witness :
  anchorClick 2 (mkHstate ScrollSamples.with_menu click_event)
  = (Ok tt, mkHstate ScrollSamples.with_menu (prevented click_event)) ∧
  (cancelable click_event = true → defaultPrevented (prevented click_event) = true).
Proof.
  apply (dangling_fragment_click_is_noop ScrollSamples.with_menu click_event 2
           (ScrollSamples.link (Some 0) "#nowhere") "nowhere").
  - reflexivity.
  - reflexivity.
  - discriminate.
  - reflexivity.
Defined.

(** C10. Without a [.menu] element, a click on a fragment link whose target
    exists makes the listener throw on reading [offsetHeight] of null, after
    it has prevented the default navigation: the page is as it was, so
    nothing is scrolled and the focus does not move. *)
Theorem fragment_click_without_menu_throws
    (p : page) (ev : event) (this : nat) (link : element) (id : string) (target : nat) :
  document p !! this = Some link →
  getAttribute "href" link = Some ("#" +:+ id) →
  id ≠ "" →
  getElementById id p = Some target →
  querySelector_menu p = None →
  anchorClick this (mkHstate p ev)
    = (Throw (TypeError "offsetHeight"), mkHstate p (prevented ev)) ∧
  (cancelable ev = true → defaultPrevented (prevented ev) = true).
Proof.
  intros Hthis Hhref Hid Htarget Hmenu.
  rewrite (anchorClick_fragment _ _ _ _ _ Hthis Hhref Hid), Htarget.
  unfold mbind, M_bind, bind, gets, deref. cbn [hs_page]. rewrite Hmenu.
  split; [done|]. intros Hc. unfold prevented. simpl. by rewrite Hc.
Qed.

Lemma fragment_click_without_menu_throws_witness :
  anchorClick 0 (mkHstate ScrollSamples.without_menu click_event)
    = (Throw (TypeError "offsetHeight"),
       mkHstate ScrollSamples.without_menu (prevented click_event)) ∧
  (cancelable click_event = true → defaultPrevented (prevented click_event) = true).
Proof.
  apply (fragment_click_without_menu_throws ScrollSamples.without_menu click_event 0
           (ScrollSamples.link None "#top10") "top10" 1).
  - reflexivity.
  - reflexivity.
  - discriminate.
  - reflexivity.
  - reflexivity.
Defined.

(** When the host dispatches the click, the exception is reported and the
    page is otherwise as it was. *)
Example click_without_menu_is_reported :
  hs_page (dispatch 0 click_event ScrollSamples.without_menu)
  = mkPage (document ScrollSamples.without_menu) [] None [] []
      [TypeError "offsetHeight"].
Proof. vm_compute. reflexivity. Qed.

(** With the menu, the click on the link to [#top10] scrolls to
    900 - 64 - 20 and focuses the section. *)
Example click_with_menu_scrolls :
  scrollCalls (hs_page (dispatch 1 click_event ScrollSamples.with_menu))
    = [(816%Z, "smooth")] ∧
  activeElement (hs_page (dispatch 1 click_event ScrollSamples.with_menu)) = Some 3 ∧
  defaultPrevented (hs_event (dispatch 1 click_event ScrollSamples.with_menu)) = true.
Proof. vm_compute. repeat split. Qed.

(** When the clicked link has the focus and shows the focus ring, moving the
    focus to the section runs the blur listener of the link first: its
    outline is gone afterwards, and the section has the focus. *)
Example click_blurs_the_focused_link :
  let p' := hs_page (dispatch 1 click_event ScrollSamples.with_focused_link) in
  style_get "outline-style" ScrollSamples.focused_link = "solid" ∧
  (style_get "outline-style" <$> document p' !! 1) = Some "" ∧
  (style_get "outline-offset" <$> document p' !! 1) = Some "2px" ∧
  (getAttribute "tabindex" <$> document p' !! 2) = Some (Some "-1") ∧
  activeElement p' = Some 2.
Proof. vm_compute. repeat split. Qed.

(** ** The focus ring (C9) *)

Lemma style_get_set_same prop v e : style_get prop (style_set prop v e) = v.
Proof.
  unfold style_get, style_set. simpl.
  destruct (String.eqb_spec v "") as [->|_].
  - by rewrite lookup_delete_eq.
  - by rewrite lookup_insert_eq.
Qed.

Lemma style_get_set_other prop prop' v e :
  prop ≠ prop' → style_get prop (style_set prop' v e) = style_get prop e.
Proof.
  intros Hne. unfold style_get, style_set. simpl.
  destruct (String.eqb v "").
  - by rewrite lookup_delete_ne.
  - by rewrite lookup_insert_ne.
Qed.

(** What the two listeners leave in the inline style. *)
Lemma buttonFocus_style e :
  style_get "outline-color" (buttonFocus e) = "rgb(229, 9, 20)" ∧
  style_get "outline-style" (buttonFocus e) = "solid" ∧
  style_get "outline-width" (buttonFocus e) = "2px" ∧
  style_get "outline-offset" (buttonFocus e) = "2px" ∧
  ∀ prop,
    prop ≠ "outline-color" → prop ≠ "outline-style" → prop ≠ "outline-width" →
    prop ≠ "outline-offset" →
    style_get prop (buttonFocus e) = style_get prop e.
Proof.
  unfold buttonFocus, style_set_outline. cbv zeta.
  split; [|split; [|split; [|split]]].
  - rewrite !style_get_set_other by discriminate. apply style_get_set_same.
  - rewrite !style_get_set_other by discriminate. apply style_get_set_same.
  - rewrite style_get_set_other by discriminate. apply style_get_set_same.
  - apply style_get_set_same.
  - intros prop H1 H2 H3 H4.
    rewrite !style_get_set_other by assumption. reflexivity.
Qed.

Lemma buttonBlur_style e :
  style_get "outline-color" (buttonBlur e) = "" ∧
  style_get "outline-style" (buttonBlur e) = "" ∧
  style_get "outline-width" (buttonBlur e) = "" ∧
  style_get "outline-offset" (buttonBlur e) = style_get "outline-offset" e ∧
  ∀ prop,
    prop ≠ "outline-color" → prop ≠ "outline-style" → prop ≠ "outline-width" →
    prop ≠ "outline-offset" →
    style_get prop (buttonBlur e) = style_get prop e.
Proof.
  unfold buttonBlur, style_clear_outline, style_set_outline.
  split; [|split; [|split; [|split]]].
  - rewrite !style_get_set_other by discriminate. apply style_get_set_same.
  - rewrite !style_get_set_other by discriminate. apply style_get_set_same.
  - apply style_get_set_same.
  - rewrite !style_get_set_other by discriminate. reflexivity.
  - intros prop H1 H2 H3 H4.
    rewrite !style_get_set_other by assumption. reflexivity.
Qed.

(** C9 fails on this input: a button with an inline outline colour of its
    own.  After [initializeFocusManagement], a focus event and a blur event,
    its inline [outline-color] is gone instead of being the former value, and
    its inline [outline-offset], the property behind [style.outlineOffset],
    is still the one written by the focus listener. *)
Lemma blur_does_not_restore_style :
  let p1 := initializeFocusManagement FocusSamples.buttons in
  let p2 := hs_page (dispatch 0 (new_Event "focus") p1) in
  let p3 := hs_page (dispatch 0 (new_Event "blur") p2) in
  0 ∈ querySelectorAll sel_button FocusSamples.buttons ∧
  document FocusSamples.buttons !! 0 = Some FocusSamples.botao ∧
  style_get "outline-color" FocusSamples.botao = "blue" ∧
  style_get "outline-offset" FocusSamples.botao = "" ∧
  ∃ e3,
    document p3 !! 0 = Some e3 ∧
    style_get "outline-color" e3 = "" ∧
    style_get "outline-offset" e3 = "2px" ∧
    style e3 ≠ style FocusSamples.botao.
Proof.
  cbv zeta. split; [|split; [reflexivity|split; [reflexivity|split; [reflexivity|]]]].
  - apply elem_of_querySelectorAll. exists FocusSamples.botao. split; reflexivity.
  - eexists. split; [vm_compute; reflexivity|].
    split; [reflexivity|]. split; [reflexivity|].
    intros Heq. apply (f_equal (λ m, m !! "outline-offset")) in Heq.
    vm_compute in Heq. discriminate.
Qed.

(** *** Focus then blur on one element *)

Lemma iter_keeps {A} (P : A → Prop) (f : A → A) n x :
  P x → (∀ y, P y → P (f y)) → P (Nat.iter n f x).
Proof. intros Hx Hf. induction n as [|n IH]; simpl; auto. Qed.

Lemma buttonFocus_frame s e :
  set_style (λ _, s) (buttonFocus e) = set_style (λ _, s) e.
Proof. reflexivity. Qed.

Lemma buttonBlur_frame s e :
  set_style (λ _, s) (buttonBlur e) = set_style (λ _, s) e.
Proof. reflexivity. Qed.

Lemma set_style_own e : set_style (λ _, style e) e = e.
Proof. by destruct e. Qed.

(** At least one run of the focus listener followed by at least one run of
    the blur listener. *)
Lemma focus_then_blur_runs n m e :
  0 < n → 0 < m →
  let e' := Nat.iter m buttonBlur (Nat.iter n buttonFocus e) in
  style_get "outline-color" e' = "" ∧
  style_get "outline-style" e' = "" ∧
  style_get "outline-width" e' = "" ∧
  style_get "outline-offset" e' = "2px" ∧
  (∀ prop,
     prop ≠ "outline-color" → prop ≠ "outline-style" → prop ≠ "outline-width" →
     prop ≠ "outline-offset" →
     style_get prop e' = style_get prop e) ∧
  set_style (λ _, style e) e' = e.
Proof.
  intros Hn Hm. cbv zeta.
  destruct m as [|m]; [lia|]. destruct n as [|n]; [lia|].
  change (Nat.iter (S m) buttonBlur (Nat.iter (S n) buttonFocus e))
    with (buttonBlur (Nat.iter m buttonBlur (Nat.iter (S n) buttonFocus e))).
  set (x := Nat.iter m buttonBlur (Nat.iter (S n) buttonFocus e)).
  destruct (buttonBlur_style x) as (Hc & Hs & Hw & Ho & Hp).
  split; [exact Hc|]. split; [exact Hs|]. split; [exact Hw|]. split; [|split].
  - rewrite Ho. subst x.
    apply (iter_keeps (λ y, style_get "outline-offset" y = "2px")).
    + change (Nat.iter (S n) buttonFocus e)
        with (buttonFocus (Nat.iter n buttonFocus e)).
      apply buttonFocus_style.
    + intros y Hy. destruct (buttonBlur_style y) as (_ & _ & _ & -> & _). exact Hy.
  - intros prop H1 H2 H3 H4. rewrite (Hp prop H1 H2 H3 H4). subst x.
    apply (iter_keeps (λ y, style_get prop y = style_get prop e)).
    + apply (iter_keeps (λ y, style_get prop y = style_get prop e)); [reflexivity|].
      intros y Hy. destruct (buttonFocus_style y) as (_ & _ & _ & _ & Hf).
      by rewrite (Hf prop H1 H2 H3 H4).
    + intros y Hy. destruct (buttonBlur_style y) as (_ & _ & _ & _ & Hb).
      by rewrite (Hb prop H1 H2 H3 H4).
  - etrans; [|apply set_style_own]. rewrite buttonBlur_frame. subst x.
    apply (iter_keeps (λ y, set_style (λ _, style e) y = set_style (λ _, style e) e)).
    + apply (iter_keeps (λ y, set_style (λ _, style e) y = set_style (λ _, style e) e));
        [reflexivity|].
      intros y Hy. by rewrite buttonFocus_frame.
    + intros y Hy. by rewrite buttonBlur_frame.
Qed.

(** A focus event and then a blur event on a node that carries both
    listeners. *)
Lemma focus_then_blur p i e :
  document p !! i = Some e →
  ButtonFocus ∈ listeners e →
  ButtonBlur ∈ listeners e →
  ∃ e',
    document (hs_page (dispatch i (new_Event "blur")
                (hs_page (dispatch i (new_Event "focus") p)))) !! i = Some e' ∧
    style_get "outline-color" e' = "" ∧
    style_get "outline-style" e' = "" ∧
    style_get "outline-width" e' = "" ∧
    style_get "outline-offset" e' = "2px" ∧
    (∀ prop,
       prop ≠ "outline-color" → prop ≠ "outline-style" → prop ≠ "outline-width" →
       prop ≠ "outline-offset" →
       style_get prop e' = style_get prop e) ∧
    set_style (λ _, style e) e' = e.
Proof.
  intros He Hfocus Hblur.
  rewrite (dispatch_element_listeners ButtonFocus buttonFocus i _ p e) by done.
  cbn [hs_page].
  set (e1 := Nat.iter (registered ButtonFocus (listeners e)) buttonFocus e).
  assert (He1 : document (update i (Nat.iter (registered ButtonFocus (listeners e))
                            buttonFocus) p) !! i = Some e1).
  { by rewrite lookup_update_eq, He. }
  assert (Hl1 : listeners e1 = listeners e).
  { apply (iter_keeps (λ x, listeners x = listeners e)); done. }
  rewrite (dispatch_element_listeners ButtonBlur buttonBlur i _ _ e1) by done.
  cbn [hs_page]. rewrite lookup_update_eq, He1. cbn [fmap option_fmap option_map].
  eexists. split; [reflexivity|]. rewrite Hl1.
  apply focus_then_blur_runs; by apply registered_pos.
Qed.

(** *** Registration by [initializeFocusManagement] *)

Lemma foldl_update_length (f : element → element) nodes p :
  length (document (foldl (λ p j, update j f p) p nodes)) = length (document p).
Proof.
  revert p. induction nodes as [|j nodes IH]; intros p; simpl; [done|].
  rewrite IH. apply length_alter.
Qed.

Lemma ancestors_ext d d' fuel i :
  (∀ j, parentNode <$> d' !! j = parentNode <$> d !! j) →
  ancestors d' fuel i = ancestors d fuel i.
Proof.
  intros Hp. revert i. induction fuel as [|fuel IH]; intros i; simpl; [done|].
  specialize (Hp i).
  destruct (d' !! i) as [e'|], (d !! i) as [e|]; simpl in Hp; try done.
  injection Hp as ->. destruct (parentNode e); [|done]. by rewrite IH.
Qed.

Lemma existsb_ext_list {A} (f g : A → bool) l :
  (∀ x, f x = g x) → existsb f l = existsb g l.
Proof. intros H. induction l as [|x l IH]; simpl; [done|]. by rewrite H, IH. Qed.

(** The cards loop does not change what the buttons selector sees. *)
Lemma sel_button_after_cards p i e :
  document p !! i = Some e →
  sel_button (document p) i e = true →
  ∃ ec,
    document (foldl init_card p (querySelectorAll sel_card p)) !! i = Some ec ∧
    sel_button (document (foldl init_card p (querySelectorAll sel_card p))) i ec = true ∧
    style ec = style e.
Proof.
  intros He Hsel. set (cards := querySelectorAll sel_card p).
  assert (Hlook : ∀ j, document (foldl init_card p cards) !! j
                       = Nat.iter (count_occ Nat.eq_dec cards j) init_card_element
                           <$> document p !! j).
  { intros j. unfold init_card. apply foldl_update_lookup. }
  assert (Hshape : ∀ n x,
            tagName (Nat.iter n init_card_element x) = tagName x ∧
            parentNode (Nat.iter n init_card_element x) = parentNode x ∧
            classList (Nat.iter n init_card_element x) = classList x ∧
            style (Nat.iter n init_card_element x) = style x).
  { intros n x.
    apply (iter_keeps (λ y, tagName y = tagName x ∧ parentNode y = parentNode x ∧
                            classList y = classList x ∧ style y = style x)); [done|].
    intros y Hy. exact Hy. }
  exists (Nat.iter (count_occ Nat.eq_dec cards i) init_card_element e).
  destruct (Hshape (count_occ Nat.eq_dec cards i) e) as (Ht & _ & Hc & Hs).
  split; [by rewrite Hlook, He|]. split; [|exact Hs].
  unfold sel_button in *. unfold has_class in *. rewrite Ht, Hc.
  unfold init_card. rewrite foldl_update_length.
  rewrite (ancestors_ext (document p)).
  - erewrite existsb_ext_list; [exact Hsel|].
    intros j. unfold node_has_class.
    fold (init_card) . rewrite Hlook. destruct (document p !! j) as [x|]; [|done].
    simpl. unfold has_class. by destruct (Hshape (count_occ Nat.eq_dec cards j) x) as (_ & _ & -> & _).
  - intros j. fold init_card. rewrite Hlook. destruct (document p !! j) as [x|]; [|done].
    simpl. by destruct (Hshape (count_occ Nat.eq_dec cards j) x) as (_ & -> & _).
Qed.

(** Every element matched by [.botao, .menu a] gets the focus and the blur
    listener, and keeps its inline style. *)
Lemma initializeFocusManagement_registers p i e :
  document p !! i = Some e →
  sel_button (document p) i e = true →
  ∃ e1,
    document (initializeFocusManagement p) !! i = Some e1 ∧
    style e1 = style e ∧
    ButtonFocus ∈ listeners e1 ∧ ButtonBlur ∈ listeners e1.
Proof.
  intros He Hsel. unfold initializeFocusManagement.
  destruct (sel_button_after_cards p i e He Hsel) as (ec & Hec & Hselc & Hsc).
  set (pc := foldl init_card p (querySelectorAll sel_card p)) in *.
  set (buttons := querySelectorAll sel_button pc).
  assert (Hin : i ∈ buttons) by (apply elem_of_querySelectorAll; eauto).
  apply count_occ_pos in Hin.
  destruct (count_occ Nat.eq_dec buttons i) as [|k] eqn:Hk; [lia|].
  exists (Nat.iter (S k) init_button_element ec). split_and!.
  - unfold init_button. by rewrite foldl_update_lookup, Hec, Hk.
  - rewrite <- Hsc. apply (iter_keeps (λ y, style y = style ec)); [done|].
    intros y Hy. exact Hy.
  - simpl. set_solver.
  - simpl. set_solver.
Qed.

(** C9, as the code has it.  For every element matched as a button or menu
    link by [initializeFocusManagement], after a focus event followed by a
    blur event the inline style of the element has none of the three
    properties that [style.outline] stands for ([outline-color],
    [outline-style], [outline-width]), whatever they were before the focus;
    its [outline-offset] is still the [2px] written by the focus listener;
    every other inline style property has the value it had before the focus;
    and nothing of the element but its inline style has changed. *)
Theorem blur_removes_focus_outline (p : page) (i : nat) (e : element) :
  document p !! i = Some e →
  sel_button (document p) i e = true →
  let p1 := initializeFocusManagement p in
  let p2 := hs_page (dispatch i (new_Event "focus") p1) in
  let p3 := hs_page (dispatch i (new_Event "blur") p2) in
  ∃ e1 e3,
    document p1 !! i = Some e1 ∧
    document p3 !! i = Some e3 ∧
    style_get "outline-color" e3 = "" ∧
    style_get "outline-style" e3 = "" ∧
    style_get "outline-width" e3 = "" ∧
    style_get "outline-offset" e3 = "2px" ∧
    (∀ prop,
       prop ≠ "outline-color" → prop ≠ "outline-style" → prop ≠ "outline-width" →
       prop ≠ "outline-offset" →
       style_get prop e3 = style_get prop e1) ∧
    set_style (λ _, style e1) e3 = e1.
Proof.
  intros He Hsel. cbv zeta.
  destruct (initializeFocusManagement_registers p i e He Hsel)
    as (e1 & He1 & _ & Hfocus & Hblur).
  destruct (focus_then_blur _ i e1 He1 Hfocus Hblur) as (e3 & He3 & Hrest).
  exists e1, e3. split; [exact He1|]. split; [exact He3|]. exact Hrest.
Qed.

Lemma blur_removes_focus_outline_witness :
  ∃ e1 e3,
    document (initializeFocusManagement FocusSamples.buttons) !! 2 = Some e1 ∧
    document (hs_page (dispatch 2 (new_Event "blur")
                (hs_page (dispatch 2 (new_Event "focus")
                   (initializeFocusManagement FocusSamples.buttons))))) !! 2 = Some e3 ∧
    style_get "outline-color" e3 = "" ∧
    style_get "outline-style" e3 = "" ∧
    style_get "outline-width" e3 = "" ∧
    style_get "outline-offset" e3 = "2px" ∧
    (∀ prop,
       prop ≠ "outline-color" → prop ≠ "outline-style" → prop ≠ "outline-width" →
       prop ≠ "outline-offset" →
       style_get prop e3 = style_get prop e1) ∧
    set_style (λ _, style e1) e3 = e1.
Proof.
  apply (blur_removes_focus_outline FocusSamples.buttons 2 FocusSamples.menu_link).
  - reflexivity.
  - reflexivity.
Defined.

(** ** checkImageExists (C7) *)

(** C7. For every URL, [checkImageExists] resolves to [true] exactly when the
    HEAD request completes with a response whose [ok] flag is set; it resolves
    to [false] for every other response and for every exception thrown by the
    request; and it never rejects. *)
Theorem checkImageExists_spec (fetch : string → string → settled response) (url : string) :
  (checkImageExists fetch url = Fulfilled true ↔
     ∃ r, fetch url "HEAD" = Fulfilled r ∧ ok r = true) ∧
  (checkImageExists fetch url = Fulfilled false ↔
     (∃ r, fetch url "HEAD" = Fulfilled r ∧ ok r = false) ∨
     (∃ x, fetch url "HEAD" = Rejected x)) ∧
  (∀ x, checkImageExists fetch url ≠ Rejected x).
Proof.
  unfold checkImageExists. destruct (fetch url "HEAD") as [r|x|] eqn:Hf.
  - split_and!.
    + split; [intros [= Hok]; by exists r|]. by intros (r' & [= <-] & ->).
    + split; [intros [= Hok]; left; by exists r|].
      intros [(r' & [= <-] & ->)|(x & [=])]. done.
    + done.
  - split_and!.
    + split; [done|]. by intros (r & [=] & _).
    + split; [intros _; right; by exists x|done].
    + done.
  - split_and!.
    + split; [done|]. by intros (r & [=] & _).
    + split; [done|]. by intros [(r & [=] & _)|(x & [=])].
    + done.
Qed.

Example checkImageExists_samples :
  checkImageExists sample_fetch "poster.jpg" = Fulfilled true ∧
  checkImageExists sample_fetch "gone.jpg" = Fulfilled false ∧
  checkImageExists sample_fetch "offline.jpg" = Fulfilled false ∧
  checkImageExists sample_fetch "slow.jpg" = Pending.
Proof. repeat split. Qed.

(** ** The placeholder as markup (C8) *)

(** *** The data URI carries the markup unchanged *)

Lemma percent_escape_decodes (a : ascii) :
  if uri_unreserved a then Ascii.eqb a "%" = false
  else hex_value (hex_digit (N_of_ascii a / 16)) = Some (N_of_ascii a / 16)%N ∧
       hex_value (hex_digit (N_of_ascii a mod 16)) = Some (N_of_ascii a mod 16)%N ∧
       ascii_of_N (16 * (N_of_ascii a / 16) + N_of_ascii a mod 16) = a.
Proof.
  destruct a as [[] [] [] [] [] [] [] []]; vm_compute; repeat split.
Qed.

Lemma decode_encode (s : string) :
  decodeURIComponent (encodeURIComponent s) = Some s.
Proof.
  induction s as [|a s IH]; [done|].
  pose proof (percent_escape_decodes a) as Ha.
  cbn [encodeURIComponent]. destruct (uri_unreserved a).
  - cbn [decodeURIComponent]. by rewrite Ha, IH.
  - destruct Ha as (Hh & Hl & Hr). unfold percent_escape.
    rewrite !append_cons, append_empty. cbn [decodeURIComponent].
    rewrite Ascii.eqb_refl. by rewrite Hh, Hl, IH, Hr.
Qed.

Lemma strip_prefix_app p s : strip_prefix p (p +:+ s) = Some s.
Proof.
  induction p as [|a p IH]; [done|]. rewrite append_cons. cbn [strip_prefix].
  by rewrite Ascii.eqb_refl.
Qed.

Lemma data_uri_markup_data_uri w h alt :
  data_uri_markup (Placeholder.data_uri w h alt) = Some (Placeholder.svg w h alt).
Proof.
  unfold data_uri_markup, Placeholder.data_uri.
  rewrite strip_prefix_app. apply decode_encode.
Qed.

(** *** UTF-8 *)

Lemma utf8_run_app P st s1 s2 :
  Utf8.run P st (s1 +:+ s2)
  = match Utf8.run P st s1 with Some st' => Utf8.run P st' s2 | None => None end.
Proof.
  revert st. induction s1 as [|a s1 IH]; intros st; [reflexivity|].
  rewrite append_cons. cbn [Utf8.run]. destruct (Utf8.step P st a); [apply IH|reflexivity].
Qed.

(** A decoder that accepts fewer code points stops at least as early. *)
Lemma utf8_step_mono (P Q : N → bool) st a st' :
  (∀ c, P c = true → Q c = true) →
  Utf8.step P st a = Some st' → Utf8.step Q st a = Some st'.
Proof.
  intros HPQ. unfold Utf8.step. destruct st as [|more bits least].
  - destruct (N_of_ascii a <? 128)%N; [|exact (λ H, H)].
    destruct (P (N_of_ascii a)) eqn:HP; [|discriminate].
    by rewrite (HPQ _ HP).
  - destruct (in_range 128 191 (N_of_ascii a)); [|discriminate].
    destruct more as [|more]; [|exact (λ H, H)]. unfold Utf8.complete.
    destruct (P (bits * 64 + (N_of_ascii a - 128))%N) eqn:HP.
    + by rewrite (HPQ _ HP).
    + rewrite andb_false_r. discriminate.
Qed.

Lemma utf8_run_mono (P Q : N → bool) s st st' :
  (∀ c, P c = true → Q c = true) →
  Utf8.run P st s = Some st' → Utf8.run Q st s = Some st'.
Proof.
  intros HPQ. revert st. induction s as [|a s IH]; intros st; [exact (λ H, H)|].
  cbn [Utf8.run]. destruct (Utf8.step P st a) as [st1|] eqn:Hst; [|discriminate].
  rewrite (utf8_step_mono P Q _ _ _ HPQ Hst). apply IH.
Qed.

Lemma all_code_points_run P s :
  Utf8.all_code_points P s = true → Utf8.run P Utf8.Boundary s = Some Utf8.Boundary.
Proof.
  unfold Utf8.all_code_points.
  destruct (Utf8.run P Utf8.Boundary s) as [[|]|]; [reflexivity|discriminate..].
Qed.

Lemma all_code_points_app P s1 s2 :
  Utf8.all_code_points P s1 = true →
  Utf8.all_code_points P (s1 +:+ s2) = Utf8.all_code_points P s2.
Proof.
  intros H%all_code_points_run. unfold Utf8.all_code_points.
  by rewrite utf8_run_app, H.
Qed.

Lemma plain_code_point_xml c : plain_code_point c = true → Xml.is_xml_char c = true.
Proof.
  unfold plain_code_point. destruct (Xml.is_xml_char c); [reflexivity|discriminate].
Qed.

(** Every byte of plain text is plain. *)
Lemma utf8_step_plain_byte st a st' :
  Utf8.step plain_code_point st a = Some st' → plain_text_char a = true.
Proof.
  intros H. destruct a as [[] [] [] [] [] [] [] []];
    first [ reflexivity | destruct st; cbv in H; discriminate H ].
Qed.

Lemma utf8_run_plain_bytes s st st' :
  Utf8.run plain_code_point st s = Some st' → Xml.all_chars plain_text_char s = true.
Proof.
  revert st. induction s as [|a s IH]; intros st; [reflexivity|].
  cbn [Utf8.run Xml.all_chars].
  destruct (Utf8.step plain_code_point st a) as [st1|] eqn:Hst; [|discriminate].
  intros Hrun. rewrite (utf8_step_plain_byte _ _ _ Hst). exact (IH _ Hrun).
Qed.

Lemma plain_text_bytes s : plain_text s = true → Xml.all_chars plain_text_char s = true.
Proof. intros H%all_code_points_run. exact (utf8_run_plain_bytes _ _ _ H). Qed.

Lemma plain_text_xml s :
  plain_text s = true → Utf8.run Xml.is_xml_char Utf8.Boundary s = Some Utf8.Boundary.
Proof.
  intros H%all_code_points_run.
  exact (utf8_run_mono _ _ _ _ _ plain_code_point_xml H).
Qed.

(** *** Running the recogniser over the template *)

Section Recogniser.

Import Xml.

Lemma run_app st s1 s2 :
  run st (s1 +:+ s2) = match run st s1 with Some st' => run st' s2 | None => None end.
Proof.
  revert st. induction s1 as [|a s1 IH]; intros st; [done|].
  rewrite append_cons. cbn [run]. destruct (step st a); [apply IH|done].
Qed.

Lemma all_chars_app f s1 s2 :
  all_chars f (s1 +:+ s2) = all_chars f s1 && all_chars f s2.
Proof.
  induction s1 as [|a s1 IH]; [done|].
  rewrite append_cons. cbn [all_chars]. by rewrite IH, andb_assoc.
Qed.

(** The decimal digits of a number are digits. *)
Lemma string_of_uint_digits d : all_chars is_digit (NilEmpty.string_of_uint d) = true.
Proof. induction d; cbn [NilEmpty.string_of_uint all_chars]; done. Qed.

Lemma number_to_string_digits n : all_chars is_digit (number_to_string n) = true.
Proof. apply string_of_uint_digits. Qed.

(** A digit is a character of its own. *)
Lemma utf8_step_digit a :
  is_digit a = true → Utf8.step is_xml_char Utf8.Boundary a = Some Utf8.Boundary.
Proof.
  destruct a as [[] [] [] [] [] [] [] []]; vm_compute; intros H;
    (discriminate H || reflexivity).
Qed.

Lemma utf8_run_digits s :
  all_chars is_digit s = true →
  Utf8.run is_xml_char Utf8.Boundary s = Some Utf8.Boundary.
Proof.
  induction s as [|a s IH]; [reflexivity|]. cbn [all_chars Utf8.run].
  intros [Ha Hs]%andb_prop. rewrite (utf8_step_digit _ Ha). by apply IH.
Qed.

(** A digit inside a quoted attribute value. *)
Lemma step_value_digit o r name a :
  is_digit a = true →
  step (mkState o r (AttrValue name dquote_char)) a
  = Some (mkState o r (AttrValue name dquote_char)).
Proof.
  destruct a as [[] [] [] [] [] [] [] []]; vm_compute; intros H;
    (discriminate H || reflexivity).
Qed.

Lemma run_value_digits o r name s :
  all_chars is_digit s = true →
  run (mkState o r (AttrValue name dquote_char)) s
  = Some (mkState o r (AttrValue name dquote_char)).
Proof.
  induction s as [|a s IH]; [done|]. cbn [all_chars run].
  intros [Ha Hs]%andb_prop. rewrite (step_value_digit _ _ _ _ Ha). by apply IH.
Qed.

(** Plain character data inside an element. *)
Lemma step_content_plain top o r b a :
  plain_text_char a = true →
  ∃ b', step (mkState (top :: o) r (Content b)) a
        = Some (mkState (top :: o) r (Content b')).
Proof.
  destruct a as [[] [] [] [] [] [] [] []]; vm_compute; intros H;
    (discriminate H || (eexists; reflexivity)).
Qed.

Lemma run_content_plain top o r s b :
  all_chars plain_text_char s = true →
  ∃ b', run (mkState (top :: o) r (Content b)) s
        = Some (mkState (top :: o) r (Content b')).
Proof.
  revert b. induction s as [|a s IH]; intros b; [by exists b|].
  cbn [all_chars run]. intros [Ha Hs]%andb_prop.
  destruct (step_content_plain top o r b a Ha) as [b1 ->]. by apply IH.
Qed.

(** The template up to the alternative text: its structure, and its
    characters. *)
Lemma run_svg_head w h :
  run initial (Placeholder.svg_head w h)
  = Some (mkState ["text"; "svg"] false (Content 0)).
Proof.
  unfold Placeholder.svg_head, Placeholder.q. rewrite !append_assoc.
  repeat (rewrite run_app;
          first [ rewrite run_value_digits by apply number_to_string_digits
                | match goal with
                  | |- context [run ?st ?s] =>
                      let v := eval vm_compute in (run st s) in
                      change (run st s) with v
                  end ];
          cbv beta iota).
  reflexivity.
Qed.

Lemma utf8_run_svg_head w h :
  Utf8.run is_xml_char Utf8.Boundary (Placeholder.svg_head w h) = Some Utf8.Boundary.
Proof.
  unfold Placeholder.svg_head, Placeholder.q. rewrite !append_assoc.
  repeat (rewrite utf8_run_app;
          first [ rewrite utf8_run_digits by apply number_to_string_digits
                | match goal with
                  | |- context [Utf8.run is_xml_char ?st ?s] =>
                      let v := eval vm_compute in (Utf8.run is_xml_char st s) in
                      change (Utf8.run is_xml_char st s) with v
                  end ];
          cbv beta iota).
  reflexivity.
Qed.

Lemma run_svg_tail b :
  run (mkState ["text"; "svg"] false (Content b)) Placeholder.svg_tail
  = Some (mkState [] true (Content 0)).
Proof. reflexivity. Qed.

(** With alternative text that needs no escaping the markup is
    well-formed. *)
Lemma svg_well_formed w h alt :
  plain_text alt = true →
  well_formed (Placeholder.svg w h alt) = true.
Proof.
  intros Halt. unfold well_formed, Placeholder.svg.
  apply andb_true_intro. split.
  - unfold Utf8.all_code_points.
    rewrite utf8_run_app, utf8_run_svg_head, utf8_run_app, (plain_text_xml _ Halt).
    reflexivity.
  - unfold well_structured. rewrite run_app, run_svg_head, run_app.
    destruct (run_content_plain "text" ["svg"] false alt 0 (plain_text_bytes _ Halt))
      as [b ->].
    by rewrite run_svg_tail.
Qed.

Lemma not_available_plain : plain_text not_available = true.
Proof. reflexivity. Qed.

End Recogniser.

(** *** What the error listener writes *)

(** With alternative text that needs no escaping, the [src] written by the
    error listener is a data URI whose payload is well-formed markup. *)
Lemma placeholder_well_formed_plain_alt (e : element) :
  plain_text (alt e) = true →
  ∃ markup,
    data_uri_markup (src (imgError e)) = Some markup ∧
    Xml.well_formed markup = true.
Proof.
  intros Halt. destruct (imgError_spec e) as (_ & _ & Ha & Hs).
  rewrite Hs, data_uri_markup_data_uri. eexists. split; [reflexivity|].
  apply svg_well_formed. rewrite Ha.
  unfold plain_text. rewrite all_code_points_app; [exact Halt|].
  apply not_available_plain.
Qed.

(** C8 fails on the code.  The alternative text is interpolated into the
    markup as it is: for a deferred-loading image with the alternative text
    'Fast & Furious 9' whose load has failed, the scan runs the error
    listener, and the [src] it writes is a data URI whose payload is not
    well-formed markup (the ampersand does not start a reference). *)
Theorem placeholder_breaks_on_ampersand :
  let p := checkForBrokenImages (Samples.page_of [poster_ampersand]) in
  alt poster_ampersand = "Fast & Furious 9" ∧
  ∃ img markup,
    document p !! 0 = Some img ∧
    img = imgError poster_ampersand ∧
    alt img = "Imagem não disponível: Fast & Furious 9" ∧
    data_uri_markup (src img) = Some markup ∧
    markup = Placeholder.svg 400 300 "Imagem não disponível: Fast & Furious 9" ∧
    Xml.well_formed markup = false.
Proof.
  cbv zeta. split; [reflexivity|].
  exists (imgError poster_ampersand). eexists.
  split; [vm_compute; reflexivity|]. split; [reflexivity|].
  split; [reflexivity|]. split; [vm_compute; reflexivity|].
  split; [vm_compute; reflexivity|]. vm_compute. reflexivity.
Qed.

(** The same with a less-than sign, and, for comparison, with text that needs
    no escaping. *)
Example placeholder_samples :
  Xml.well_formed (Placeholder.svg 400 300 (not_available +:+ "3 < 4")) = false ∧
  Xml.well_formed (Placeholder.svg 400 300 (not_available +:+ "Poster")) = true.
Proof. split; vm_compute; reflexivity. Qed.

(** * Further properties of the script *)

(** ** What every step preserves

    A relation on elements that is a preorder, that the host's own updates
    respect and that each primitive mutation used by the script respects, holds
    between every element before and after any run of the page. *)

Section Frame.

Variable R : element → element → Prop.

Hypothesis R_refl : ∀ e, R e e.
Hypothesis R_trans : ∀ e1 e2 e3, R e1 e2 → R e2 e3 → R e1 e3.
Hypothesis R_host : ∀ e e', same_authored e e' → R e e'.
Hypothesis R_add_class : ∀ c e,
  c = "img-loading" ∨ c = "img-missing" → R e (set_classList (ClassList.add c) e).
Hypothesis R_remove_class : ∀ e,
  R e (set_classList (ClassList.remove "img-loading") e).
Hypothesis R_setAttribute : ∀ name v e,
  name = "alt" ∨ name = "src" ∨ name = "tabindex" → R e (setAttribute name v e).
Hypothesis R_style_set : ∀ prop v e,
  prop = "outline-color" ∨ prop = "outline-style" ∨ prop = "outline-width"
  ∨ prop = "outline-offset" →
  R e (style_set prop v e).
Hypothesis R_addEventListener : ∀ l e, R e (addEventListener l e).

#[local] Instance framed_refl : Reflexive (framed R).
Proof. intros p. apply Forall_Forall2_diag, Forall_forall. auto. Qed.

#[local] Instance framed_trans : Transitive (framed R).
Proof.
  intros p1 p2 p3 H12 H23. unfold framed in *.
  eapply Forall2_trans; [|exact H12|exact H23]. apply R_trans.
Qed.

Lemma framed_same_document p p' : document p' = document p → framed R p p'.
Proof. intros Hd. unfold framed. rewrite Hd. apply (framed_refl p). Qed.

Lemma framed_update i f p : (∀ e, R e (f e)) → framed R p (update i f p).
Proof.
  intros Hf. unfold framed, update. simpl.
  apply Forall2_same_length_lookup. split; [by rewrite length_alter|].
  intros j x y Hx Hy. destruct (decide (i = j)) as [->|Hne].
  - rewrite list_lookup_alter_eq, Hx in Hy. injection Hy as <-. apply Hf.
  - rewrite list_lookup_alter_ne, Hx in Hy by done. injection Hy as <-. apply R_refl.
Qed.

Lemma framed_foldl {A} (f : page → A → page) l p :
  (∀ p a, framed R p (f p a)) → framed R p (foldl f p l).
Proof.
  intros Hf. revert p. induction l as [|a l IH]; intros p; simpl; [done|].
  etrans; [apply Hf|apply IH].
Qed.

(** *** The mutations of the listeners and of the initializers *)

Lemma R_imgLoad e : R e (imgLoad e).
Proof. apply R_remove_class. Qed.

Lemma R_imgError e : R e (imgError e).
Proof.
  unfold imgError. cbv zeta.
  eapply R_trans; [apply R_remove_class|].
  eapply R_trans; [apply (R_add_class "img-missing"); auto|].
  eapply R_trans; [apply (R_setAttribute "alt"); auto|].
  apply R_setAttribute; auto.
Qed.

Lemma R_style_set_outline color style width e :
  R e (style_set_outline color style width e).
Proof.
  unfold style_set_outline.
  eapply R_trans; [apply (R_style_set "outline-color"); by left|].
  eapply R_trans; [apply (R_style_set "outline-style"); right; by left|].
  apply (R_style_set "outline-width"). right. right. by left.
Qed.

Lemma R_buttonFocus e : R e (buttonFocus e).
Proof.
  unfold buttonFocus. cbv zeta.
  eapply R_trans; [apply R_style_set_outline|].
  apply (R_style_set "outline-offset"). by repeat right.
Qed.

Lemma R_buttonBlur e : R e (buttonBlur e).
Proof. apply R_style_set_outline. Qed.

Lemma R_init_element e : R e (init_element e).
Proof.
  unfold init_element. cbv zeta.
  eapply R_trans; [|apply R_addEventListener].
  eapply R_trans; [|apply R_addEventListener].
  destruct (negb (complete e)); [apply R_add_class; auto|apply R_refl].
Qed.

Lemma R_init_card_element e : R e (init_card_element e).
Proof.
  unfold init_card_element.
  eapply R_trans; [apply (R_setAttribute "tabindex"); auto|apply R_addEventListener].
Qed.

Lemma R_init_button_element e : R e (init_button_element e).
Proof.
  unfold init_button_element.
  eapply R_trans; apply R_addEventListener.
Qed.

(** *** Listener bodies *)

Lemma bf_ret {A} (a : A) : body_framed R (mret a).
Proof. intros s. reflexivity. Qed.

Lemma bf_throw {A} x : body_framed R (@throw A x).
Proof. intros s. reflexivity. Qed.

Lemma bf_gets {A} (f : page → A) : body_framed R (gets f).
Proof. intros s. reflexivity. Qed.

Lemma bf_modify_event f : body_framed R (modify_event f).
Proof. intros s. reflexivity. Qed.

Lemma bf_modify_page f : (∀ p, framed R p (f p)) → body_framed R (modify_page f).
Proof. intros Hf s. apply Hf. Qed.

Lemma bf_bind {A B} (m : M A) (k : A → M B) :
  body_framed R m → (∀ a, body_framed R (k a)) → body_framed R (m ≫= k).
Proof.
  intros Hm Hk s. unfold mbind, M_bind, bind.
  specialize (Hm s). destruct (m s) as [[a|x] s1]; simpl in *; [|done].
  etrans; [exact Hm|apply Hk].
Qed.

Lemma bf_deref {A} o prop (f : element → A) : body_framed R (deref o prop f).
Proof.
  unfold deref. destruct o as [i|]; [|apply bf_throw].
  apply bf_bind; [apply bf_gets|].
  intros [a|]; [apply bf_ret|apply bf_throw].
Qed.

Lemma framed_fire ty i p : framed R p (fire ty i p).
Proof.
  apply (fire_ind (λ q, framed R p q)); [reflexivity|].
  intros q f Hf Hq. etrans; [exact Hq|]. apply framed_update.
  destruct Hf as [-> | ->]; [apply R_buttonFocus|apply R_buttonBlur].
Qed.

Lemma framed_focus_steps i p : framed R p (focus_steps i p).
Proof.
  unfold focus_steps. destruct (document p !! i) as [e|]; [|reflexivity].
  destruct (can_take_focus e && negb (bool_decide (activeElement p = Some i)));
    [|reflexivity].
  cbv zeta. etrans; [|apply framed_fire].
  set (q := match activeElement p with Some old => fire "blur" old p | None => p end).
  trans q; [|by apply framed_same_document].
  subst q. destruct (activeElement p) as [old|]; [apply framed_fire|reflexivity].
Qed.

Lemma bf_anchorClick this : body_framed R (anchorClick this).
Proof.
  unfold anchorClick. apply bf_bind; [apply bf_gets|].
  intros [[href|]|]; [|apply bf_throw|apply bf_ret].
  destruct (negb (href =? "#")%string && startsWith "#" href); [|apply bf_ret].
  apply bf_bind; [apply bf_modify_event|]. intros _.
  apply bf_bind; [apply bf_gets|].
  intros [target|]; [|apply bf_ret].
  apply bf_bind; [apply bf_gets|]. intros menu.
  apply bf_bind; [apply bf_deref|]. intros headerHeight.
  apply bf_bind; [apply bf_deref|]. intros top.
  apply bf_bind.
  { apply bf_modify_page. intros p. by apply framed_same_document. }
  intros _. apply bf_bind.
  { apply bf_modify_page. intros p. apply framed_update.
    intros e. apply R_setAttribute. auto. }
  intros _. apply bf_modify_page. intros p. apply framed_focus_steps.
Qed.

Lemma bf_cardKeydown click this :
  (∀ i p, framed R p (click i p)) → body_framed R (cardKeydown click this).
Proof.
  intros Hclick. unfold cardKeydown.
  apply bf_bind; [intros s; reflexivity|]. intros e.
  destruct ((key e =? "Enter")%string || (key e =? " ")%string); [|apply bf_ret].
  apply bf_bind; [apply bf_modify_event|]. intros _.
  apply bf_modify_page. intros p. apply Hclick.
Qed.

Lemma bf_listener click l this :
  (∀ i p, framed R p (click i p)) → body_framed R (listener_body click l this).
Proof.
  intros Hclick. destruct l; simpl.
  - apply bf_modify_page. intros p. apply framed_update, R_imgLoad.
  - apply bf_modify_page. intros p. apply framed_update, R_imgError.
  - apply bf_anchorClick.
  - by apply bf_cardKeydown.
  - apply bf_modify_page. intros p. apply framed_update, R_buttonFocus.
  - apply bf_modify_page. intros p. apply framed_update, R_buttonBlur.
Qed.

(** *** Dispatch, the functions of the script, the host *)

Lemma framed_dispatch_with body i ev p :
  (∀ l j, body_framed R (body l j)) → framed R p (hs_page (dispatch_with body i ev p)).
Proof.
  intros Hbody. unfold dispatch_with.
  assert (Hfold : ∀ {A} (f : hstate → A → hstate) l s,
            (∀ s a, framed R (hs_page s) (hs_page (f s a))) →
            framed R (hs_page s) (hs_page (foldl f s l))).
  { intros A f l. induction l as [|a l IH]; intros s Hf; simpl; [done|].
    etrans; [apply Hf|by apply IH]. }
  apply (Hfold _ _ _ (mkHstate p ev)).
  intros s j. unfold invoke. destruct (document (hs_page s) !! j); [|done].
  apply Hfold. intros s1 l.
  destruct (listener_type l =? ev_type ev)%string; [|done].
  unfold run_listener. specialize (Hbody l j s1).
  destruct (body l j s1) as [[[]|x] s2]; simpl in *; done.
Qed.

Lemma framed_click i p : framed R p (click i p).
Proof. apply framed_dispatch_with. intros l j. by apply bf_listener. Qed.

Lemma framed_dispatch i ev p : framed R p (hs_page (dispatch i ev p)).
Proof.
  apply framed_dispatch_with. intros l j. apply bf_listener, framed_click.
Qed.

Lemma framed_dispatchEvent i ev p : framed R p (dispatchEvent i ev p).
Proof.
  unfold dispatchEvent.
  etrans; [|apply framed_dispatch]. by apply framed_same_document.
Qed.

Lemma framed_checkForBrokenImages p : framed R p (checkForBrokenImages p).
Proof.
  unfold checkForBrokenImages. apply framed_foldl. clear p. intros p img.
  unfold check_image. destruct (document p !! img) as [e|]; [|done].
  destruct (has_class "img-missing" e); [done|].
  destruct (complete e && zero_sized e); [apply framed_dispatchEvent|].
  destruct (negb (complete e)); [|done]. by apply framed_same_document.
Qed.

Lemma framed_fire_timer k p : framed R p (fire_timer k p).
Proof.
  unfold fire_timer. destruct (timers p !! k) as [img|]; [|done].
  unfold recheck_image. simpl. destruct (document p !! img) as [e|].
  - destruct (zero_sized e).
    + etrans; [|apply framed_dispatchEvent]. by apply framed_same_document.
    + by apply framed_same_document.
  - by apply framed_same_document.
Qed.

Lemma framed_initializeImageHandling p : framed R p (initializeImageHandling p).
Proof.
  unfold initializeImageHandling.
  etrans; [|apply framed_checkForBrokenImages].
  apply framed_foldl. intros p1 img. apply framed_update, R_init_element.
Qed.

Lemma framed_initializeSmoothScroll p : framed R p (initializeSmoothScroll p).
Proof.
  unfold initializeSmoothScroll.
  apply (framed_foldl (λ p link, update link (addEventListener AnchorClick) p)).
  intros p1 link. apply framed_update, R_addEventListener.
Qed.

Lemma framed_initializeFocusManagement p : framed R p (initializeFocusManagement p).
Proof.
  unfold initializeFocusManagement.
  trans (foldl init_card p (querySelectorAll sel_card p)).
  - apply framed_foldl. intros p1 card. apply framed_update, R_init_card_element.
  - apply framed_foldl. intros p1 button. apply framed_update, R_init_button_element.
Qed.

Lemma framed_onDOMContentLoaded p : framed R p (onDOMContentLoaded p).
Proof.
  unfold onDOMContentLoaded.
  etrans; [apply framed_initializeImageHandling|].
  etrans; [apply framed_initializeSmoothScroll|].
  apply framed_initializeFocusManagement.
Qed.

Lemma framed_step p p' : step p p' → framed R p p'.
Proof.
  destruct 1 as [i ev p|k p|p p' [Hd _]| | | |].
  - apply framed_dispatch.
  - apply framed_fire_timer.
  - unfold framed. eapply Forall2_impl; [exact Hd|]. apply R_host.
  - apply framed_initializeImageHandling.
  - apply framed_checkForBrokenImages.
  - apply framed_initializeSmoothScroll.
  - apply framed_initializeFocusManagement.
Qed.

Lemma framed_steps p p' : rtc step p p' → framed R p p'.
Proof.
  induction 1 as [|p1 p2 p3 Hstep _ IH]; [done|].
  etrans; [by apply framed_step|exact IH].
Qed.

End Frame.

(** *** The frame of the script *)

Ltac frame_split :=
  unfold script_frame, same_markup, listeners_grow, same_presentation;
  (split; [split; [|split]|split; [|split]]);
  try match goal with
      | |- _ = _ => reflexivity
      | |- _ `prefix_of` _ => reflexivity
      | |- ∀ _, _ => intros; match goal with |- _ = _ => reflexivity end
      end.

Lemma script_frame_refl e : script_frame e e.
Proof. frame_split. Qed.

Lemma script_frame_trans e1 e2 e3 :
  script_frame e1 e2 → script_frame e2 e3 → script_frame e1 e3.
Proof.
  intros ((Ht1 & Hp1 & Ha1) & Hl1 & Hc1 & Hs1) ((Ht2 & Hp2 & Ha2) & Hl2 & Hc2 & Hs2).
  frame_split.
  - congruence.
  - congruence.
  - intros name H1 H2 H3 H4 H5. rewrite Ha2, Ha1; auto.
  - unfold listeners_grow in *. by etrans.
  - intros c H1 H2. rewrite Hc2, Hc1; auto.
  - intros prop H1 H2 H3 H4. rewrite Hs2, Hs1; auto.
Qed.

Lemma script_frame_host e e' : same_authored e e' → script_frame e e'.
Proof.
  intros (Ht & Hp & Ha & Hc & Hs & Hl). frame_split.
  - exact Ht.
  - exact Hp.
  - intros name _ _ _ _ _. by rewrite Ha.
  - by rewrite Hl.
  - intros c _ _. unfold has_class. by rewrite Hc.
  - intros prop _ _ _ _. unfold style_get. by rewrite Hs.
Qed.

Lemma script_frame_add_class c e :
  c = "img-loading" ∨ c = "img-missing" →
  script_frame e (set_classList (ClassList.add c) e).
Proof.
  intros Hc. frame_split.
  intros c' H1 H2. unfold has_class. simpl. apply contains_add_ne.
  destruct Hc; congruence.
Qed.

Lemma script_frame_remove_class e :
  script_frame e (set_classList (ClassList.remove "img-loading") e).
Proof.
  frame_split.
  intros c' H1 H2. unfold has_class. simpl. by apply contains_remove_ne.
Qed.

Lemma script_frame_setAttribute name v e :
  name = "alt" ∨ name = "src" ∨ name = "tabindex" →
  script_frame e (setAttribute name v e).
Proof.
  intros Hn. frame_split.
  intros k H1 H2 H3 _ _. simpl. apply lookup_insert_ne.
  destruct Hn as [->|[->| ->]]; congruence.
Qed.

Lemma script_frame_style_set prop v e :
  prop = "outline-color" ∨ prop = "outline-style" ∨ prop = "outline-width"
  ∨ prop = "outline-offset" →
  script_frame e (style_set prop v e).
Proof.
  intros Hp. frame_split.
  intros k H1 H2 H3 H4. apply style_get_set_other.
  destruct Hp as [->|[->|[->| ->]]]; congruence.
Qed.

Lemma script_frame_addEventListener l e : script_frame e (addEventListener l e).
Proof. frame_split. simpl. by apply prefix_app_r. Qed.

(** Every run of the page keeps the frame, node by node. *)
Lemma script_frame_steps p p' : rtc step p p' → framed script_frame p p'.
Proof.
  apply framed_steps.
  - apply script_frame_refl.
  - apply script_frame_trans.
  - apply script_frame_host.
  - apply script_frame_add_class.
  - apply script_frame_remove_class.
  - apply script_frame_setAttribute.
  - apply script_frame_style_set.
  - apply script_frame_addEventListener.
Qed.

Lemma framed_lookup R p p' i e :
  framed R p p' → document p !! i = Some e →
  ∃ e', document p' !! i = Some e' ∧ R e e'.
Proof. intros H He. by apply (Forall2_lookup_l _ _ _ _ _ H He). Qed.

(** Sample run used below: the page is loaded, the broken poster gets its
    error event, then the scan is run once more. *)
Lemma sample_run :
  rtc step (Samples.page_of [Samples.poster_lazy])
    (checkForBrokenImages
       (hs_page (dispatch 0 (new_Event "error")
          (initializeImageHandling (Samples.page_of [Samples.poster_lazy]))))).
Proof.
  eapply rtc_l; [apply step_initializeImageHandling|].
  eapply rtc_l; [apply (step_dispatch 0 (new_Event "error"))|].
  eapply rtc_l; [apply step_checkForBrokenImages|]. apply rtc_refl.
Defined.

(** X1.  The script never adds, removes, moves or renames a node, and the only
    attributes it ever writes are [alt], [src] and [tabindex], by name, and
    [class] and [style], through [classList] and [style]: over any run of
    the page, the document keeps its length and every node keeps its tag, its
    parent and all its other attributes (so [id], [href] and [loading] are
    never changed). *)
Theorem script_never_rewrites_markup (p p' : page) :
  rtc step p p' →
  length (document p') = length (document p) ∧
  ∀ i e, document p !! i = Some e →
    ∃ e', document p' !! i = Some e' ∧
      tagName e' = tagName e ∧ parentNode e' = parentNode e ∧
      ∀ name, name ≠ "alt" → name ≠ "src" → name ≠ "tabindex" →
        name ≠ "class" → name ≠ "style" →
        getAttribute name e' = getAttribute name e.
Proof.
  intros Hsteps. pose proof (script_frame_steps _ _ Hsteps) as Hf. split.
  - symmetry. apply (Forall2_length _ _ _ Hf).
  - intros i e He. destruct (framed_lookup _ _ _ _ _ Hf He) as (e' & He' & Hm & _).
    exists e'. split; [done|]. exact Hm.
Qed.

Lemma script_never_rewrites_markup_witness :
  let p := Samples.page_of [Samples.poster_lazy] in
  let p' := checkForBrokenImages
              (hs_page (dispatch 0 (new_Event "error") (initializeImageHandling p))) in
  length (document p') = length (document p) ∧
  ∀ i e, document p !! i = Some e →
    ∃ e', document p' !! i = Some e' ∧
      tagName e' = tagName e ∧ parentNode e' = parentNode e ∧
      ∀ name, name ≠ "alt" → name ≠ "src" → name ≠ "tabindex" →
        name ≠ "class" → name ≠ "style" →
        getAttribute name e' = getAttribute name e.
Proof.
  apply (script_never_rewrites_markup (Samples.page_of [Samples.poster_lazy])).
  exact sample_run.
Defined.

(** X2.  Listeners are never removed and never reordered: over any run of the
    page, the listeners of a node are a prefix of its listeners afterwards. *)
Theorem listeners_are_only_added (p p' : page) (i : nat) (e : element) :
  rtc step p p' →
  document p !! i = Some e →
  ∃ e' added, document p' !! i = Some e' ∧ listeners e' = listeners e ++ added.
Proof.
  intros Hsteps He.
  destruct (framed_lookup _ _ _ _ _ (script_frame_steps _ _ Hsteps) He)
    as (e' & He' & _ & [added Hl] & _).
  by exists e', added.
Qed.

Lemma listeners_are_only_added_witness :
  ∃ e' added,
    document (checkForBrokenImages
       (hs_page (dispatch 0 (new_Event "error")
          (initializeImageHandling (Samples.page_of [Samples.poster_lazy]))))) !! 0
      = Some e' ∧
    listeners e' = listeners Samples.poster_lazy ++ added.
Proof.
  apply (listeners_are_only_added (Samples.page_of [Samples.poster_lazy]) _ 0
           Samples.poster_lazy).
  - exact sample_run.
  - reflexivity.
Defined.

(** X3.  The only classes the script ever adds or removes are [img-loading] and
    [img-missing], and the only inline style properties it ever writes are
    the three that [style.outline] stands for ([outline-color],
    [outline-style], [outline-width]) and [outline-offset]: over any run of
    the page every other class and every other inline style property of a
    node is as it was. *)
Theorem script_keeps_other_classes_and_styles (p p' : page) (i : nat) (e : element) :
  rtc step p p' →
  document p !! i = Some e →
  ∃ e', document p' !! i = Some e' ∧
    (∀ c, c ≠ "img-loading" → c ≠ "img-missing" →
       has_class c e' = has_class c e) ∧
    (∀ prop,
       prop ≠ "outline-color" → prop ≠ "outline-style" → prop ≠ "outline-width" →
       prop ≠ "outline-offset" →
       style_get prop e' = style_get prop e).
Proof.
  intros Hsteps He.
  destruct (framed_lookup _ _ _ _ _ (script_frame_steps _ _ Hsteps) He)
    as (e' & He' & _ & _ & Hpres).
  by exists e'.
Qed.

Lemma script_keeps_other_classes_and_styles_witness :
  ∃ e',
    document (checkForBrokenImages
       (hs_page (dispatch 0 (new_Event "error")
          (initializeImageHandling (Samples.page_of [Samples.poster_lazy]))))) !! 0
      = Some e' ∧
    (∀ c, c ≠ "img-loading" → c ≠ "img-missing" →
       has_class c e' = has_class c Samples.poster_lazy) ∧
    (∀ prop,
       prop ≠ "outline-color" → prop ≠ "outline-style" → prop ≠ "outline-width" →
       prop ≠ "outline-offset" →
       style_get prop e' = style_get prop Samples.poster_lazy).
Proof.
  apply (script_keeps_other_classes_and_styles (Samples.page_of [Samples.poster_lazy]) _ 0
           Samples.poster_lazy).
  - exact sample_run.
  - reflexivity.
Defined.

(** ** The broken-image scan, in full *)

Lemma select_from_ge m k l i : i ∈ select_from m k l → k ≤ i.
Proof. intros H. apply elem_of_select_from in H as (e & Hle & _). exact Hle. Qed.

Lemma NoDup_select_from m k l : NoDup (select_from m k l).
Proof.
  revert k. induction l as [|x l IH]; intros k; simpl; [constructor|].
  destruct (m k x); [|apply IH].
  constructor; [|apply IH]. intros Hin. apply select_from_ge in Hin. lia.
Qed.

Lemma NoDup_querySelectorAll m p : NoDup (querySelectorAll m p).
Proof. apply NoDup_select_from. Qed.

(** One turn of the loop, in full. *)
Lemma check_image_effect p j e :
  document p !! j = Some e →
  check_image p j
  = mkPage (alter scanned j (document p)) (scrollCalls p) (activeElement p)
      (timers p ++ (if is_pending e then [j] else []))
      ((if is_broken e then [(j, "error")] else []) ++ dispatched p) (reported p).
Proof.
  intros He. unfold check_image, is_pending, is_broken. rewrite He.
  assert (Hid : ∀ f : element → element, f e = e → alter f j (document p) = document p).
  { intros f Hf. apply list_eq. intros i. destruct (decide (j = i)) as [->|Hne].
    - by rewrite list_lookup_alter_eq, He; simpl; rewrite Hf.
    - by rewrite list_lookup_alter_ne. }
  destruct (has_class "img-missing" e) eqn:Hm; simpl.
  { rewrite app_nil_r, Hid; [by destruct p|].
    unfold scanned, is_broken. by rewrite Hm. }
  destruct (complete e) eqn:Hc; simpl.
  - destruct (zero_sized e) eqn:Hz; simpl.
    + rewrite (dispatchEvent_error _ _ _ He), app_nil_r. f_equal.
      apply list_alter_ext; [|done]. intros x Hx.
      rewrite He in Hx. injection Hx as <-.
      unfold scanned, is_broken. by rewrite Hm, Hc, Hz.
    + rewrite app_nil_r, Hid; [by destruct p|].
      unfold scanned, is_broken. by rewrite Hm, Hc, Hz.
  - rewrite Hid; [done|]. unfold scanned, is_broken. by rewrite Hm, Hc.
Qed.

Lemma filter_node_is_ext P d d' (l : list nat) :
  (∀ j, j ∈ l → d' !! j = d !! j) →
  List.filter (node_is P d') l = List.filter (node_is P d) l.
Proof.
  intros H. apply List.filter_ext_in. intros j Hj. unfold node_is.
  rewrite H; [done|]. by apply list_elem_of_In.
Qed.

(** The loop over distinct nodes, in full. *)
Lemma scan_loop_effect imgs p :
  NoDup imgs →
  (∀ j, j ∈ imgs → is_Some (document p !! j)) →
  document (foldl check_image p imgs)
    = foldl (λ d j, alter scanned j d) (document p) imgs ∧
  timers (foldl check_image p imgs)
    = timers p ++ List.filter (node_is is_pending (document p)) imgs ∧
  dispatched (foldl check_image p imgs)
    = rev (map (λ j, (j, "error")) (List.filter (node_is is_broken (document p)) imgs))
      ++ dispatched p ∧
  scrollCalls (foldl check_image p imgs) = scrollCalls p ∧
  activeElement (foldl check_image p imgs) = activeElement p ∧
  reported (foldl check_image p imgs) = reported p.
Proof.
  revert p. induction imgs as [|j imgs IH]; intros p Hnd Hin; simpl.
  { by rewrite app_nil_r. }
  apply NoDup_cons in Hnd as [Hj Hnd].
  destruct (Hin j) as [e He]; [by left|].
  assert (Hother : ∀ i, i ∈ imgs → document (check_image p j) !! i = document p !! i).
  { intros i Hi. apply check_image_other. intros ->. done. }
  destruct (IH (check_image p j) Hnd) as (Hd & Ht & Hev & Hs & Ha & Hr).
  { intros i Hi. rewrite Hother by done. apply Hin. by right. }
  rewrite Hd, Ht, Hev, Hs, Ha, Hr.
  rewrite !(filter_node_is_ext _ _ _ _ Hother).
  rewrite (check_image_effect _ _ _ He). simpl.
  assert (Hnb : node_is is_broken (document p) j = is_broken e)
    by (unfold node_is; by rewrite He).
  assert (Hnp : node_is is_pending (document p) j = is_pending e)
    by (unfold node_is; by rewrite He).
  rewrite Hnb, Hnp.
  split_and!; try reflexivity.
  - rewrite <- app_assoc. by destruct (is_pending e).
  - destruct (is_broken e); [|done]. simpl. by rewrite <- app_assoc.
Qed.

Lemma foldl_alter_lookup (f : element → element) imgs (d : list element) i :
  foldl (λ d j, alter f j d) d imgs !! i
  = Nat.iter (count_occ Nat.eq_dec imgs i) f <$> d !! i.
Proof.
  revert d. induction imgs as [|j imgs IH]; intros d; simpl.
  - by destruct (d !! i).
  - rewrite IH. destruct (Nat.eq_dec j i) as [->|Hne].
    + rewrite list_lookup_alter_eq. destruct (d !! i) as [e|]; [|done].
      simpl. by rewrite iter_succ_r.
    + by rewrite list_lookup_alter_ne.
Qed.

Lemma count_occ_NoDup (l : list nat) i :
  NoDup l → count_occ Nat.eq_dec l i = if bool_decide (i ∈ l) then 1 else 0.
Proof.
  intros Hnd. case_bool_decide as Hin.
  - apply NoDup_ListNoDup in Hnd.
    pose proof (proj1 (List.NoDup_count_occ Nat.eq_dec l) Hnd i) as Hle.
    apply count_occ_pos in Hin. lia.
  - apply count_occ_not_In. by rewrite <- list_elem_of_In.
Qed.

Lemma bool_decide_querySelectorAll m p i e :
  document p !! i = Some e →
  bool_decide (i ∈ querySelectorAll m p) = m (document p) i e.
Proof.
  intros He. destruct (m (document p) i e) eqn:Hm.
  - apply bool_decide_eq_true. apply elem_of_querySelectorAll. eauto.
  - apply bool_decide_eq_false. intros Hin.
    apply elem_of_querySelectorAll in Hin as (e' & He' & Hm'). congruence.
Qed.

Lemma checkForBrokenImages_lookup (p : page) (i : nat) (e : element) :
  document p !! i = Some e →
  document (checkForBrokenImages p) !! i
  = Some (if sel_img (document p) i e && is_broken e
          then Nat.iter (registered ImgError (listeners e)) imgError e
          else e).
Proof.
  intros He. unfold checkForBrokenImages.
  destruct (scan_loop_effect (querySelectorAll sel_img p) p) as (Hd & _).
  { apply NoDup_querySelectorAll. }
  { intros j Hj. apply elem_of_querySelectorAll in Hj as (x & -> & _). eauto. }
  rewrite Hd, foldl_alter_lookup, He.
  rewrite (count_occ_NoDup _ _ (NoDup_querySelectorAll _ _)).
  rewrite (bool_decide_querySelectorAll _ _ _ _ He). simpl.
  destruct (sel_img (document p) i e); simpl; [|done].
  unfold scanned. by destruct (is_broken e).
Qed.

Lemma checkForBrokenImages_logs (p : page) :
  dispatched (checkForBrokenImages p)
    = rev (map (λ j, (j, "error"))
        (List.filter (node_is is_broken (document p)) (querySelectorAll sel_img p)))
      ++ dispatched p ∧
  timers (checkForBrokenImages p)
    = timers p
      ++ List.filter (node_is is_pending (document p)) (querySelectorAll sel_img p) ∧
  scrollCalls (checkForBrokenImages p) = scrollCalls p ∧
  activeElement (checkForBrokenImages p) = activeElement p ∧
  reported (checkForBrokenImages p) = reported p.
Proof.
  unfold checkForBrokenImages.
  destruct (scan_loop_effect (querySelectorAll sel_img p) p) as (_ & Ht & Hev & Hrest).
  { apply NoDup_querySelectorAll. }
  { intros j Hj. apply elem_of_querySelectorAll in Hj as (x & -> & _). eauto. }
  by rewrite Ht, Hev.
Qed.

(** X4.  What [checkForBrokenImages] does to each element: on an image that is not
    marked [img-missing], is complete and has zero natural width or height,
    every registered error listener runs once; every other element, image or
    not, is left exactly as it was. *)
Theorem scan_effect_on_elements (p : page) (i : nat) (e : element) :
  document p !! i = Some e →
  document (checkForBrokenImages p) !! i
  = Some (if sel_img (document p) i e && is_broken e
          then Nat.iter (registered ImgError (listeners e)) imgError e
          else e).
Proof. apply checkForBrokenImages_lookup. Qed.

Lemma scan_effect_on_elements_witness :
  document (checkForBrokenImages (Samples.page_of [Samples.poster_lazy_listening])) !! 0
  = Some (if sel_img [Samples.poster_lazy_listening] 0 Samples.poster_lazy_listening
             && is_broken Samples.poster_lazy_listening
          then Nat.iter (registered ImgError (listeners Samples.poster_lazy_listening))
                 imgError Samples.poster_lazy_listening
          else Samples.poster_lazy_listening).
Proof.
  apply (scan_effect_on_elements (Samples.page_of [Samples.poster_lazy_listening]) 0
           Samples.poster_lazy_listening).
  reflexivity.
Defined.

(** X5.  What [checkForBrokenImages] does besides: it dispatches exactly one
    synthetic error event per image that is not marked, complete and without
    natural size, and sets exactly one re-check timer per image that is not
    marked and not complete, both in document order; it does not scroll, move
    the focus or let an exception escape. *)
Theorem scan_events_and_timers (p : page) :
  dispatched (checkForBrokenImages p)
    = rev (map (λ j, (j, "error"))
        (List.filter (node_is is_broken (document p)) (querySelectorAll sel_img p)))
      ++ dispatched p ∧
  timers (checkForBrokenImages p)
    = timers p
      ++ List.filter (node_is is_pending (document p)) (querySelectorAll sel_img p) ∧
  scrollCalls (checkForBrokenImages p) = scrollCalls p ∧
  activeElement (checkForBrokenImages p) = activeElement p ∧
  reported (checkForBrokenImages p) = reported p.
Proof. apply checkForBrokenImages_logs. Qed.

(** ** The error listener, run again *)

Lemma markers_succ n : markers (S n) = not_available +:+ markers n.
Proof. reflexivity. Qed.

Lemma alt_iter_imgError n e : alt (Nat.iter n imgError e) = markers n +:+ alt e.
Proof.
  induction n as [|n IH]; [reflexivity|].
  change (Nat.iter (S n) imgError e) with (imgError (Nat.iter n imgError e)).
  destruct (imgError_spec (Nat.iter n imgError e)) as (_ & _ & Ha & _).
  rewrite Ha, IH, markers_succ. symmetry. apply append_assoc.
Qed.

(** X6.  The error listener is not idempotent on the alternative text: when an
    error event reaches an image, each error listener registered on it
    prefixes the marker once more, so after the event the text is as many
    markers as there are listeners, followed by the former text. *)
Theorem error_event_adds_a_marker_per_listener (p : page) (i : nat) (e : element) :
  document p !! i = Some e →
  ∃ e',
    document (hs_page (dispatch i (new_Event "error") p)) !! i = Some e' ∧
    alt e' = markers (registered ImgError (listeners e)) +:+ alt e.
Proof.
  intros He.
  rewrite (dispatch_element_listeners ImgError imgError i _ p e) by done.
  cbn [hs_page]. rewrite lookup_update_eq, He. cbn [fmap option_fmap option_map].
  eexists. split; [reflexivity|]. apply alt_iter_imgError.
Qed.

Lemma error_event_adds_a_marker_per_listener_witness :
  ∃ e',
    document (hs_page (dispatch 0 (new_Event "error")
      (Samples.page_of [Samples.poster_missing]))) !! 0 = Some e' ∧
    alt e' = markers (registered ImgError (listeners Samples.poster_missing))
             +:+ alt Samples.poster_missing.
Proof.
  apply (error_event_adds_a_marker_per_listener
           (Samples.page_of [Samples.poster_missing]) 0 Samples.poster_missing).
  reflexivity.
Defined.

(** ** The re-check timer *)

Lemma fire_timer_unfold k p img :
  timers p !! k = Some img →
  fire_timer k p
  = recheck_image img
      (mkPage (document p) (scrollCalls p) (activeElement p) (delete k (timers p))
         (dispatched p) (reported p)).
Proof.
  intros Hk. unfold fire_timer. rewrite Hk. by rewrite delete_take_drop.
Qed.

(** X7.  When the re-check timer of an image fires and the image has a natural
    size by then, the callback does nothing: the page is as it was, less that
    timer. *)
Theorem recheck_leaves_loaded_image (p : page) (k img : nat) (e : element) :
  timers p !! k = Some img →
  document p !! img = Some e →
  zero_sized e = false →
  fire_timer k p
  = mkPage (document p) (scrollCalls p) (activeElement p) (delete k (timers p))
      (dispatched p) (reported p).
Proof.
  intros Hk He Hz. rewrite (fire_timer_unfold _ _ _ Hk).
  unfold recheck_image. simpl. by rewrite He, Hz.
Qed.

Lemma recheck_leaves_loaded_image_witness :
  fire_timer 0 TimerSamples.loaded
  = mkPage (document TimerSamples.loaded) (scrollCalls TimerSamples.loaded)
      (activeElement TimerSamples.loaded) (delete 0 (timers TimerSamples.loaded))
      (dispatched TimerSamples.loaded) (reported TimerSamples.loaded).
Proof.
  apply (recheck_leaves_loaded_image TimerSamples.loaded 0 0 TimerSamples.loaded_poster).
  - reflexivity.
  - reflexivity.
  - reflexivity.
Defined.

(** X8.  When the re-check timer of an image fires and the image still has zero
    natural width or height, the callback dispatches the error event whether
    or not the image is already marked [img-missing] (the callback has no such
    guard): every registered error listener runs once more, and the
    alternative text gets one more marker per listener. *)
Theorem recheck_runs_error_listeners_again (p : page) (k img : nat) (e : element) :
  timers p !! k = Some img →
  document p !! img = Some e →
  zero_sized e = true →
  document (fire_timer k p) !! img
    = Some (Nat.iter (registered ImgError (listeners e)) imgError e) ∧
  alt (Nat.iter (registered ImgError (listeners e)) imgError e)
    = markers (registered ImgError (listeners e)) +:+ alt e ∧
  dispatched (fire_timer k p) = (img, "error") :: dispatched p ∧
  timers (fire_timer k p) = delete k (timers p).
Proof.
  intros Hk He Hz. rewrite (fire_timer_unfold _ _ _ Hk).
  unfold recheck_image. simpl. rewrite He, Hz.
  rewrite (dispatchEvent_error _ _ e) by done. simpl.
  rewrite list_lookup_alter_eq, He. split_and!; try reflexivity.
  apply alt_iter_imgError.
Qed.

Lemma recheck_runs_error_listeners_again_witness :
  document (fire_timer 0 TimerSamples.failed) !! 0
    = Some (Nat.iter (registered ImgError (listeners Samples.poster_missing)) imgError
              Samples.poster_missing) ∧
  alt (Nat.iter (registered ImgError (listeners Samples.poster_missing)) imgError
         Samples.poster_missing)
    = markers (registered ImgError (listeners Samples.poster_missing))
      +:+ alt Samples.poster_missing ∧
  dispatched (fire_timer 0 TimerSamples.failed)
    = (0, "error") :: dispatched TimerSamples.failed ∧
  timers (fire_timer 0 TimerSamples.failed) = delete 0 (timers TimerSamples.failed).
Proof.
  apply (recheck_runs_error_listeners_again TimerSamples.failed 0 0 Samples.poster_missing).
  - reflexivity.
  - reflexivity.
  - reflexivity.
Defined.

(** The marked poster of the sample, re-checked: its text now carries the
    marker twice. *)
Example recheck_doubles_the_marker :
  has_class "img-missing" Samples.poster_missing = true ∧
  alt Samples.poster_missing = "Imagem não disponível: Poster" ∧
  alt <$> document (fire_timer 0 TimerSamples.failed) !! 0
    = Some "Imagem não disponível: Imagem não disponível: Poster".
Proof. vm_compute. repeat split. Qed.

(** ** The load listener *)

Lemma remove_absent c l : ClassList.contains c l = false → ClassList.remove c l = l.
Proof.
  induction l as [|x l IH]; simpl; [done|].
  destruct (String.eqb x c); [done|]. intros H. by rewrite IH.
Qed.

Lemma imgLoad_without_loading e :
  has_class "img-loading" e = false → imgLoad e = e.
Proof.
  intros H. unfold imgLoad, set_classList. rewrite (remove_absent _ _ H).
  by destruct e.
Qed.

Lemma iter_imgLoad n e : 0 < n → Nat.iter n imgLoad e = imgLoad e.
Proof.
  intros Hn. destruct n as [|n]; [lia|]. clear Hn.
  induction n as [|n IH]; [done|].
  change (Nat.iter (S (S n)) imgLoad e) with (imgLoad (Nat.iter (S n) imgLoad e)).
  rewrite IH. apply imgLoad_without_loading.
  unfold imgLoad, has_class. simpl. apply contains_remove_same.
Qed.

(** X9.  A load event on an image that carries the load listener removes the class
    [img-loading] and nothing else: every other class (so [img-missing] too)
    is as before, and so is everything of the element but its class list. *)
Theorem load_event_clears_loading_only (p : page) (i : nat) (e : element) :
  document p !! i = Some e →
  ImgLoad ∈ listeners e →
  ∃ e',
    document (hs_page (dispatch i (new_Event "load") p)) !! i = Some e' ∧
    has_class "img-loading" e' = false ∧
    (∀ c, c ≠ "img-loading" → has_class c e' = has_class c e) ∧
    set_classList (λ _, classList e) e' = e.
Proof.
  intros He Hl.
  rewrite (dispatch_element_listeners ImgLoad imgLoad i _ p e) by done.
  cbn [hs_page]. rewrite lookup_update_eq, He. cbn [fmap option_fmap option_map].
  rewrite iter_imgLoad by (by apply registered_pos).
  eexists. split; [reflexivity|]. unfold imgLoad, has_class. simpl. split_and!.
  - apply contains_remove_same.
  - intros c Hc. by apply contains_remove_ne.
  - by destruct e.
Qed.

Lemma load_event_clears_loading_only_witness :
  ∃ e',
    document (hs_page (dispatch 0 (new_Event "load")
      (Samples.page_of [init_element TimerSamples.loading_poster]))) !! 0 = Some e' ∧
    has_class "img-loading" e' = false ∧
    (∀ c, c ≠ "img-loading" →
       has_class c e' = has_class c (init_element TimerSamples.loading_poster)) ∧
    set_classList (λ _, classList (init_element TimerSamples.loading_poster)) e'
      = init_element TimerSamples.loading_poster.
Proof.
  apply (load_event_clears_loading_only
           (Samples.page_of [init_element TimerSamples.loading_poster]) 0
           (init_element TimerSamples.loading_poster)).
  - reflexivity.
  - left.
Defined.

(** X10.  A load event on an element without the class [img-loading] changes
    nothing.  The error listener removes that class, so the load event of the
    placeholder itself, which arrives after the error listener has run,
    leaves the marked image as the error listener left it. *)
Theorem load_event_after_error_changes_nothing (p : page) (i : nat) (e : element) :
  document p !! i = Some e →
  has_class "img-loading" e = false →
  hs_page (dispatch i (new_Event "load") p) = p.
Proof.
  intros He Hl.
  rewrite (dispatch_element_listeners ImgLoad imgLoad i _ p e) by done.
  cbn [hs_page]. unfold update, set_document.
  replace (alter (Nat.iter (registered ImgLoad (listeners e)) imgLoad) i (document p))
    with (document p); [by destruct p|].
  apply list_eq. intros j. destruct (decide (i = j)) as [<-|Hne].
  - rewrite list_lookup_alter_eq, He. simpl. f_equal. symmetry.
    apply (iter_keeps (λ x, x = e)); [done|].
    intros y ->. by apply imgLoad_without_loading.
  - by rewrite list_lookup_alter_ne.
Qed.

Lemma load_event_after_error_changes_nothing_witness :
  hs_page (dispatch 0 (new_Event "load") (Samples.page_of [Samples.poster_missing]))
    = Samples.page_of [Samples.poster_missing].
Proof.
  apply (load_event_after_error_changes_nothing
           (Samples.page_of [Samples.poster_missing]) 0 Samples.poster_missing).
  - reflexivity.
  - reflexivity.
Defined.

(** ** initializeImageHandling, in full *)

Lemma foldl_update_lookup_NoDup (f : element → element) nodes p i e :
  NoDup nodes →
  document p !! i = Some e →
  document (foldl (λ p j, update j f p) p nodes) !! i
  = Some (if bool_decide (i ∈ nodes) then f e else e).
Proof.
  intros Hnd He. rewrite foldl_update_lookup, He, (count_occ_NoDup _ _ Hnd).
  by case_bool_decide.
Qed.

Lemma is_broken_init_element e : is_broken (init_element e) = is_broken e.
Proof.
  destruct (init_element_keeps e) as (_ & Hc & Hz & Hm & _).
  unfold is_broken. by rewrite Hc, Hz, Hm.
Qed.

Lemma is_broken_registered_image d i e : is_broken (registered_image d i e) = is_broken e.
Proof.
  unfold registered_image. destruct (sel_lazy_img d i e); [|done].
  apply is_broken_init_element.
Qed.

Lemma initializeImageHandling_lookup (p : page) (i : nat) (e : element) :
  document p !! i = Some e →
  document (initializeImageHandling p) !! i
  = Some (if sel_img (document p) i e && is_broken e
          then Nat.iter (registered ImgError (listeners (registered_image (document p) i e)))
                 imgError (registered_image (document p) i e)
          else registered_image (document p) i e).
Proof.
  intros He. unfold initializeImageHandling.
  set (p1 := foldl init_image p (querySelectorAll sel_lazy_img p)).
  assert (He1 : document p1 !! i = Some (registered_image (document p) i e)).
  { subst p1. unfold init_image.
    rewrite (foldl_update_lookup_NoDup _ _ _ _ e) by (apply NoDup_querySelectorAll || done).
    by rewrite (bool_decide_querySelectorAll _ _ _ _ He). }
  rewrite (checkForBrokenImages_lookup _ _ _ He1), is_broken_registered_image.
  replace (sel_img (document p1) i (registered_image (document p) i e))
    with (sel_img (document p) i e); [done|].
  unfold sel_img, registered_image. destruct (sel_lazy_img (document p) i e); [|done].
  by destruct (init_element_keeps e) as (-> & _).
Qed.

(** X11.  What [initializeImageHandling] does to each element.  A deferred-loading
    image gets the class [img-loading] if it is not complete, then one load
    and one error listener, appended to its listeners; any other element is
    not touched by the registration.  After that, on any image (deferred or
    not) that is unmarked, complete and without natural size, the error
    listeners registered on it run once each. *)
Theorem initializeImageHandling_effect (p : page) (i : nat) (e : element) :
  document p !! i = Some e →
  document (initializeImageHandling p) !! i
  = Some
      (let e1 := if sel_lazy_img (document p) i e then init_element e else e in
       if sel_img (document p) i e && is_broken e
       then Nat.iter (registered ImgError (listeners e1)) imgError e1
       else e1).
Proof. apply initializeImageHandling_lookup. Qed.

Lemma initializeImageHandling_effect_witness :
  document (initializeImageHandling (Samples.page_of [Samples.poster_lazy])) !! 0
  = Some
      (let e1 := if sel_lazy_img [Samples.poster_lazy] 0 Samples.poster_lazy
                 then init_element Samples.poster_lazy else Samples.poster_lazy in
       if sel_img [Samples.poster_lazy] 0 Samples.poster_lazy
          && is_broken Samples.poster_lazy
       then Nat.iter (registered ImgError (listeners e1)) imgError e1
       else e1).
Proof.
  apply (initializeImageHandling_effect (Samples.page_of [Samples.poster_lazy]) 0
           Samples.poster_lazy).
  reflexivity.
Defined.

Lemma remove_app c l1 l2 :
  ClassList.remove c (l1 ++ l2) = ClassList.remove c l1 ++ ClassList.remove c l2.
Proof.
  induction l1 as [|x l1 IH]; simpl; [done|].
  destruct (String.eqb x c); [done|]. simpl. by rewrite IH.
Qed.

Lemma foldl_update_timers (f : element → element) nodes p :
  timers (foldl (λ p j, update j f p) p nodes) = timers p.
Proof. revert p. induction nodes as [|j nodes IH]; intros p; simpl; [done|]. by rewrite IH. Qed.

(** X12.  The loading indicator comes and goes.  For a deferred-loading image that
    is still loading when [initializeImageHandling] runs (not complete, no
    state class yet): afterwards it carries [img-loading] and a re-check timer
    is pending for it; the load event then removes the class, and the class
    list is again exactly what it was before the script ran. *)
Theorem loading_indicator_round_trip (p : page) (i : nat) (e : element) :
  document p !! i = Some e →
  sel_lazy_img (document p) i e = true →
  complete e = false →
  has_class "img-loading" e = false →
  has_class "img-missing" e = false →
  ∃ e1 e2,
    document (initializeImageHandling p) !! i = Some e1 ∧
    has_class "img-loading" e1 = true ∧
    i ∈ timers (initializeImageHandling p) ∧
    document (hs_page (dispatch i (new_Event "load") (initializeImageHandling p))) !! i
      = Some e2 ∧
    has_class "img-loading" e2 = false ∧
    classList e2 = classList e.
Proof.
  intros He Hlazy Hc Hl Hm.
  assert (Hnb : is_broken e = false).
  { unfold is_broken. rewrite Hc. simpl. apply andb_false_r. }
  pose proof (initializeImageHandling_lookup p i e He) as He1.
  rewrite Hnb, andb_false_r in He1. unfold registered_image in He1. rewrite Hlazy in He1.
  assert (Hcl : classList (init_element e) = classList e ++ ["img-loading"]).
  { unfold init_element. rewrite Hc. simpl. unfold ClassList.add.
    unfold has_class in Hl. by rewrite Hl. }
  exists (init_element e), (imgLoad (init_element e)). split_and!.
  - exact He1.
  - unfold has_class. rewrite Hcl, contains_app. simpl. apply orb_true_r.
  - unfold initializeImageHandling.
    set (p1 := foldl init_image p (querySelectorAll sel_lazy_img p)).
    assert (Hp1 : document p1 !! i = Some (init_element e)).
    { subst p1. unfold init_image.
      rewrite (foldl_update_lookup_NoDup _ _ _ _ e) by (apply NoDup_querySelectorAll || done).
      by rewrite (bool_decide_querySelectorAll _ _ _ _ He), Hlazy. }
    destruct (checkForBrokenImages_logs p1) as (_ & -> & _).
    apply elem_of_app. right. apply list_elem_of_In, List.filter_In. split.
    + apply list_elem_of_In, elem_of_querySelectorAll. exists (init_element e).
      split; [done|]. unfold sel_img.
      destruct (init_element_keeps e) as (-> & _).
      unfold sel_lazy_img in Hlazy. by apply andb_prop in Hlazy as [? _].
    + unfold node_is. rewrite Hp1. unfold is_pending.
      destruct (init_element_keeps e) as (_ & -> & _ & -> & _).
      by rewrite Hm, Hc.
  - rewrite (dispatch_element_listeners ImgLoad imgLoad i _ _ (init_element e)) by done.
    cbn [hs_page]. rewrite lookup_update_eq, He1. cbn [fmap option_fmap option_map].
    rewrite iter_imgLoad; [done|].
    apply registered_pos. unfold init_element. simpl. set_solver.
  - change (has_class "img-loading" (imgLoad (init_element e)))
      with (ClassList.contains "img-loading"
              (ClassList.remove "img-loading" (classList (init_element e)))).
    apply contains_remove_same.
  - change (classList (imgLoad (init_element e)))
      with (ClassList.remove "img-loading" (classList (init_element e))).
    rewrite Hcl, remove_app. simpl. rewrite app_nil_r. by apply remove_absent.
Qed.

Lemma loading_indicator_round_trip_witness :
  ∃ e1 e2,
    document (initializeImageHandling (Samples.page_of [TimerSamples.loading_poster])) !! 0
      = Some e1 ∧
    has_class "img-loading" e1 = true ∧
    0 ∈ timers (initializeImageHandling (Samples.page_of [TimerSamples.loading_poster])) ∧
    document (hs_page (dispatch 0 (new_Event "load")
      (initializeImageHandling (Samples.page_of [TimerSamples.loading_poster])))) !! 0
      = Some e2 ∧
    has_class "img-loading" e2 = false ∧
    classList e2 = classList TimerSamples.loading_poster.
Proof.
  apply (loading_indicator_round_trip (Samples.page_of [TimerSamples.loading_poster]) 0
           TimerSamples.loading_poster).
  - reflexivity.
  - reflexivity.
  - reflexivity.
  - reflexivity.
  - reflexivity.
Defined.

(** *** Selectors under the frame *)

Lemma sel_lazy_img_frame d d' i e e' :
  same_markup e e' → sel_lazy_img d' i e' = sel_lazy_img d i e.
Proof.
  intros (Ht & _ & Ha). unfold sel_lazy_img, attr_is.
  rewrite Ht, (Ha "loading"); [done|discriminate..].
Qed.

Lemma sel_fragment_link_frame d d' i e e' :
  same_markup e e' → sel_fragment_link d' i e' = sel_fragment_link d i e.
Proof.
  intros (Ht & _ & Ha). unfold sel_fragment_link.
  rewrite Ht, (Ha "href"); [done|discriminate..].
Qed.

Lemma sel_card_frame d d' i e e' :
  same_presentation e e' → sel_card d' i e' = sel_card d i e.
Proof. intros (Hc & _). unfold sel_card. apply Hc; discriminate. Qed.

Lemma sel_button_frame p p' i e e' :
  framed script_frame p p' →
  document p !! i = Some e →
  document p' !! i = Some e' →
  sel_button (document p') i e' = sel_button (document p) i e.
Proof.
  intros Hf He He'.
  assert (Hlook : ∀ j x, document p !! j = Some x →
            ∃ x', document p' !! j = Some x' ∧ script_frame x x').
  { intros j x Hx. by apply (framed_lookup _ _ _ _ _ Hf Hx). }
  assert (Hnone : ∀ j, document p !! j = None → document p' !! j = None).
  { intros j Hj. apply lookup_ge_None. apply lookup_ge_None in Hj.
    by rewrite <- (Forall2_length _ _ _ Hf). }
  destruct (Hlook i e He) as (x' & Hx' & (Ht & _ & _) & _ & Hc & _).
  rewrite He' in Hx'. injection Hx' as <-.
  unfold sel_button. rewrite Ht, (Hc "botao") by discriminate.
  rewrite <- (Forall2_length _ _ _ Hf).
  rewrite (ancestors_ext (document p) (document p')).
  - f_equal. f_equal. apply existsb_ext_list. intros j. unfold node_has_class.
    destruct (document p !! j) as [x|] eqn:Hx.
    + destruct (Hlook j x Hx) as (y & -> & _ & _ & Hcy & _). apply Hcy; discriminate.
    + by rewrite (Hnone j Hx).
  - intros j. destruct (document p !! j) as [x|] eqn:Hx.
    + destruct (Hlook j x Hx) as (y & -> & (_ & Hp & _) & _). simpl. by rewrite Hp.
    + by rewrite (Hnone j Hx).
Qed.

Lemma registered_app l0 ls1 ls2 :
  registered l0 (ls1 ++ ls2) = registered l0 ls1 + registered l0 ls2.
Proof. induction ls1 as [|l ls1 IH]; simpl; lia. Qed.

Lemma listeners_iter_imgError n e : listeners (Nat.iter n imgError e) = listeners e.
Proof. apply (iter_keeps (λ x, listeners x = listeners e)); done. Qed.

(** The listeners of an element after [initializeImageHandling]. *)
Lemma initializeImageHandling_listeners p i e :
  document p !! i = Some e →
  ∃ e',
    document (initializeImageHandling p) !! i = Some e' ∧
    listeners e'
      = listeners e ++ (if sel_lazy_img (document p) i e then [ImgLoad; ImgError] else []) ∧
    sel_lazy_img (document (initializeImageHandling p)) i e'
      = sel_lazy_img (document p) i e.
Proof.
  intros He. eexists. split; [by apply initializeImageHandling_lookup|]. split.
  - assert (Hl : listeners (registered_image (document p) i e)
                 = listeners e
                   ++ (if sel_lazy_img (document p) i e then [ImgLoad; ImgError] else [])).
    { unfold registered_image. destruct (sel_lazy_img (document p) i e).
      - unfold init_element. destruct (negb (complete e)); simpl;
          by rewrite <- app_assoc.
      - by rewrite app_nil_r. }
    destruct (sel_img (document p) i e && is_broken e); [|done].
    by rewrite listeners_iter_imgError.
  - pose proof (script_frame_steps _ _ (rtc_once _ _ (step_initializeImageHandling p)))
      as Hf.
    destruct (framed_lookup _ _ _ _ _ Hf He) as (e' & He' & Hm & _).
    rewrite (initializeImageHandling_lookup _ _ _ He) in He'.
    injection He' as <-. by apply sel_lazy_img_frame.
Qed.

(** X13.  [initializeImageHandling] is not idempotent: called a second time (it is
    exported on [window.CineCatalogo]) it registers a second load and a second
    error listener on every deferred-loading image, so from then on an error
    event adds the marker twice. *)
Theorem initializeImageHandling_twice_registers_twice (p : page) (i : nat) (e : element) :
  document p !! i = Some e →
  sel_lazy_img (document p) i e = true →
  ∃ e2,
    document (initializeImageHandling (initializeImageHandling p)) !! i = Some e2 ∧
    listeners e2 = listeners e ++ [ImgLoad; ImgError; ImgLoad; ImgError] ∧
    registered ImgError (listeners e2) = registered ImgError (listeners e) + 2.
Proof.
  intros He Hlazy.
  destruct (initializeImageHandling_listeners p i e He) as (e1 & He1 & Hl1 & Hs1).
  destruct (initializeImageHandling_listeners _ i e1 He1) as (e2 & He2 & Hl2 & _).
  rewrite Hs1, Hlazy in Hl2. rewrite Hlazy in Hl1.
  exists e2. split; [exact He2|].
  assert (Hl : listeners e2 = listeners e ++ [ImgLoad; ImgError; ImgLoad; ImgError]).
  { rewrite Hl2, Hl1. by rewrite <- app_assoc. }
  split; [exact Hl|]. by rewrite Hl, registered_app.
Qed.

Lemma initializeImageHandling_twice_registers_twice_witness :
  ∃ e2,
    document (initializeImageHandling (initializeImageHandling
      (Samples.page_of [Samples.poster_lazy]))) !! 0 = Some e2 ∧
    listeners e2 = listeners Samples.poster_lazy ++ [ImgLoad; ImgError; ImgLoad; ImgError] ∧
    registered ImgError (listeners e2)
      = registered ImgError (listeners Samples.poster_lazy) + 2.
Proof.
  apply (initializeImageHandling_twice_registers_twice
           (Samples.page_of [Samples.poster_lazy]) 0 Samples.poster_lazy).
  - reflexivity.
  - reflexivity.
Defined.

(** ** The data URI of the placeholder *)

(** X14.  The [src] written by the error listener decodes, as a data URI, to
    exactly the template of the listener.  The sizes in it are the width and
    the height at which the host lays the image out with its new class list
    and its new alternative text, which is when the listener reads them, with
    400 standing in for a zero width and 300 for a zero height (each on its
    own); the subtitle is the marker followed by the former alternative text.
    Nothing of the text is lost or altered by the encoding. *)
Theorem placeholder_round_trip (e : element) :
  let size :=
    layout e (ClassList.add "img-missing" (ClassList.remove "img-loading" (classList e)))
      ("Imagem não disponível: " +:+ alt e) in
  width (imgError e) = size.1 ∧
  height (imgError e) = size.2 ∧
  data_uri_markup (src (imgError e))
  = Some ("<svg xmlns=" +:+ dquote +:+ "http://www.w3.org/2000/svg" +:+ dquote
          +:+ " width=" +:+ dquote
          +:+ number_to_string (if (size.1 =? 0)%N then 400%N else size.1)
          +:+ dquote +:+ " height=" +:+ dquote
          +:+ number_to_string (if (size.2 =? 0)%N then 300%N else size.2)
          +:+ dquote +:+ " viewBox=" +:+ dquote +:+ "0 0 400 300" +:+ dquote
          +:+ ">" +:+ LF
          +:+ "          <rect width=" +:+ dquote +:+ "100%" +:+ dquote
          +:+ " height=" +:+ dquote +:+ "100%" +:+ dquote
          +:+ " fill=" +:+ dquote +:+ "#222" +:+ dquote +:+ "/>" +:+ LF
          +:+ "          <text x=" +:+ dquote +:+ "50%" +:+ dquote
          +:+ " y=" +:+ dquote +:+ "50%" +:+ dquote
          +:+ " fill=" +:+ dquote +:+ "#ff6b6b" +:+ dquote
          +:+ " font-family=" +:+ dquote +:+ "Arial" +:+ dquote
          +:+ " font-size=" +:+ dquote +:+ "16" +:+ dquote
          +:+ " text-anchor=" +:+ dquote +:+ "middle" +:+ dquote
          +:+ " dy=" +:+ dquote +:+ ".3em" +:+ dquote
          +:+ ">Imagem não encontrada</text>" +:+ LF
          +:+ "          <text x=" +:+ dquote +:+ "50%" +:+ dquote
          +:+ " y=" +:+ dquote +:+ "60%" +:+ dquote
          +:+ " fill=" +:+ dquote +:+ "#ffb3b3" +:+ dquote
          +:+ " font-family=" +:+ dquote +:+ "Arial" +:+ dquote
          +:+ " font-size=" +:+ dquote +:+ "12" +:+ dquote
          +:+ " text-anchor=" +:+ dquote +:+ "middle" +:+ dquote +:+ ">"
          +:+ "Imagem não disponível: " +:+ alt e
          +:+ "</text>" +:+ LF +:+ "        </svg>").
Proof.
  cbv zeta. destruct (imgError_spec e) as (_ & _ & Ha & Hs).
  assert (Hw : width (imgError e)
               = (layout e (ClassList.add "img-missing"
                              (ClassList.remove "img-loading" (classList e)))
                    (not_available +:+ alt e)).1).
  { unfold width. rewrite Ha. reflexivity. }
  assert (Hh : height (imgError e)
               = (layout e (ClassList.add "img-missing"
                              (ClassList.remove "img-loading" (classList e)))
                    (not_available +:+ alt e)).2).
  { unfold height. rewrite Ha. reflexivity. }
  split; [exact Hw|]. split; [exact Hh|].
  rewrite Hs, Ha, Hw, Hh, data_uri_markup_data_uri, svg_template.
  unfold Placeholder.or_default, not_available. rewrite !append_assoc. reflexivity.
Qed.

(** A thumbnail that the host lays out at 64 by 22 while it shows the text
    [Poster]: the sizes written into the placeholder are those of the longer
    text the listener has just set. *)
Example placeholder_has_the_new_size :
  width LayoutSamples.thumb = 64%N ∧
  width (imgError LayoutSamples.thumb) = 264%N ∧
  data_uri_markup (src (imgError LayoutSamples.thumb))
  = Some (Placeholder.svg 264 22 "Imagem não disponível: Poster").
Proof. vm_compute. repeat split. Qed.

Lemma encoded_char_safe (a : ascii) :
  Xml.all_chars data_uri_char
    (if uri_unreserved a then String a EmptyString else percent_escape a) = true.
Proof. destruct a as [[] [] [] [] [] [] [] []]; vm_compute; reflexivity. Qed.

Lemma encodeURIComponent_safe s :
  Xml.all_chars data_uri_char (encodeURIComponent s) = true.
Proof.
  induction s as [|a s IH]; [done|].
  pose proof (encoded_char_safe a) as Ha. cbn [encodeURIComponent].
  destruct (uri_unreserved a).
  - cbn [Xml.all_chars] in *. apply andb_prop in Ha as [-> _]. exact IH.
  - by rewrite all_chars_app, Ha, IH.
Qed.

Lemma data_uri_char_not_breaking (a : ascii) :
  data_uri_char a = true → url_breaking_char a = false.
Proof.
  destruct a as [[] [] [] [] [] [] [] []]; vm_compute; intros H;
    (discriminate H || reflexivity).
Qed.

(** X15.  Whatever the alternative text, the [src] written by the error listener is
    made only of ASCII letters, digits and the signs - _ . ! ~ * ' ( ) % : / +
    ; = and the comma: it contains no white space, no quote, no angle bracket,
    no [#], no [&] and no byte outside ASCII. *)
Theorem placeholder_uri_is_url_safe (e : element) :
  Xml.all_chars (λ a, data_uri_char a && negb (url_breaking_char a)) (src (imgError e))
  = true.
Proof.
  destruct (imgError_spec e) as (_ & _ & _ & Hs). rewrite Hs.
  unfold Placeholder.data_uri. clear Hs.
  assert (H : ∀ s, Xml.all_chars data_uri_char s = true →
            Xml.all_chars (λ a, data_uri_char a && negb (url_breaking_char a)) s = true).
  { induction s as [|a s IH]; [done|]. cbn [Xml.all_chars].
    intros [Ha Hs]%andb_prop. rewrite Ha, (data_uri_char_not_breaking a Ha). by apply IH. }
  apply H. rewrite all_chars_app. apply andb_true_intro. split.
  - reflexivity.
  - apply encodeURIComponent_safe.
Qed.

Lemma markers_plain n : plain_text (markers n) = true.
Proof.
  induction n as [|n IH]; [reflexivity|].
  rewrite markers_succ. unfold plain_text.
  rewrite all_code_points_app; [exact IH|apply not_available_plain].
Qed.

(** X16.  When the alternative text of an image needs no escaping (it is UTF-8
    for characters that XML allows, none of them [<], [&] or [>]), an error
    event on the image leaves a [src] whose payload is well-formed markup,
    however many error listeners are registered on it. *)
Theorem error_event_placeholder_well_formed (p : page) (i : nat) (e : element) :
  document p !! i = Some e →
  ImgError ∈ listeners e →
  plain_text (alt e) = true →
  ∃ e' markup,
    document (hs_page (dispatch i (new_Event "error") p)) !! i = Some e' ∧
    data_uri_markup (src e') = Some markup ∧
    Xml.well_formed markup = true.
Proof.
  intros He Hl Halt.
  rewrite (dispatch_element_listeners ImgError imgError i _ p e) by done.
  cbn [hs_page]. rewrite lookup_update_eq, He. cbn [fmap option_fmap option_map].
  set (n := registered ImgError (listeners e)).
  destruct (iter_imgError_spec n e) as (_ & _ & _ & Hs); [by apply registered_pos|].
  eexists. eexists. split; [reflexivity|]. rewrite Hs, data_uri_markup_data_uri.
  split; [reflexivity|]. apply svg_well_formed.
  rewrite alt_iter_imgError. unfold plain_text.
  rewrite all_code_points_app; [exact Halt|apply markers_plain].
Qed.

Lemma error_event_placeholder_well_formed_witness :
  ∃ e' markup,
    document (hs_page (dispatch 0 (new_Event "error")
      (Samples.page_of [Samples.poster_lazy_listening]))) !! 0 = Some e' ∧
    data_uri_markup (src e') = Some markup ∧
    Xml.well_formed markup = true.
Proof.
  apply (error_event_placeholder_well_formed
           (Samples.page_of [Samples.poster_lazy_listening]) 0
           Samples.poster_lazy_listening).
  - reflexivity.
  - right. left.
  - reflexivity.
Defined.

(** ** Smooth scrolling, the other cases *)

(** X17.  A click on a link whose [href] is the bare [#], or does not start with
    [#] any more, is left to the browser: the listener returns without
    preventing the default action and without touching the page. *)
Theorem click_outside_fragments_is_left_alone
    (p : page) (ev : event) (this : nat) (link : element) (href : string) :
  document p !! this = Some link →
  getAttribute "href" link = Some href →
  href = "#" ∨ startsWith "#" href = false →
  anchorClick this (mkHstate p ev) = (Ok tt, mkHstate p ev).
Proof.
  intros Hthis Hhref Hguard. unfold anchorClick.
  unfold mbind at 1. unfold M_bind, bind at 1. unfold this_get, gets at 1.
  cbn [hs_page]. rewrite Hthis. cbn [fmap option_fmap option_map]. rewrite Hhref.
  destruct Hguard as [->|Hs]; [reflexivity|].
  rewrite Hs, andb_false_r. reflexivity.
Qed.

Lemma click_outside_fragments_is_left_alone_witness :
  anchorClick 3 (mkHstate CardSamples.start click_event)
  = (Ok tt, mkHstate CardSamples.start click_event).
Proof.
  apply (click_outside_fragments_is_left_alone CardSamples.start click_event 3
           (ScrollSamples.link (Some 0) "#") "#").
  - reflexivity.
  - reflexivity.
  - left. reflexivity.
Defined.

Lemma foldl_update_page (f : element → element) nodes p :
  foldl (λ p j, update j f p) p nodes
  = set_document (λ _, document (foldl (λ p j, update j f p) p nodes)) p.
Proof.
  revert p. induction nodes as [|j nodes IH]; intros p; simpl.
  - by destruct p.
  - rewrite IH at 1. reflexivity.
Qed.

(** X18.  [initializeSmoothScroll] appends one click listener to every anchor whose
    [href] starts with [#] (the bare [#] included) and changes nothing else:
    no other element, nothing else of those anchors, nothing else of the
    page. *)
Theorem initializeSmoothScroll_effect (p : page) (i : nat) (e : element) :
  document p !! i = Some e →
  document (initializeSmoothScroll p) !! i
    = Some (if sel_fragment_link (document p) i e
            then addEventListener AnchorClick e else e) ∧
  initializeSmoothScroll p
    = set_document (λ _, document (initializeSmoothScroll p)) p.
Proof.
  intros He. unfold initializeSmoothScroll. split; [|apply foldl_update_page].
  rewrite (foldl_update_lookup_NoDup _ _ _ _ e) by (apply NoDup_querySelectorAll || done).
  by rewrite (bool_decide_querySelectorAll _ _ _ _ He).
Qed.

Lemma initializeSmoothScroll_effect_witness :
  document (initializeSmoothScroll CardSamples.start) !! 3
    = Some (if sel_fragment_link (document CardSamples.start) 3
                 (ScrollSamples.link (Some 0) "#")
            then addEventListener AnchorClick (ScrollSamples.link (Some 0) "#")
            else ScrollSamples.link (Some 0) "#") ∧
  initializeSmoothScroll CardSamples.start
    = set_document (λ _, document (initializeSmoothScroll CardSamples.start))
        CardSamples.start.
Proof.
  apply (initializeSmoothScroll_effect CardSamples.start 3
           (ScrollSamples.link (Some 0) "#")).
  reflexivity.
Defined.

(** ** Focus management, in full *)

Lemma script_framed_foldl_update (f : element → element) nodes p :
  (∀ e, script_frame e (f e)) →
  framed script_frame p (foldl (λ p j, update j f p) p nodes).
Proof.
  intros Hf.
  apply (framed_foldl script_frame script_frame_refl script_frame_trans).
  intros p1 j. apply framed_update; [apply script_frame_refl|exact Hf].
Qed.

Lemma script_frame_init_card_element e : script_frame e (init_card_element e).
Proof.
  unfold init_card_element.
  eapply script_frame_trans; [apply (script_frame_setAttribute "tabindex"); auto|].
  apply script_frame_addEventListener.
Qed.

Lemma initializeFocusManagement_lookup (p : page) (i : nat) (e : element) :
  document p !! i = Some e →
  document (initializeFocusManagement p) !! i = Some (managed (document p) i e).
Proof.
  intros He. unfold initializeFocusManagement, managed.
  set (pc := foldl init_card p (querySelectorAll sel_card p)).
  set (e1 := if sel_card (document p) i e then init_card_element e else e).
  assert (Hec : document pc !! i = Some e1).
  { subst pc e1. unfold init_card.
    rewrite (foldl_update_lookup_NoDup _ _ _ _ e) by (apply NoDup_querySelectorAll || done).
    by rewrite (bool_decide_querySelectorAll _ _ _ _ He). }
  assert (Hf : framed script_frame p pc).
  { apply script_framed_foldl_update, script_frame_init_card_element. }
  unfold init_button.
  rewrite (foldl_update_lookup_NoDup _ _ _ _ e1) by (apply NoDup_querySelectorAll || done).
  rewrite (bool_decide_querySelectorAll _ _ _ _ Hec).
  by rewrite (sel_button_frame _ _ _ _ _ Hf He Hec).
Qed.

(** X19.  What [initializeFocusManagement] does to each element: a [.card-mini]
    element gets [tabindex="0"] and one keydown listener; an element matched
    by [.botao, .menu a] (as the page was before the call) gets one focus and
    one blur listener after that; an element matched by neither is left
    exactly as it was. *)
Theorem initializeFocusManagement_effect (p : page) (i : nat) (e : element) :
  document p !! i = Some e →
  document (initializeFocusManagement p) !! i
  = Some
      (let e1 :=
         if sel_card (document p) i e
         then addEventListener CardKeydown (setAttribute "tabindex" "0" e) else e in
       if sel_button (document p) i e
       then addEventListener ButtonBlur (addEventListener ButtonFocus e1) else e1).
Proof. apply initializeFocusManagement_lookup. Qed.

Lemma initializeFocusManagement_effect_witness :
  document (initializeFocusManagement CardSamples.start) !! 2
  = Some
      (let e1 :=
         if sel_card (document CardSamples.start) 2 CardSamples.card
         then addEventListener CardKeydown (setAttribute "tabindex" "0" CardSamples.card)
         else CardSamples.card in
       if sel_button (document CardSamples.start) 2 CardSamples.card
       then addEventListener ButtonBlur (addEventListener ButtonFocus e1) else e1).
Proof.
  apply (initializeFocusManagement_effect CardSamples.start 2 CardSamples.card).
  reflexivity.
Defined.

(** *** The keydown listener of the cards *)

Lemma foldl_ext_in {A B} (f g : A → B → A) (l : list B) (a : A) :
  (∀ a b, b ∈ l → f a b = g a b) → foldl f a l = foldl g a l.
Proof.
  revert a. induction l as [|b l IH]; intros a H; simpl; [done|].
  rewrite (H a b) by left. apply IH. intros a' b' Hb'. apply H. by right.
Qed.

(** For an event that is not a key press, the [click()] method handed to the
    keydown listener plays no part in the dispatch. *)
Lemma dispatch_with_click_irrelevant c1 c2 i ev p :
  ev_type ev ≠ "keydown" →
  dispatch_with (listener_body c1) i ev p = dispatch_with (listener_body c2) i ev p.
Proof.
  intros Hty. unfold dispatch_with. apply foldl_ext_in. intros s j _.
  unfold invoke. destruct (document (hs_page s) !! j) as [e|]; [|done].
  apply foldl_ext_in. intros s1 l _.
  destruct l; try reflexivity.
  destruct (String.eqb_spec (listener_type CardKeydown) (ev_type ev)) as [Heq|_]; [|done].
  simpl in Heq. congruence.
Qed.

Lemma click_is_dispatch i p : click i p = hs_page (dispatch i click_event p).
Proof.
  unfold click, dispatch. f_equal. apply dispatch_with_click_irrelevant. discriminate.
Qed.

(** X20.  The keydown listener of a card.  On Enter or Space it prevents the
    default action (the scroll on Space) and dispatches a click on the card,
    exactly as a call of [click()] does: a bubbling, cancelable click event;
    on any other key it does nothing.  It never throws: an exception of a
    click listener is reported by the dispatch, not passed on. *)
Theorem card_keydown_activates (p : page) (ev : event) (this : nat) :
  listener_body click CardKeydown this (mkHstate p ev)
  = if String.eqb (key ev) "Enter" || String.eqb (key ev) " "
    then (Ok tt, mkHstate (hs_page (dispatch this click_event p)) (prevented ev))
    else (Ok tt, mkHstate p ev).
Proof.
  cbn [listener_body]. unfold cardKeydown.
  unfold mbind at 1. unfold M_bind, bind at 1. unfold get_event at 1. cbn [hs_event].
  destruct (String.eqb (key ev) "Enter" || String.eqb (key ev) " "); [|reflexivity].
  unfold mbind, M_bind, bind, preventDefault, modify_event, modify_page.
  cbn [hs_page hs_event]. by rewrite click_is_dispatch.
Qed.

(** *** The focus ring over several focus and blur events *)

Lemma element_eq_style e1 e2 :
  set_style (λ _, style e1) e2 = e1 → style e2 = style e1 → e2 = e1.
Proof. intros Hf Hs. rewrite <- Hf, <- Hs. by destruct e2. Qed.

Lemma style_buttonFocus e :
  style (buttonFocus e)
  = <["outline-offset" := "2px"]> (<["outline-width" := "2px"]>
      (<["outline-style" := "solid"]> (<["outline-color" := "rgb(229, 9, 20)"]> (style e)))).
Proof. reflexivity. Qed.

Lemma style_buttonBlur e :
  style (buttonBlur e)
  = delete "outline-width" (delete "outline-style" (delete "outline-color" (style e))).
Proof. reflexivity. Qed.

(** A lookup in an inline style written by the two listeners, by cases on
    the four properties of the focus ring. *)
Ltac ring_keys k :=
  destruct (decide (k = "outline-offset")) as [->|?];
    [|destruct (decide (k = "outline-width")) as [->|?];
        [|destruct (decide (k = "outline-style")) as [->|?];
            [|destruct (decide (k = "outline-color")) as [->|?]]]];
  repeat first
    [ rewrite lookup_insert_eq
    | rewrite lookup_delete_eq
    | rewrite lookup_insert_ne by first [assumption | congruence | discriminate]
    | rewrite lookup_delete_ne by first [assumption | congruence | discriminate] ];
  reflexivity.

(** X21.  The focus ring does not accumulate.  Focusing again after a blur gives
    exactly the element of the first focus, and focusing or blurring twice in
    a row is the same as once: from the first focus on, the element alternates
    between two states. *)
Theorem focus_ring_alternates (e : element) :
  buttonFocus (buttonBlur (buttonFocus e)) = buttonFocus e ∧
  buttonFocus (buttonFocus e) = buttonFocus e ∧
  buttonBlur (buttonBlur e) = buttonBlur e.
Proof.
  split; [|split]; apply element_eq_style; try reflexivity;
    rewrite ?style_buttonFocus, ?style_buttonBlur, ?style_buttonFocus;
    apply map_eq; intros k; ring_keys k.
Qed.

(** ** How the parts of the script meet *)

Lemma managed_focusable d i e : focusable (managed d i e) = focusable e.
Proof.
  unfold managed. by destruct (sel_card d i e), (sel_button d i e).
Qed.

(** X22.  A card that is scrolled to leaves the tab order.
    [initializeFocusManagement] gives every card [tabindex="0"]; when a
    fragment link to a card is clicked, the click listener overwrites it with
    [tabindex="-1"] before calling [focus()] on the card, and nothing sets it
    back.  The card has the focus afterwards if the host lets it take it;
    otherwise the focus stays where it was. *)
Theorem scrolled_card_leaves_tab_order
    (p0 : page) (ev : event) (this : nat) (link : element) (id : string)
    (target menu : nat) (card : element) :
  let p := initializeFocusManagement p0 in
  document p0 !! target = Some card →
  sel_card (document p0) target card = true →
  document p !! this = Some link →
  getAttribute "href" link = Some ("#" +:+ id) →
  id ≠ "" →
  getElementById id p = Some target →
  querySelector_menu p = Some menu →
  ∃ card1 card2 s',
    document p !! target = Some card1 ∧
    getAttribute "tabindex" card1 = Some "0" ∧
    anchorClick this (mkHstate p ev) = (Ok tt, s') ∧
    document (hs_page s') !! target = Some card2 ∧
    getAttribute "tabindex" card2 = Some "-1" ∧
    activeElement (hs_page s')
      = (if focusable card then Some target else activeElement p).
Proof.
  intros p Hcard Hsel Hthis Hhref Hid Htarget Hmenu.
  pose proof (initializeFocusManagement_lookup p0 target card Hcard) as Hc1.
  fold p in Hc1.
  destruct (anchorClick_with_target p ev this link id target menu
              Hthis Hhref Hid Htarget Hmenu)
    as (et & em & s' & Het & _ & Hrun & _ & _ & Hactive & (card2 & Hc2 & Htab) & _).
  rewrite Hc1 in Het. injection Het as <-.
  exists (managed (document p0) target card), card2, s'.
  split; [exact Hc1|]. split.
  { unfold managed. rewrite Hsel. unfold getAttribute.
    destruct (sel_button (document p0) target card); simpl;
      by rewrite lookup_insert_eq. }
  split; [exact Hrun|]. split; [exact Hc2|]. split; [exact Htab|].
  rewrite Hactive, managed_focusable. reflexivity.
Qed.

Lemma scrolled_card_leaves_tab_order_witness :
  ∃ card1 card2 s',
    document (initializeFocusManagement CardSamples.start) !! 2 = Some card1 ∧
    getAttribute "tabindex" card1 = Some "0" ∧
    anchorClick 1 (mkHstate (initializeFocusManagement CardSamples.start) click_event)
      = (Ok tt, s') ∧
    document (hs_page s') !! 2 = Some card2 ∧
    getAttribute "tabindex" card2 = Some "-1" ∧
    activeElement (hs_page s')
      = (if focusable CardSamples.card then Some 2
         else activeElement (initializeFocusManagement CardSamples.start)).
Proof.
  apply (scrolled_card_leaves_tab_order CardSamples.start click_event 1
           (init_button_element (ScrollSamples.link (Some 0) "#filme1")) "filme1" 2 0
           CardSamples.card).
  - reflexivity.
  - reflexivity.
  - reflexivity.
  - reflexivity.
  - discriminate.
  - reflexivity.
  - reflexivity.
Defined.

(** X23.  The listeners of an element once the page is ready.  The
    [DOMContentLoaded] listener appends, in this order: a load and an error
    listener if the element is a deferred-loading image, a click listener if
    it is an anchor whose [href] starts with [#], a keydown listener if it is
    a [.card-mini], a focus and a blur listener if it is matched by
    [.botao, .menu a]; and nothing else. *)
Theorem listeners_once_page_is_ready (p : page) (i : nat) (e : element) :
  document p !! i = Some e →
  ∃ e',
    document (onDOMContentLoaded p) !! i = Some e' ∧
    listeners e'
    = listeners e
      ++ (if sel_lazy_img (document p) i e then [ImgLoad; ImgError] else [])
      ++ (if sel_fragment_link (document p) i e then [AnchorClick] else [])
      ++ (if sel_card (document p) i e then [CardKeydown] else [])
      ++ (if sel_button (document p) i e then [ButtonFocus; ButtonBlur] else []).
Proof.
  intros He. unfold onDOMContentLoaded.
  set (p1 := initializeImageHandling p).
  set (p2 := initializeSmoothScroll p1).
  destruct (initializeImageHandling_listeners p i e He) as (e1 & He1 & Hl1 & _).
  fold p1 in He1.
  assert (Hf1 : framed script_frame p p1).
  { apply script_frame_steps, rtc_once, step_initializeImageHandling. }
  assert (Hf2 : framed script_frame p1 p2).
  { apply script_frame_steps, rtc_once, step_initializeSmoothScroll. }
  destruct (framed_lookup _ _ _ _ _ Hf1 He) as (x & Hx & Hm1 & _ & Hp1).
  rewrite He1 in Hx. injection Hx as <-.
  set (e2 := if sel_fragment_link (document p1) i e1
             then addEventListener AnchorClick e1 else e1).
  assert (He2 : document p2 !! i = Some e2).
  { subst p2 e2. unfold initializeSmoothScroll.
    rewrite (foldl_update_lookup_NoDup _ _ _ _ e1) by (apply NoDup_querySelectorAll || done).
    by rewrite (bool_decide_querySelectorAll _ _ _ _ He1). }
  destruct (framed_lookup _ _ _ _ _ Hf2 He1) as (x & Hx & _ & _ & Hp2).
  rewrite He2 in Hx. injection Hx as <-.
  exists (managed (document p2) i e2).
  split; [by apply initializeFocusManagement_lookup|].
  assert (Hf12 : framed script_frame p p2).
  { apply script_frame_steps. eapply rtc_l; [apply step_initializeImageHandling|].
    apply rtc_once, step_initializeSmoothScroll. }
  unfold managed.
  rewrite (sel_button_frame _ _ _ _ _ Hf12 He He2).
  rewrite (sel_card_frame (document p1) (document p2) i e1 e2) by (split; apply Hp2).
  rewrite (sel_card_frame (document p) (document p1) i e e1) by (split; apply Hp1).
  assert (Hl2 : listeners e2
                = listeners e1
                  ++ (if sel_fragment_link (document p) i e then [AnchorClick] else [])).
  { subst e2. rewrite (sel_fragment_link_frame (document p) _ _ e e1 Hm1).
    destruct (sel_fragment_link (document p) i e); [done|by rewrite app_nil_r]. }
  destruct (sel_card (document p) i e), (sel_button (document p) i e); simpl;
    rewrite Hl2, Hl1, <- ?app_assoc; simpl; by rewrite ?app_nil_r.
Qed.

Lemma listeners_once_page_is_ready_witness :
  ∃ e',
    document (onDOMContentLoaded CardSamples.start) !! 1 = Some e' ∧
    listeners e'
    = listeners (ScrollSamples.link (Some 0) "#filme1")
      ++ (if sel_lazy_img (document CardSamples.start) 1
               (ScrollSamples.link (Some 0) "#filme1")
          then [ImgLoad; ImgError] else [])
      ++ (if sel_fragment_link (document CardSamples.start) 1
               (ScrollSamples.link (Some 0) "#filme1")
          then [AnchorClick] else [])
      ++ (if sel_card (document CardSamples.start) 1
               (ScrollSamples.link (Some 0) "#filme1")
          then [CardKeydown] else [])
      ++ (if sel_button (document CardSamples.start) 1
               (ScrollSamples.link (Some 0) "#filme1")
          then [ButtonFocus; ButtonBlur] else []).
Proof.
  apply (listeners_once_page_is_ready CardSamples.start 1
           (ScrollSamples.link (Some 0) "#filme1")).
  reflexivity.
Defined.

Lemma managed_keeps d i e :
  has_class "img-missing" (managed d i e) = has_class "img-missing" e ∧
  alt (managed d i e) = alt e ∧ src (managed d i e) = src e ∧
  width (managed d i e) = width e ∧ height (managed d i e) = height e.
Proof.
  unfold width, height, managed, init_card_element, init_button_element, alt, src,
    reflected, has_class.
  destruct (sel_card d i e), (sel_button d i e); simpl;
    rewrite ?lookup_insert_ne by discriminate; repeat split.
Qed.

(** X24.  Once the page is ready, every deferred-loading image that was complete
    with zero natural width or height (and not yet marked) carries
    [img-missing], an alternative text starting with the marker and the
    placeholder as [src]: the two initializers that run after
    [initializeImageHandling] do not undo any of it. *)
Theorem broken_lazy_images_are_marked_at_startup (p : page) (i : nat) (e : element) :
  document p !! i = Some e →
  sel_lazy_img (document p) i e = true →
  complete e = true →
  zero_sized e = true →
  has_class "img-missing" e = false →
  ∃ e',
    document (onDOMContentLoaded p) !! i = Some e' ∧
    has_class "img-missing" e' = true ∧
    startsWith "Imagem não disponível: " (alt e') = true ∧
    src e' =
      Placeholder.data_uri (Placeholder.or_default (width e') 400)
        (Placeholder.or_default (height e') 300) (alt e').
Proof.
  intros He Hlazy Hc Hz Hm. unfold onDOMContentLoaded.
  destruct (initializeImageHandling_marks_broken_lazy_image p i e He Hlazy Hc Hz Hm)
    as (e1 & He1 & Hm1 & Ha1 & Hs1).
  set (p1 := initializeImageHandling p) in *.
  set (e2 := if sel_fragment_link (document p1) i e1
             then addEventListener AnchorClick e1 else e1).
  assert (He2 : document (initializeSmoothScroll p1) !! i = Some e2).
  { subst e2. unfold initializeSmoothScroll.
    rewrite (foldl_update_lookup_NoDup _ _ _ _ e1) by (apply NoDup_querySelectorAll || done).
    by rewrite (bool_decide_querySelectorAll _ _ _ _ He1). }
  assert (H2 : has_class "img-missing" e2 = has_class "img-missing" e1 ∧
               alt e2 = alt e1 ∧ src e2 = src e1 ∧
               width e2 = width e1 ∧ height e2 = height e1).
  { subst e2. destruct (sel_fragment_link (document p1) i e1); repeat split. }
  destruct H2 as (Hm2 & Ha2 & Hs2 & Hw2 & Hh2).
  exists (managed (document (initializeSmoothScroll p1)) i e2).
  split; [by apply initializeFocusManagement_lookup|].
  destruct (managed_keeps (document (initializeSmoothScroll p1)) i e2)
    as (-> & -> & -> & -> & ->).
  rewrite Hm2, Ha2, Hs2, Hw2, Hh2. split; [exact Hm1|]. split; [exact Ha1|exact Hs1].
Qed.

Lemma broken_lazy_images_are_marked_at_startup_witness :
  ∃ e',
    document (onDOMContentLoaded (Samples.page_of [Samples.poster_lazy])) !! 0 = Some e' ∧
    has_class "img-missing" e' = true ∧
    startsWith "Imagem não disponível: " (alt e') = true ∧
    src e' =
      Placeholder.data_uri (Placeholder.or_default (width e') 400)
        (Placeholder.or_default (height e') 300) (alt e').
Proof.
  apply (broken_lazy_images_are_marked_at_startup
           (Samples.page_of [Samples.poster_lazy]) 0 Samples.poster_lazy).
  - reflexivity.
  - reflexivity.
  - reflexivity.
  - reflexivity.
  - reflexivity.
Defined.
